(** * The extraction core of the business-card bot: llm_manager.py and the
      OCR wrapper of bot.py

    A shallow embedding of the field validators ([validate_phone],
    [validate_name], [validate_company], [validate_description],
    [validate_email]), of [clean_markdown], of [extract_with_llm] and of
    the two [run_ocr_with_timeout] functions, together with the part of
    Python's [re] and [str] they use.

    Modelling choices.
    - A Python [str] is a [list ascii].  The character classes [\d], [\s],
      [\w] and the case mappings of [title] and [lower] are the ones Python
      has on code points below 128; text is taken to be ASCII, and a byte
      above 127 is in no class and has no case.
    - A compiled pattern is a term of [regex]; [rmatch] is a backtracking
      matcher in continuation-passing style with the priorities of [re]:
      alternatives are tried left to right, a greedy repetition tries one
      more iteration before it tries to stop, a lazy one the other way
      round.
    - A Python exception is a value [Raise e] of the [result] monad.
    - A [dict] with string keys is a [gmap str pyval].
    - The language model and [json.loads] are the environment of
      [extract_with_llm]; the OCR engines are the environment of
      [run_ocr_with_timeout].

    Further on, the user store of json_manager.py, the calls to Google of
    oauth_manager.py and gsheet_manager.py, and the handlers of bot.py that
    choose a contact to edit or to delete.  There the file users.json, the
    requests sent, the clock and [context.user_data] make up a world that
    every call takes and gives back; the network is the environment. *)

From Stdlib Require Import Ascii String List ZArith QArith Lia Bool.
From Stdlib Require Import DecimalString DecimalZ DecimalPos Sorted.
From stdpp Require Import gmap strings list.
Import ListNotations.

Set Warnings "-register-all,-clear-no-such-hyp".
Local Open Scope nat_scope.

(** ** Strings and characters *)

Abbreviation str := (list ascii).

(** A string literal of the source. *)
Definition py (s : string) : str := list_ascii_of_string s.

Module Char.

Definition code (c : ascii) : nat := nat_of_ascii c.

Definition between (lo hi c : ascii) : bool :=
  (code lo <=? code c) && (code c <=? code hi).

Definition is_upper (c : ascii) : bool := between "A"%char "Z"%char c.
Definition is_lower (c : ascii) : bool := between "a"%char "z"%char c.
Definition is_alpha (c : ascii) : bool := is_upper c || is_lower c.

(** [\d] *)
Definition is_digit (c : ascii) : bool := between "0"%char "9"%char c.

(** [\w] *)
Definition is_word (c : ascii) : bool :=
  is_alpha c || is_digit c || Ascii.eqb c "_"%char.

(** [\s] and [str.isspace]: tab, line feed, vertical tab, form feed,
    carriage return, the four separators 0x1c-0x1f and the space. *)
Definition is_space (c : ascii) : bool :=
  ((9 <=? code c) && (code c <=? 13))
  || ((28 <=? code c) && (code c <=? 31))
  || (code c =? 32).

Definition one_of (cs : string) (c : ascii) : bool :=
  existsb (Ascii.eqb c) (list_ascii_of_string cs).

Definition to_lower (c : ascii) : ascii :=
  if is_upper c then ascii_of_nat (code c + 32) else c.

Definition to_upper (c : ascii) : ascii :=
  if is_lower c then ascii_of_nat (code c - 32) else c.

End Char.

(** ** The methods of [str] the source calls *)

Module Str.

Fixpoint eqb (a b : str) : bool :=
  match a, b with
  | [], [] => true
  | x :: a', y :: b' => Ascii.eqb x y && eqb a' b'
  | _, _ => false
  end.

(** [s.startswith(p)] *)
Fixpoint startswith (p s : str) : bool :=
  match p, s with
  | [], _ => true
  | x :: p', y :: s' => Ascii.eqb x y && startswith p' s'
  | _ :: _, [] => false
  end.

(** [s.endswith(p)] *)
Definition endswith (p s : str) : bool := startswith (rev p) (rev s).

Fixpoint lstrip (s : str) : str :=
  match s with
  | c :: s' => if Char.is_space c then lstrip s' else s
  | [] => []
  end.

(** [s.strip()] *)
Definition strip (s : str) : str := rev (lstrip (rev (lstrip s))).

(** [s.lower()] *)
Definition lower (s : str) : str := map Char.to_lower s.

(** [s.title()]: a letter that follows a letter is lower-cased, any other
    letter is upper-cased. *)
Fixpoint title_from (prev_cased : bool) (s : str) : str :=
  match s with
  | [] => []
  | c :: s' =>
      (if Char.is_alpha c
       then if prev_cased then Char.to_lower c else Char.to_upper c
       else c) :: title_from (Char.is_alpha c) s'
  end.

Definition title (s : str) : str := title_from false s.

(** [s.replace(a, b)] for one-character [a] and [b]. *)
Definition replace (a b : ascii) (s : str) : str :=
  map (fun c => if Ascii.eqb c a then b else c) s.

(** [s.split(sep)] for a one-character separator. *)
Fixpoint split_acc (sep : ascii) (cur : str) (s : str) : list str :=
  match s with
  | [] => [rev cur]
  | c :: s' =>
      if Ascii.eqb c sep then rev cur :: split_acc sep [] s'
      else split_acc sep (c :: cur) s'
  end.

Definition split (sep : ascii) (s : str) : list str := split_acc sep [] s.

End Str.

(** ** Exceptions *)

Inductive exn : Type :=
| IndexError
| ValueError
| TypeError
| AttributeError
| RecursionError
| JSONDecodeError
| TimeoutError                 (* concurrent.futures.TimeoutError *)
| OtherError (tag : nat).

Inductive result (A : Type) : Type :=
| Ok (a : A)
| Raise (e : exn).

Arguments Ok {A} a.
Arguments Raise {A} e.

#[global] Instance result_bind : MBind result :=
  fun A B (f : A -> result B) (m : result A) =>
    match m with
    | Ok a => f a
    | Raise e => Raise e
    end.

(** [l[i]] *)
Definition index {A : Type} (l : list A) (i : nat) : result A :=
  match nth_error l i with
  | Some a => Ok a
  | None => Raise IndexError
  end.

(** [max(l, key=key)]: the first element whose key is maximal; raises
    ValueError on an empty sequence. *)
Fixpoint max_from {A : Type} (key : A -> nat) (best : A) (l : list A) : A :=
  match l with
  | [] => best
  | x :: l' => max_from key (if key best <? key x then x else best) l'
  end.

Definition py_max {A : Type} (key : A -> nat) (l : list A) : result A :=
  match l with
  | [] => Raise ValueError
  | x :: l' => Ok (max_from key x l')
  end.

(** ** Regular expressions: the fragment of [re] the source uses *)

Module Re.

Inductive regex : Type :=
| Lit (c : ascii)                      (* a literal character *)
| Class (p : ascii -> bool)            (* a character class, also [.], [\d], [\s] *)
| WordBoundary                         (* [\b] *)
| Seq (r1 r2 : regex)                  (* r1 r2 *)
| Alt (r1 r2 : regex)                  (* r1|r2 *)
| Repeat (greedy : bool) (lo : nat) (hi : option nat) (r : regex).
                                       (* r{lo,hi}, greedy or lazy *)

Definition Plus (r : regex) : regex := Repeat true 1 None r.          (* r+ *)
Definition Star (r : regex) : regex := Repeat true 0 None r.          (* r* *)
Definition Opt (r : regex) : regex := Repeat true 0 (Some 1) r.       (* r? *)
Definition LazyStar (r : regex) : regex := Repeat false 0 None r.     (* r*? *)

(** The empty pattern, and the concatenation of several patterns. *)
Definition Empty : regex := Repeat true 0 (Some 0) (Class (fun _ => false)).

Fixpoint Cat (rs : list regex) : regex :=
  match rs with
  | [] => Empty
  | [r] => r
  | r :: rs' => Seq r (Cat rs')
  end.

(** A literal word. *)
Definition Word (s : string) : regex := Cat (map Lit (list_ascii_of_string s)).

Definition word_before (prev : option ascii) : bool :=
  match prev with Some c => Char.is_word c | None => false end.

Definition word_after (s : str) : bool :=
  match s with c :: _ => Char.is_word c | [] => false end.

Definition at_boundary (prev : option ascii) (s : str) : bool :=
  xorb (word_before prev) (word_after s).

(** A position of the subject is the character before it, if any, and the
    text from it on; a continuation is the rest of the pattern, and returns
    the text left after the whole match. *)
Definition cont : Type := option ascii -> str -> option str.

Definition pred_hi (hi : option nat) : option nat :=
  match hi with Some n => Some (pred n) | None => None end.

Definition hi_is_zero (hi : option nat) : bool :=
  match hi with Some 0 => true | _ => false end.

Definition or_else (a : option str) (b : unit -> option str) : option str :=
  match a with Some t => Some t | None => b tt end.

(** The repetition of a body [body], itself in continuation-passing style.
    An iteration has to consume at least one character, so [fuel], the
    length of the text, bounds the number of iterations. *)
Fixpoint repeat_loop (body : cont -> cont) (k : cont) (greedy : bool)
    (fuel lo : nat) (hi : option nat) (prev : option ascii) (s : str)
    : option str :=
  let more (_ : unit) : option str :=
    match fuel with
    | 0 => None
    | S fuel' =>
        if hi_is_zero hi then None
        else body (fun p t =>
                     if length t <? length s
                     then repeat_loop body k greedy fuel' (pred lo) (pred_hi hi) p t
                     else None) prev s
    end in
  match lo with
  | S _ => more tt
  | 0 => if greedy then or_else (more tt) (fun _ => k prev s)
         else or_else (k prev s) more
  end.

Fixpoint rmatch (r : regex) (k : cont) (prev : option ascii) (s : str)
    : option str :=
  match r with
  | Lit c =>
      match s with
      | x :: t => if Ascii.eqb x c then k (Some x) t else None
      | [] => None
      end
  | Class p =>
      match s with
      | x :: t => if p x then k (Some x) t else None
      | [] => None
      end
  | WordBoundary => if at_boundary prev s then k prev s else None
  | Seq r1 r2 => rmatch r1 (rmatch r2 k) prev s
  | Alt r1 r2 => or_else (rmatch r1 k prev s) (fun _ => rmatch r2 k prev s)
  | Repeat greedy lo hi r1 =>
      repeat_loop (rmatch r1) k greedy (length s) lo hi prev s
  end.

(** The pattern tried at one position: the text left after the match. *)
Definition match_here (r : regex) (prev : option ascii) (s : str) : option str :=
  rmatch r (fun _ t => Some t) prev s.

(** The text consumed between [s] and its suffix [t]. *)
Definition consumed (s t : str) : str := take (length s - length t) s.

Definition last_char (prev : option ascii) (m : str) : option ascii :=
  match rev m with c :: _ => Some c | [] => prev end.

(** [pattern.match(s)]: the match at position 0, if any. *)
Definition re_match (r : regex) (s : str) : option str :=
  match match_here r None s with
  | Some t => Some (consumed s t)
  | None => None
  end.

(** [pattern.search(s)] from a position on: the leftmost match. *)
Fixpoint search_from (r : regex) (prev : option ascii) (s : str) : option str :=
  match match_here r prev s with
  | Some t => Some (consumed s t)
  | None =>
      match s with
      | [] => None
      | c :: s' => search_from r (Some c) s'
      end
  end.

(** [pattern.search(s)].group(0) *)
Definition re_search (r : regex) (s : str) : option str := search_from r None s.

(** The subject cut into the matches [finditer] yields and the characters
    between them.  After an empty match the scan moves one character on. *)
Inductive piece : Type :=
| Skipped (c : ascii)
| Matched (m : str).

Fixpoint scan (r : regex) (fuel : nat) (prev : option ascii) (s : str) : list piece :=
  match fuel with
  | 0 => []
  | S fuel' =>
      match match_here r prev s with
      | Some t =>
          let m := consumed s t in
          match m, s with
          | [], [] => [Matched []]
          | [], c :: s' => Matched [] :: Skipped c :: scan r fuel' (Some c) s'
          | _ :: _, _ => Matched m :: scan r fuel' (last_char prev m) t
          end
      | None =>
          match s with
          | [] => []
          | c :: s' => Skipped c :: scan r fuel' (Some c) s'
          end
      end
  end.

Definition pieces (r : regex) (s : str) : list piece := scan r (S (length s)) None s.

Definition matches_of (ps : list piece) : list str :=
  omap (fun p => match p with Matched m => Some m | Skipped _ => None end) ps.

(** [[m.group(0) for m in pattern.finditer(s)]], and [re.findall(pattern, s)]
    for a pattern without capturing group. *)
Definition re_findall (r : regex) (s : str) : list str := matches_of (pieces r s).

(** [re.sub(pattern, repl, s)], the replacement given as a function of the
    matched text. *)
Definition re_sub (r : regex) (repl : str -> str) (s : str) : str :=
  concat (map (fun p => match p with Matched m => repl m | Skipped c => [c] end)
              (pieces r s)).

End Re.

Import Re.

(** ** Python values, as [json.loads] produces them

    A float is kept up to whether it is zero, which is all the code can
    observe of it (its truth value). *)

Inductive pyval : Type :=
| PNone
| PBool (b : bool)
| PInt (z : Z)
| PFloat (nonzero : bool)
| PStr (s : str)
| PList (l : list pyval)
| PDict (d : gmap str pyval).

(** [bool(v)] *)
Definition truthy (v : pyval) : bool :=
  match v with
  | PNone => false
  | PBool b => b
  | PInt z => negb (z =? 0)%Z
  | PFloat nonzero => nonzero
  | PStr s => negb (length s =? 0)
  | PList l => negb (length l =? 0)
  | PDict d => negb (size d =? 0)
  end.

(** [v == lit] for a string literal [lit] *)
Definition is_str (v : pyval) (lit : string) : bool :=
  match v with
  | PStr s => Str.eqb s (py lit)
  | _ => false
  end.

Definition nonempty {A : Type} (l : list A) : bool := negb (length l =? 0).

(** [s[lo:hi]] for [lo <= hi] within the usual range *)
Definition slice (lo hi : nat) (s : str) : str := take (hi - lo) (drop lo s).

(** ** llm_manager.py: the patterns *)

Definition sep_class (c : ascii) : bool := Char.is_space c || Char.one_of ".-" c.

(** [(?:\+|\b)\d+(?:[\s.-]\d+)*] *)
Definition PHONE_REGEX : regex :=
  Cat [ Alt (Lit "+"%char) WordBoundary;
        Plus (Class Char.is_digit);
        Star (Cat [Class sep_class; Plus (Class Char.is_digit)]) ].

Definition email_local (c : ascii) : bool :=
  Char.is_alpha c || Char.is_digit c || Char.one_of "._%+-" c.

Definition email_domain (c : ascii) : bool :=
  Char.is_alpha c || Char.is_digit c || Char.one_of ".-" c.

Definition email_tld (c : ascii) : bool :=
  Char.is_alpha c || Char.one_of "|" c.

(** [\b[A-Za-z0-9._%+-]+@[A-Za-z0-9.-]+\.[A-Z|a-z]{2,}\b] *)
Definition EMAIL_REGEX : regex :=
  Cat [ WordBoundary;
        Plus (Class email_local);
        Lit "@"%char;
        Plus (Class email_domain);
        Lit "."%char;
        Repeat true 2 None (Class email_tld);
        WordBoundary ].

(** [[A-Z][a-z]+] *)
Definition capitalized : regex :=
  Cat [Class Char.is_upper; Plus (Class Char.is_lower)].

(** [\b[A-Z][a-z]+(?:\s[A-Z][a-z]+){1,hi}\b] *)
Definition capitalized_run (hi : nat) : regex :=
  Cat [ WordBoundary;
        capitalized;
        Repeat true 1 (Some hi) (Cat [Class Char.is_space; capitalized]);
        WordBoundary ].

(** The pattern of [validate_name]: 2-3 word names. *)
Definition NAME_PATTERN : regex := capitalized_run 2.

(** The pattern of [validate_description]: 2-4 capitalized words. *)
Definition DESCRIPTION_PATTERN : regex := capitalized_run 3.

Definition company_body (c : ascii) : bool :=
  Char.is_alpha c || Char.is_space c || Char.one_of "&.-" c.

(** [\b[A-Z][a-zA-Z\s&.-]+(?:Pvt\.?\s*Ltd\.?|Inc\.?|LLC)?\b] *)
Definition COMPANY_PATTERN : regex :=
  Cat [ WordBoundary;
        Class Char.is_upper;
        Plus (Class company_body);
        Opt (Alt (Cat [ Word "Pvt"; Opt (Lit "."%char); Star (Class Char.is_space);
                        Word "Ltd"; Opt (Lit "."%char) ])
            (Alt (Cat [ Word "Inc"; Opt (Lit "."%char) ])
                 (Word "LLC")));
        WordBoundary ].

(** [[()]] *)
Definition PARENS : regex := Class (Char.one_of "()").

(** [[^\d]] *)
Definition NON_DIGIT : regex := Class (fun c => negb (Char.is_digit c)).

(** [\s+] *)
Definition SPACES : regex := Plus (Class Char.is_space).

(** [.] matches any character but the line feed. *)
Definition dot (c : ascii) : bool := negb (Char.code c =? 10).

(** [\*\*(.*?)\*\*] *)
Definition BOLD : regex :=
  Cat [ Lit "*"%char; Lit "*"%char; LazyStar (Class dot); Lit "*"%char; Lit "*"%char ].

(** [\*(.*?)\*] *)
Definition ITALIC : regex :=
  Cat [ Lit "*"%char; LazyStar (Class dot); Lit "*"%char ].

(** The replacement [\1] of a match of [BOLD] or [ITALIC]: the group is
    the match without the [n] delimiter characters at each end. *)
Definition inner (n : nat) (m : str) : str := take (length m - 2 * n) (drop n m).

Definition delete (_ : str) : str := [].

(** ** llm_manager.py: [clean_markdown] *)

Definition clean_markdown (text : pyval) : result pyval :=
  if negb (truthy text) || is_str text "N/A" then Ok text
  else
    match text with
    | PStr text =>
        let text := re_sub BOLD (inner 2) text in
        let text := re_sub ITALIC (inner 1) text in
        Ok (PStr (Str.strip text))
    | _ => Raise TypeError
    end.

(** ** llm_manager.py: the field validators

    The candidate is any Python value (the extractor passes what the model's
    JSON holds); the raw text is a string. *)

(** [re.sub(r'[^\d]', '', x)] *)
Definition digits_of (x : str) : str := re_sub NON_DIGIT delete x.

Definition country_of (digits : str) : result str :=
  if Str.startswith (py "91") digits then Ok (py "91")
  else if Str.startswith (py "1") digits then Ok (py "1")
  else
    d0 ← index digits 0;
    let country_len :=
      if negb (Ascii.eqb d0 "1"%char) && negb (Ascii.eqb d0 "9"%char) then 1
      else if Str.startswith (py "91") digits then 2
      else if 10 <? length digits then 3
      else 1 in
    Ok (take country_len digits).

(** The branch of [validate_phone] taken on a match in the candidate. *)
Definition format_phone (matched_phone : str) : result str :=
  let digits := digits_of matched_phone in
  if length digits <? 7 then Ok (py "N/A")
  else
    country ← country_of digits;
    let rest := drop (length country) digits in
    if negb (length rest =? 10) then
      Ok (py "+" ++ country ++ py " " ++ rest)
    else if Str.eqb country (py "91") then
      Ok (py "+91 " ++ slice 0 2 rest ++ py " " ++ slice 2 6 rest ++ py " " ++ drop 6 rest)
    else if Str.eqb country (py "1") then
      Ok (py "+1-" ++ slice 0 3 rest ++ py "-" ++ slice 3 6 rest ++ py "-" ++ drop 6 rest)
    else
      Ok (py "+" ++ country ++ py " " ++ slice 0 3 rest ++ py " " ++ slice 3 6 rest
             ++ py " " ++ drop 6 rest).

(** The candidate chosen in the raw text, if any has 7 digits or more. *)
Definition best_candidate (raw_text : str) : result (option str) :=
  let raw_clean := re_sub PARENS delete raw_text in
  let candidates := re_findall PHONE_REGEX raw_clean in
  let valid := List.filter (fun c => 7 <=? length (digits_of c)) candidates in
  if nonempty valid then
    let with_plus := List.filter (Str.startswith (py "+")) valid in
    phone_str ← (if nonempty with_plus
                 then py_max (fun x => length (digits_of x)) with_plus
                 else py_max (fun x => length (digits_of x)) valid);
    Ok (Some phone_str)
  else Ok None.

(** [validate_phone] with [depth] stack frames left: the call that finds
    none left raises RecursionError. *)
Fixpoint validate_phone_rec (depth : nat) (phone : pyval) (raw_text : str)
    : result str :=
  match depth with
  | 0 => Raise RecursionError
  | S depth' =>
      match phone with
      | PStr phone =>
          let phone := re_sub PARENS delete phone in
          match re_search PHONE_REGEX phone with
          | Some matched_phone => format_phone matched_phone
          | None =>
              best ← best_candidate raw_text;
              match best with
              | Some phone_str => validate_phone_rec depth' (PStr phone_str) raw_text
              | None => Ok (py "N/A")
              end
          end
      | _ => Raise TypeError
      end
  end.

(** The interpreter's default recursion limit. *)
Definition recursion_limit : nat := 1000.

Definition validate_phone (phone : pyval) (raw_text : str) : result str :=
  validate_phone_rec recursion_limit phone raw_text.

Definition validate_name (name : pyval) (raw_text : str) : result str :=
  if is_str name "N/A" then
    let candidates := re_findall NAME_PATTERN raw_text in
    if nonempty candidates then index candidates 0 else Ok (py "N/A")
  else
    match name with
    | PStr name => Ok (Str.strip (Str.title name))
    | _ => Raise AttributeError
    end.

Definition validate_company (company : pyval) (raw_text : str) : result str :=
  if is_str company "N/A" then
    match re_search EMAIL_REGEX raw_text with
    | Some email =>
        domain ← index (Str.split "@"%char email) 1;
        Ok (Str.title (Str.replace "."%char " "%char domain))
    | None =>
        let candidates := re_findall COMPANY_PATTERN raw_text in
        if nonempty candidates then index candidates 0 else Ok (py "N/A")
    end
  else
    match company with
    | PStr company => Ok (Str.title (re_sub SPACES (fun _ => py " ") company))
    | _ => Raise TypeError
    end.

Definition validate_description (desc : pyval) (raw_text : str) : result str :=
  if is_str desc "N/A" then
    let candidates := re_findall DESCRIPTION_PATTERN raw_text in
    if 2 <=? length candidates then index candidates 1 else Ok (py "N/A")
  else
    match desc with
    | PStr desc => Ok (Str.strip (Str.title desc))
    | _ => Raise AttributeError
    end.

Definition validate_email (email : pyval) (raw_text : str) : result str :=
  match email with
  | PStr email =>
      match re_match EMAIL_REGEX email with
      | Some _ => Ok (Str.strip (Str.lower email))
      | None =>
          match re_search EMAIL_REGEX raw_text with
          | Some m => Ok (Str.lower m)
          | None => Ok (py "N/A")
          end
      end
  | _ => Raise TypeError
  end.

(** ** llm_manager.py: [extract_with_llm] *)

(** [d.get(key, 'N/A')] *)
Definition get (d : gmap str pyval) (key : string) : pyval :=
  default (PStr (py "N/A")) (d !! py key).

(** What one call of the completion endpoint does: it raises, or its first
    choice holds a text. *)
Inductive llm_reply : Type :=
| Llm_raises (e : exn)
| Llm_content (content : str).

(** The record of the early return. *)
Definition unknown_record : gmap str pyval :=
  <[py "email" := PStr (py "N/A")]>
  (<[py "phone" := PStr (py "N/A")]>
  (<[py "description" := PStr (py "N/A")]>
  (<[py "company" := PStr (py "N/A")]>
  (<[py "name" := PStr (py "N/A")]> ∅)))).

(** [raw_text or text] *)
Definition or_text (raw_text : option str) (text : str) : str :=
  match raw_text with
  | Some (c :: r) => c :: r
  | Some [] | None => text
  end.

(** The loop [for key in data: data[key] = clean_markdown(data.get(key, 'N/A'))].
    The keys are visited in the order of the map, not in insertion order:
    the order only decides which of several exceptions is the one raised,
    and the caller treats them alike. *)
Definition clean_fields (data : gmap str pyval) : result (gmap str pyval) :=
  map_fold (fun key v acc =>
              d ← acc;
              v' ← clean_markdown v;
              Ok (<[key := v']> d))
           (Ok data) data.

(** The five assignments [data[f] = validate_f(data.get(f, 'N/A'), raw)]. *)
Definition validate_fields (data : gmap str pyval) (raw : str)
    : result (gmap str pyval) :=
  name ← validate_name (get data "name") raw;
  let data := <[py "name" := PStr name]> data in
  company ← validate_company (get data "company") raw;
  let data := <[py "company" := PStr company]> data in
  description ← validate_description (get data "description") raw;
  let data := <[py "description" := PStr description]> data in
  phone ← validate_phone (get data "phone") raw;
  let data := <[py "phone" := PStr phone]> data in
  email ← validate_email (get data "email") raw;
  Ok (<[py "email" := PStr email]> data).

(** The regex fallback: the record of the last line. *)
Definition regex_fallback (raw : str) : result (gmap str pyval) :=
  name ← validate_name (PStr (py "N/A")) raw;
  company ← validate_company (PStr (py "N/A")) raw;
  description ← validate_description (PStr (py "N/A")) raw;
  phone ← validate_phone (PStr (py "N/A")) raw;
  email ← validate_email (PStr (py "N/A")) raw;
  Ok (<[py "email" := PStr email]>
     (<[py "phone" := PStr phone]>
     (<[py "description" := PStr description]>
     (<[py "company" := PStr company]>
     (<[py "name" := PStr name]> ∅))))).

Section Extractor.

(** [json.loads]: the parsed value, or the exception it raises. *)
Variable json_loads : str -> result pyval.

(** The completion endpoint, as a function of the text the prompt embeds
    (the prompt is [EXTRACTION_PROMPT] with the text substituted, the other
    parameters of the request are constants) and of the attempt number. *)
Variable llm : str -> nat -> llm_reply.

(** The body of the [try] of one attempt: [Ok (Some data)] is the [return
    data], [Ok None] falls through to the sleep, [Raise e] is caught by one
    of the two handlers, which log and fall through as well. *)
Definition attempt_body (text : str) (raw : str) (attempt : nat)
    : result (option (gmap str pyval)) :=
  match llm text attempt with
  | Llm_raises e => Raise e
  | Llm_content content =>
      let response := Str.strip content in
      if Str.startswith (py "{") response && Str.endswith (py "}") response then
        parsed ← json_loads response;
        match parsed with
        | PDict data =>
            data ← clean_fields data;
            data ← validate_fields data raw;
            Ok (Some data)
        | PList _ | PStr _ => Raise AttributeError
        | PNone | PBool _ | PInt _ | PFloat _ => Raise TypeError
        end
      else Ok None
  end.

(** [for attempt in range(...)], from attempt number [attempt] on, [n]
    attempts left. *)
Fixpoint attempts (text raw : str) (n attempt : nat) : option (gmap str pyval) :=
  match n with
  | 0 => None
  | S n' =>
      match attempt_body text raw attempt with
      | Ok (Some data) => Some data
      | Ok None | Raise _ => attempts text raw n' (S attempt)
      end
  end.

(** [client] is the constant of the module: [true] when GROQ_API_KEY is set. *)
Definition extract_with_llm (client : bool) (text : str) (raw_text : option str)
    (max_retries : Z) : result (gmap str pyval) :=
  if negb (nonempty text) || negb client then Ok unknown_record
  else
    match attempts text (or_text raw_text text) (Z.to_nat max_retries) 0 with
    | Some data => Ok data
    | None => regex_fallback (or_text raw_text text)
    end.

End Extractor.

(** ** [run_ocr_with_timeout], in llm_manager.py and in bot.py *)

Module Ocr.

(** One detection of the primary engine: the text (the box is left out)
    and the confidence. *)
Record detection : Type := { det_text : str; det_conf : Q }.

(** What the worker thread does with the time budget: it completes within
    it, returning or raising, or it is still running when the budget
    elapses, and then it ends later or never. *)
Inductive worker (A : Type) : Type :=
| Completes (r : result A)
| Overruns (ends : bool).

Arguments Completes {A} r.
Arguments Overruns {A} ends.

(** What the caller sees. *)
Inductive outcome (A : Type) : Type :=
| Returns (a : A)
| Raises (e : exn)
| Blocks.

Arguments Returns {A} a.
Arguments Raises {A} e.
Arguments Blocks {A}.

(** [' '.join(l)] *)
Fixpoint join (l : list str) : str :=
  match l with
  | [] => []
  | [x] => x
  | x :: l' => x ++ " "%char :: join l'
  end.

(** The function submitted to the executor, given what [readtext] does. *)
Definition ocr_easy_llm (readtext : result (list detection)) : result str :=
  dets ← readtext; Ok (join (map det_text dets)).

Definition ocr_easy_bot (readtext : result (list detection)) : result str :=
  dets ← readtext;
  Ok (join (map det_text
              (List.filter (fun d => match (1 # 2) ?= det_conf d with Lt => true | _ => false end)%Q
                           dets))).

(** [tesseract_fallback], given what [image_to_string] does. *)
Definition tesseract_fallback (tesseract : result str) : str :=
  match tesseract with
  | Ok text => Str.strip text
  | Raise _ => []
  end.

Definition is_timeout (e : exn) : bool :=
  match e with TimeoutError => true | _ => false end.

(** The [with] block.  [future.result(timeout)] returns the worker's value
    or re-raises its exception; the handler takes TimeoutError only, the
    one [result] raises when the budget elapses (or the worker's own, if it
    raises that class).  Leaving the block shuts the executor down and
    waits for the worker. *)
Definition with_executor (ocr_easy : result (list detection) -> result str)
    (primary : worker (list detection)) (tesseract : result str) : outcome str :=
  match primary with
  | Completes readtext =>
      match ocr_easy readtext with
      | Ok text => Returns text
      | Raise e =>
          if is_timeout e then Returns (tesseract_fallback tesseract)
          else Raises e
      end
  | Overruns ends =>
      let text := tesseract_fallback tesseract in
      if ends then Returns text else Blocks
  end.

(** llm_manager.py *)
Definition run_ocr_with_timeout := with_executor ocr_easy_llm.

(** bot.py *)
Definition bot_run_ocr_with_timeout := with_executor ocr_easy_bot.

End Ocr.

(** ** Integers as text: [str(n)], [int(s)] and [s.isdigit()] *)

Module PyInt.

(** [str(n)] *)
Definition str_of_int (n : Z) : str :=
  list_ascii_of_string (DecimalString.NilZero.string_of_int (Z.to_int n)).

(** The digits of a literal: digits with single underscores between them. *)
Fixpoint grouped (after_digit : bool) (s : str) : bool :=
  match s with
  | [] => after_digit
  | c :: s' =>
      if Char.is_digit c then grouped true s'
      else if Ascii.eqb c "_"%char then after_digit && grouped false s'
      else false
  end.

Definition value_of (digits : str) : option Z :=
  match DecimalString.NilEmpty.uint_of_string
          (string_of_list_ascii
             (List.filter (fun c => negb (Ascii.eqb c "_"%char)) digits)) with
  | Some u => Some (Z.of_uint u)
  | None => None
  end.

(** The white space [int] skips: tab to carriage return, and the space. *)
Definition is_blank (c : ascii) : bool :=
  ((9 <=? Char.code c) && (Char.code c <=? 13)) || (Char.code c =? 32).

Fixpoint skip_blank (s : str) : str :=
  match s with
  | c :: s' => if is_blank c then skip_blank s' else s
  | [] => []
  end.

(** [int(s)]: white space around, a sign, decimal digits; ValueError
    otherwise.  (The limit of 4300 digits that Python 3.11 puts on [int] is
    above the 4096 characters of a Telegram message, and is left out.) *)
Definition py_int (s : str) : result Z :=
  let t := rev (skip_blank (rev (skip_blank s))) in
  let '(negative, body) :=
    match t with
    | c :: b =>
        if Ascii.eqb c "-"%char then (true, b)
        else if Ascii.eqb c "+"%char then (false, b)
        else (false, t)
    | [] => (false, t)
    end in
  if grouped false body then
    match value_of body with
    | Some v => Ok (if negative then (- v)%Z else v)
    | None => Raise ValueError
    end
  else Raise ValueError.

(** The characters below 256 that [isdigit] takes besides the decimal
    digits, and that [int] does not read: the superscripts two, three and
    one. *)
Definition is_superscript (c : ascii) : bool :=
  (Char.code c =? 178) || (Char.code c =? 179) || (Char.code c =? 185).

(** [s.isdigit()] *)
Definition isdigit (s : str) : bool :=
  nonempty s && forallb (fun c => Char.is_digit c || is_superscript c) s.

End PyInt.

(** * json_manager.py: the user store *)

Module Store.

Import PyInt.

(** The file users.json, by what reading it gives: it is missing, or its
    text is blank, or [json.loads] raises on it, or it denotes a value.
    Writing a value with [json.dump] and reading it back gives the value;
    opening, reading and writing are taken to succeed. *)
Inductive file : Type :=
| Missing
| Blank
| Garbled (e : exn)
| Json (v : pyval).

(** [a or b] *)
Definition py_or (a b : pyval) : pyval := if truthy a then a else b.

(** [d.get(key)] on a dict; [None] is [PNone]. *)
Definition dict_get (d : gmap str pyval) (key : string) : pyval :=
  default PNone (d !! py key).

Definition init_json (f : file) : file :=
  match f with
  | Missing => Json (PDict ∅)
  | _ => f
  end.

(** [get_user]: any exception ends in [None]. *)
Definition get_user (telegram_id : Z) (f : file) : pyval :=
  match f with
  | Missing | Blank | Garbled _ => PNone
  | Json (PDict users) => default PNone (users !! str_of_int telegram_id)
  | Json _ => PNone                      (* [users.get] raises AttributeError *)
  end.

(** The read the three writers begin with: [users = {}] unless the file
    has text. *)
Definition read_users (f : file) : result pyval :=
  match f with
  | Missing | Blank => Ok (PDict ∅)
  | Garbled e => Raise e
  | Json v => Ok v
  end.

(** The writers return their boolean and the file they leave. *)
Definition save_user (telegram_id : Z)
    (email access_token refresh_token sheet_id display_name : pyval)
    (now_created now_updated : str) (f : file) : bool * file :=
  match read_users f with
  | Ok (PDict users) =>
      let key := str_of_int telegram_id in
      match default (PDict ∅) (users !! key) with
      | PDict existing_user =>
          let record : gmap str pyval :=
            <[py "updated_at" := PStr now_updated]>
            (<[py "created_at" :=
                 py_or (dict_get existing_user "created_at") (PStr now_created)]>
            (<[py "display_name" :=
                 py_or display_name
                   (py_or (dict_get existing_user "display_name")
                          (PStr (py "User_" ++ str_of_int telegram_id)))]>
            (<[py "refresh_token" := refresh_token]>
            (<[py "access_token" := access_token]>
            (<[py "sheet_id" := sheet_id]>
            (<[py "email" := email]>
            (<[py "telegram_id" := PInt telegram_id]> ∅))))))) in
          (true, Json (PDict (<[key := PDict record]> users)))
      | _ => (false, f)                  (* [existing_user.get] raises *)
      end
  | Ok _ => (false, f)                   (* [users.get] raises *)
  | Raise _ => (false, f)
  end.

Definition update_user_tokens (telegram_id : Z) (access_token refresh_token : pyval)
    (now : str) (f : file) : bool * file :=
  match read_users f with
  | Ok (PDict users) =>
      let key := str_of_int telegram_id in
      match users !! key with
      | None => (false, f)               (* not in users *)
      | Some (PDict user) =>
          let user := <[py "access_token" := access_token]> user in
          let user := if truthy refresh_token
                      then <[py "refresh_token" := refresh_token]> user
                      else user in
          let user := <[py "updated_at" := PStr now]> user in
          (true, Json (PDict (<[key := PDict user]> users)))
      | Some _ => (false, f)             (* the item assignment raises *)
      end
  | Ok _ => (false, f)                   (* not in users, or [in] raises *)
  | Raise _ => (false, f)
  end.

Definition update_user_field (telegram_id : Z) (field : str) (value : pyval)
    (now : str) (f : file) : bool * file :=
  match read_users f with
  | Ok (PDict users) =>
      let key := str_of_int telegram_id in
      match users !! key with
      | None => (false, f)
      | Some (PDict user) =>
          let user := <[field := value]> user in
          let user := <[py "updated_at" := PStr now]> user in
          (true, Json (PDict (<[key := PDict user]> users)))
      | Some _ => (false, f)
      end
  | Ok _ => (false, f)
  | Raise _ => (false, f)
  end.

(** bot.py, [signout]: the three updates of the store, when the user is
    there ([get_user] is truthy); the booleans are not looked at. *)
Definition signout_store (telegram_id : Z) (now1 now2 now3 : str) (f : file) : file :=
  if truthy (get_user telegram_id f) then
    let f := snd (update_user_field telegram_id (py "access_token") PNone now1 f) in
    let f := snd (update_user_field telegram_id (py "refresh_token") PNone now2 f) in
    snd (update_user_field telegram_id (py "is_authenticated") (PBool false) now3 f)
  else f.

End Store.

(** * oauth_manager.py and gsheet_manager.py: the calls to Google

    A request is kept by its parts: the endpoint with the values put into
    the URL, the bearer token, and the JSON body.  What the network answers
    is the environment: [net] gives, for the requests sent so far and the
    one being sent, an exception or a response.  [clock] gives the text of
    [datetime.now().isoformat()] at each reading. *)

Module Sheets.

Import PyInt Store.

Inductive endpoint : Type :=
| Token_url                                   (* https://oauth2.googleapis.com/token *)
| Drive_files                                 (* DRIVE_API *)
| Spreadsheet (sheet_id : pyval)              (* BASE_URL/{sheet_id} *)
| Append_A1_F1 (sheet_id : pyval)             (* .../values/Sheet1!A1:F1:append?valueInputOption=RAW *)
| Values_A_F (sheet_id : pyval)               (* .../values/Sheet1!A:F, majorDimension=ROWS *)
| Cell (sheet_id : pyval) (col : str) (row : Z)
                                              (* .../values/Sheet1!{col}{row}:{col}{row} *)
| Batch_update (sheet_id : pyval).            (* BASE_URL/{sheet_id}:batchUpdate *)

Inductive verb : Type := GET | POST | PUT.

Inductive body : Type :=
| No_body
| Refresh_form (refresh_token : pyval)        (* the form with grant_type=refresh_token *)
| New_sheet                                   (* {"name": "All We Met Contacts", "mimeType": ...} *)
| Values (rows : list pyval)                  (* {"values": rows} *)
| Delete_rows (ranges : list (Z * Z)).        (* {"requests": [{"deleteDimension": {"range":
                                                 {"sheetId": 0, "dimension": "ROWS",
                                                  "startIndex": s, "endIndex": e}}}, ...]} *)

Record request : Type := {
  req_verb : verb;
  req_url : endpoint;
  req_bearer : option pyval;                  (* the token after "Bearer ", if the header is sent *)
  req_body : body
}.

Record response : Type := {
  status_code : Z;
  json : result pyval                         (* [response.json()] *)
}.

Record world : Type := {
  store : file;                               (* users.json *)
  sent : list request;                        (* the requests sent so far, the last first *)
  ticks : nat;                                (* the readings of the clock so far *)
  user_data : gmap str pyval                  (* [context.user_data] of the chat *)
}.

(** A computation: its result or exception, and the world it leaves. *)
Definition M (A : Type) : Type := world -> result A * world.

Definition ret {A : Type} (a : A) : M A := fun w => (Ok a, w).

Definition raise {A : Type} (e : exn) : M A := fun w => (Raise e, w).

Definition bindM {A B : Type} (m : M A) (k : A -> M B) : M B :=
  fun w => match m w with
           | (Ok a, w') => k a w'
           | (Raise e, w') => (Raise e, w')
           end.

(** [try: m except Exception: handler] *)
Definition try_except {A : Type} (m : M A) (handler : exn -> M A) : M A :=
  fun w => match m w with
           | (Ok a, w') => (Ok a, w')
           | (Raise e, w') => handler e w'
           end.

(** A pure step that may raise. *)
Definition lift {A : Type} (r : result A) : M A := fun w => (r, w).

#[global] Instance M_bind : MBind M := fun A B k m => bindM m k.
#[global] Instance M_ret : MRet M := fun A a => ret a.

(** KeyError, which the list of exceptions above does not name. *)
Definition KeyError : exn := OtherError 3.

(** [v[key]] on the value of a JSON object. *)
Definition subscript (v : pyval) (key : string) : result pyval :=
  match v with
  | PDict d => match d !! py key with
               | Some x => Ok x
               | None => Raise KeyError
               end
  | _ => Raise TypeError
  end.

(** [v.get(key, fallback)] *)
Definition get_or (v : pyval) (key : string) (fallback : pyval) : result pyval :=
  match v with
  | PDict d => Ok (default fallback (d !! py key))
  | _ => Raise AttributeError
  end.

Section Net.

Variable net : list request -> request -> exn + response.
Variable clock : nat -> str.

Definition send (r : request) : M response :=
  fun w =>
    let w' := {| store := store w; sent := r :: sent w; ticks := ticks w;
                 user_data := user_data w |} in
    match net (sent w) r with
    | inl e => (Raise e, w')
    | inr resp => (Ok resp, w')
    end.

(** One reading of the clock. *)
Definition now : M str :=
  fun w => (Ok (clock (ticks w)),
            {| store := store w; sent := sent w; ticks := S (ticks w);
               user_data := user_data w |}).

(** The functions of json_manager.py, on the store of the world. *)
Definition do_get_user (telegram_id : Z) : M pyval :=
  fun w => (Ok (get_user telegram_id (store w)), w).

(** A writer reads the clock once when it gets as far as writing. *)
Definition on_store (write : str -> file -> bool * file) : M bool :=
  fun w => let '(b, f) := write (clock (ticks w)) (store w) in
           (Ok b, {| store := f; sent := sent w;
                     ticks := if b then S (ticks w) else ticks w;
                     user_data := user_data w |}).

Definition do_update_user_tokens (telegram_id : Z) (access_token refresh_token : pyval)
    : M bool :=
  on_store (update_user_tokens telegram_id access_token refresh_token).

Definition do_update_user_field (telegram_id : Z) (field : string) (value : pyval)
    : M bool :=
  on_store (update_user_field telegram_id (py field) value).

(** oauth_manager.py *)
Definition refresh_access_token (refresh_token : pyval) : M pyval :=
  resp ← send {| req_verb := POST; req_url := Token_url; req_bearer := None;
                 req_body := Refresh_form refresh_token |};
  if (status_code resp =? 200)%Z then lift (json resp)
  else
    (* the message is built from [response.json().get('error_description')] *)
    data ← lift (json resp);
    _ ← lift (get_or data "error_description" PNone);
    raise (OtherError 0).

Definition refresh_and_get_access (refresh_token : pyval) : M pyval :=
  refreshed ← refresh_access_token refresh_token;
  lift (subscript refreshed "access_token").

(** [telegram_id] is [None] or an integer: [if telegram_id] is false for
    [None] and for 0. *)
Definition given (telegram_id : option Z) : option Z :=
  match telegram_id with
  | Some 0%Z | None => None
  | Some id => Some id
  end.

(** The three lines [new_access = ...; if telegram_id: update_user_tokens(...);
    headers["Authorization"] = ...]: the new token. *)
Definition refreshed_token (refresh_token : pyval) (telegram_id : option Z) : M pyval :=
  new_access ← refresh_and_get_access refresh_token;
  _ ← match given telegram_id with
      | Some id => do_update_user_tokens id new_access refresh_token
      | None => ret false
      end;
  ret new_access.

Definition header_row : pyval :=
  PList (map (fun s => PStr (py s))
             ["Timestamp"; "Name"; "Company"; "Description"; "Phone"; "Email"])%string.

Definition create_contact_sheet (access_token refresh_token : pyval)
    (telegram_id : option Z) : M pyval :=
  try_except
    (let post_meta token :=
       send {| req_verb := POST; req_url := Drive_files; req_bearer := Some token;
               req_body := New_sheet |} in
     resp ← post_meta access_token;
     sheet_id ← (if (status_code resp =? 200)%Z then
                   data ← lift (json resp); lift (subscript data "id")
                 else
                   data ← lift (json resp);
                   err ← lift (get_or data "error" (PDict ∅));
                   _ ← lift (get_or err "message" PNone);
                   ret PNone);
     '(sheet_id, token, finished) ←
       (if (status_code resp =? 401)%Z && truthy refresh_token then
          new_access ← refreshed_token refresh_token telegram_id;
          retry ← post_meta new_access;
          if (status_code retry =? 200)%Z then
            data ← lift (json retry);
            id ← lift (subscript data "id");
            ret (id, new_access, false)
          else ret (sheet_id, new_access, true)          (* return None *)
        else ret (sheet_id, access_token, false));
     if (finished : bool) then ret PNone
     else if negb (truthy sheet_id) then raise (OtherError 1)   (* "No ID returned" *)
     else
       let post_header tok :=
         send {| req_verb := POST; req_url := Append_A1_F1 sheet_id;
                 req_bearer := Some tok; req_body := Values [header_row] |} in
       header_response ← post_header token;
       _ ← (if negb (status_code header_response =? 200)%Z
                 && (status_code header_response =? 401)%Z && truthy refresh_token
            then new_access ← refreshed_token refresh_token telegram_id;
                 _ ← post_header new_access; ret tt
            else ret tt);
       _ ← match given telegram_id with
           | Some id =>
               user ← do_get_user id;
               if truthy user then do_update_user_field id "sheet_id" sheet_id
               else ret false
           | None => ret false
           end;
       ret sheet_id)
    (fun _ => ret PNone).

Definition validate_and_get_sheet_id (sheet_id access_token refresh_token : pyval)
    (telegram_id : option Z) : M pyval :=
  if negb (truthy sheet_id) then
    create_contact_sheet access_token refresh_token telegram_id
  else
    valid ← try_except
              (resp ← send {| req_verb := GET; req_url := Spreadsheet sheet_id;
                              req_bearer := Some access_token; req_body := No_body |};
               ret (status_code resp =? 200)%Z)
              (fun _ => ret false);
    if (valid : bool) then ret sheet_id
    else
      new_id ← create_contact_sheet access_token refresh_token telegram_id;
      _ ← (if truthy new_id then
             match given telegram_id with
             | Some id => do_update_user_field id "sheet_id" new_id
             | None => ret false
             end
           else ret false);
      ret (py_or new_id sheet_id).

(** The request, and on 401 with a refresh token the second request with
    the new token: the pattern of [append_row], [update_row] and the batch
    of [delete_row]. *)
Definition send_with_retry (r : pyval -> request) (access_token refresh_token : pyval)
    (telegram_id : option Z) (otherwise : M bool) : M bool :=
  resp ← send (r access_token);
  if (status_code resp =? 200)%Z then ret true
  else if (status_code resp =? 401)%Z && truthy refresh_token then
    new_access ← refreshed_token refresh_token telegram_id;
    resp ← send (r new_access);
    ret (status_code resp =? 200)%Z
  else otherwise.

Definition append_row (sheet_id access_token row refresh_token : pyval)
    (telegram_id : option Z) : M bool :=
  if negb (truthy sheet_id && truthy access_token && truthy row) then raise ValueError
  else
    sheet_id ← validate_and_get_sheet_id sheet_id access_token refresh_token telegram_id;
    if negb (truthy sheet_id) then raise (OtherError 2)     (* "Sheet validation failed" *)
    else
      try_except
        (send_with_retry
           (fun token => {| req_verb := POST; req_url := Append_A1_F1 sheet_id;
                            req_bearer := Some token; req_body := Values [row] |})
           access_token refresh_token telegram_id (ret false))
        (fun _ => ret false).

Definition col_map (field : str) : option str :=
  if Str.eqb field (py "name") then Some (py "B")
  else if Str.eqb field (py "company") then Some (py "C")
  else if Str.eqb field (py "description") then Some (py "D")
  else if Str.eqb field (py "phone") then Some (py "E")
  else if Str.eqb field (py "email") then Some (py "F")
  else None.

Definition update_row (sheet_id access_token : pyval) (row_index : Z) (field : str)
    (value refresh_token : pyval) (telegram_id : option Z) : M bool :=
  sheet_id ← validate_and_get_sheet_id sheet_id access_token refresh_token telegram_id;
  if negb (truthy sheet_id) then ret false
  else
    match col_map field with
    | None => ret false
    | Some col =>
        try_except
          (send_with_retry
             (fun token => {| req_verb := PUT;
                              req_url := Cell sheet_id col (row_index + 2);
                              req_bearer := Some token;
                              req_body := Values [PList [value]] |})
             access_token refresh_token telegram_id (ret false))
          (fun _ => ret false)
    end.

(** [len(v)], [v[i]] and [v[start:]] on a JSON value.  (A slice of a dict
    raises TypeError, from Python 3.12 on KeyError.) *)
Definition py_len (v : pyval) : result Z :=
  match v with
  | PStr s => Ok (Z.of_nat (length s))
  | PList l => Ok (Z.of_nat (length l))
  | PDict d => Ok (Z.of_nat (size d))
  | _ => Raise TypeError
  end.

(** The position an index or a slice bound stands for. *)
Definition position (len : nat) (i : Z) : Z :=
  if (i <? 0)%Z then (Z.of_nat len + i)%Z else i.

Definition item {A : Type} (l : list A) (i : Z) : result A :=
  let p := position (length l) i in
  if (p <? 0)%Z then Raise IndexError else index l (Z.to_nat p).

Definition py_item (v : pyval) (i : Z) : result pyval :=
  match v with
  | PList l => item l i
  | PStr s => c ← item s i; Ok (PStr [c])
  | PDict _ => Raise KeyError
  | _ => Raise TypeError
  end.

Definition slice_from {A : Type} (l : list A) (start : Z) : list A :=
  drop (Z.to_nat (Z.max 0 (position (length l) start))) l.

Definition py_slice_from (v : pyval) (start : Z) : result pyval :=
  match v with
  | PList l => Ok (PList (slice_from l start))
  | PStr s => Ok (PStr (slice_from s start))
  | _ => Raise TypeError
  end.

(** The lines of [get_rows] on a response with status 200. *)
Definition rows_of_response (resp : response) (num_rows : Z) : result pyval :=
  data ← json resp;
  values ← get_or data "values" (PList []);
  values ← (if truthy values then
              n ← py_len values;
              if (0 <? n)%Z then
                first ← py_item values 0;
                cell ← py_item first 0;
                if is_str cell "Timestamp" then py_slice_from values 1 else Ok values
              else Ok values
            else Ok values);
  n ← py_len values;
  if (num_rows <? n)%Z then py_slice_from values (- num_rows) else Ok values.

Definition get_rows (sheet_id access_token : pyval) (num_rows : Z)
    (refresh_token : pyval) (telegram_id : option Z) : M pyval :=
  sheet_id ← validate_and_get_sheet_id sheet_id access_token refresh_token telegram_id;
  if negb (truthy sheet_id) then ret (PList [])
  else
    try_except
      (resp ← send {| req_verb := GET; req_url := Values_A_F sheet_id;
                      req_bearer := Some access_token; req_body := No_body |};
       if (status_code resp =? 200)%Z then lift (rows_of_response resp num_rows)
       else ret (PList []))
      (fun _ => ret (PList [])).

(** [sorted(set(l), reverse=True)] on integers. *)
Fixpoint insert_desc (x : Z) (l : list Z) : list Z :=
  match l with
  | [] => [x]
  | y :: l' =>
      if (y <? x)%Z then x :: l
      else if (y =? x)%Z then l
      else y :: insert_desc x l'
  end.

Definition sorted_desc (l : list Z) : list Z := foldr insert_desc [] l.

(** The third argument of [delete_row]: a list of integers, or, in the call
    [delete_row] makes itself, one integer. *)
Inductive indices : Type :=
| Index_list (l : list Z)
| Index_int (i : Z).

Definition no_indices (row_indices : indices) : bool :=
  match row_indices with
  | Index_list l => negb (nonempty l)
  | Index_int i => (i =? 0)%Z
  end.

Definition delete_ranges (row_indices : list Z) : list (Z * Z) :=
  map (fun idx => (idx + 1, idx + 2)%Z) row_indices.

(** [delete_row] with [depth] stack frames left. *)
Fixpoint delete_row_rec (depth : nat) (sheet_id access_token : pyval)
    (row_indices : indices) (refresh_token : pyval) (telegram_id : option Z) : M Z :=
  match depth with
  | 0 => raise RecursionError
  | S depth' =>
      if negb (truthy sheet_id) || no_indices row_indices then ret 0%Z
      else
        sheet_id ← validate_and_get_sheet_id sheet_id access_token refresh_token
                     telegram_id;
        if negb (truthy sheet_id) then ret 0%Z
        else
          match row_indices with
          | Index_int _ => raise TypeError          (* [set] of an integer *)
          | Index_list l =>
              let row_indices := sorted_desc l in
              let batch token :=
                {| req_verb := POST; req_url := Batch_update sheet_id;
                   req_bearer := Some token;
                   req_body := Delete_rows (delete_ranges row_indices) |} in
              deleted ← try_except
                          (send_with_retry batch access_token refresh_token
                             telegram_id (ret false))
                          (fun _ => ret false);
              if (deleted : bool) then ret (Z.of_nat (length row_indices))
              else
                (* the fallback, one by one *)
                foldl (fun (acc : M Z) idx =>
                         success ← acc;
                         one ← delete_row_rec depth' sheet_id access_token
                                 (Index_int (idx + 1)) refresh_token telegram_id;
                         ret (if (one =? 0)%Z then success else (success + 1)%Z))
                      (ret 0%Z) row_indices
          end
  end.

Definition delete_row : pyval -> pyval -> indices -> pyval -> option Z -> M Z :=
  delete_row_rec recursion_limit.

End Net.

End Sheets.

(** * bot.py: choosing a contact to edit or delete

    A handler is a computation on the world; what it sends to the chat is
    its result, by the message chosen and the values put into it.  The
    calls to Telegram are taken to succeed. *)

Module Bot.

Import PyInt Store Sheets.

(** [s.count(c)] for one character. *)
Definition count (c : ascii) (s : str) : nat :=
  length (List.filter (Ascii.eqb c) s).

(** [v[::-1]] *)
Definition py_reversed (v : pyval) : result pyval :=
  match v with
  | PList l => Ok (PList (rev l))
  | PStr s => Ok (PStr (rev s))
  | _ => Raise TypeError
  end.

(** [row[i] if len(row) > i else fallback] *)
Definition cell_or (row : pyval) (i : Z) (fallback : string) : result pyval :=
  n ← py_len row;
  if (i <? n)%Z then py_item row i else Ok (PStr (py fallback)).

(** [sorted(l, reverse=True)] on integers. *)
Fixpoint insert_reverse (x : Z) (l : list Z) : list Z :=
  match l with
  | [] => [x]
  | y :: l' => if (y <? x)%Z then x :: l else y :: insert_reverse x l'
  end.

Definition sorted_reverse (l : list Z) : list Z := foldr insert_reverse [] l.

(** [set(range(start, stop))] *)
Definition range_set (start stop : Z) : gset Z :=
  list_to_set (seqZ start (stop - start)).

(** One turn of the loop of [handle_delete_rows_input] over the parts of
    the text: [valid] and [indices] after it.  ([raw_numbers], which the
    handler computes before the loop, is not used.) *)
Definition parse_part (total : Z) (state : bool * gset Z) (part : str)
    : result (bool * gset Z) :=
  let '(valid, indices) := state in
  let part := Str.strip part in
  if negb (nonempty part) then Ok state
  else if (0 <? count "-" part) && (count "-" part =? 1) then
    match (let ends := Str.split "-" part in
           first ← index ends 0; start ← py_int first;
           second ← index ends 1; stop ← py_int second;
           Ok (start, stop)) with
    | Ok (start, stop) =>
        if ((1 <=? start) && (start <=? stop) && (stop <=? total))%Z
        then Ok (valid, indices ∪ range_set start (stop + 1))
        else Ok (false, indices)
    | Raise _ => Ok (false, indices)
    end
  else if isdigit part then
    num ← py_int part;
    if ((1 <=? num) && (num <=? total))%Z then Ok (valid, indices ∪ {[ num ]})
    else Ok (false, indices)
  else Ok (false, indices).

Definition parse_delete_input (text : str) (total : Z) : result (bool * gset Z) :=
  foldl (fun state part => state ← state; parse_part total state part)
        (Ok (true, ∅)) (Str.split "," text).

(** [displayed_to_actual[idx]], the dict being
    [{i + 1: len(rows) - i for i in range(len(rows))}]. *)
Definition displayed_to_actual (len_rows : Z) (idx : Z) : result Z :=
  if ((1 <=? idx) && (idx <=? len_rows))%Z then Ok (len_rows - (idx - 1))%Z
  else Raise KeyError.

Fixpoint map_result {A B : Type} (f : A -> result B) (l : list A) : result (list B) :=
  match l with
  | [] => Ok []
  | a :: l' => b ← f a; bs ← map_result f l'; Ok (b :: bs)
  end.

(** The branch [handle_callback] takes. *)
Inductive route : Type :=
| Drive_link | List_contacts | Sign_out | Start_edit | Start_delete
| Edit_field | Unknown_action.

Definition handle_callback_route (data : str) : route :=
  if Str.eqb data (py "drive_link") then Drive_link
  else if Str.eqb data (py "list_contacts") then List_contacts
  else if Str.eqb data (py "sign_out") then Sign_out
  else if Str.eqb data (py "start_edit") then Start_edit
  else if Str.eqb data (py "start_delete") then Start_delete
  else if Str.startswith (py "edit_") data && (length (Str.split "_" data) =? 3)
  then Edit_field
  else Unknown_action.

(** [field_map] of [handle_edit_field]: the column and the name shown. *)
Definition field_map (field : str) : option (Z * string) :=
  if Str.eqb field (py "name") then Some (1%Z, "Name"%string)
  else if Str.eqb field (py "company") then Some (2%Z, "Company"%string)
  else if Str.eqb field (py "description") then Some (3%Z, "Description"%string)
  else if Str.eqb field (py "phone") then Some (4%Z, "Phone"%string)
  else if Str.eqb field (py "email") then Some (5%Z, "Email"%string)
  else None.

Inductive row_reply : Type :=
| Send_a_valid_number                    (* "Please send a valid number from the list." *)
| Invalid_number (len_rows : Z)          (* "Invalid number. Must be between 1 and {len(rows)}." *)
| Choose_a_field (row_num : Z) (name company desc phone email : pyval)
    (callback_data : list str).          (* "Editing contact #{row_num}: ..." and the
                                            buttons, but Back to List, by their data *)

Inductive field_reply : Type :=
| Invalid_entry                          (* "Invalid entry—use /list to refresh." *)
| Invalid_field                          (* "Invalid field—use /list." *)
| Enter_new_value (display_field : string) (entry : Z) (current_value : pyval)
                                         (* "Edit {display_field} (Entry #{index+1}): ..." *)
| Error_starting_edit.                   (* "Error starting edit—use /list." *)

Inductive delete_reply : Type :=
| No_contacts                            (* "No contacts to delete." *)
| Invalid_input (total : Z)              (* "Invalid input. ... between 1 and {total}." *)
| Deleted (success_count : Z).           (* "Successfully deleted {success_count} contact(s)!" *)

(** [context.user_data[key] = v] and [context.user_data.pop(key, None)] *)
Definition set_data (key : string) (v : pyval) : M unit :=
  fun w => (Ok tt, {| store := store w; sent := sent w; ticks := ticks w;
                      user_data := <[py key := v]> (user_data w) |}).

Definition pop_data (key : string) : M unit :=
  fun w => (Ok tt, {| store := store w; sent := sent w; ticks := ticks w;
                      user_data := base.delete (py key) (user_data w) |}).

Section Handlers.

Variable net : list request -> request -> exn + response.
Variable clock : nat -> str.

(** [get_rows(user['sheet_id'], user['access_token'], num_rows,
    user.get('refresh_token'), user_id)] *)
Definition rows_of_user (user : pyval) (num_rows : Z) (user_id : Z) : M pyval :=
  sheet_id ← lift (subscript user "sheet_id");
  access_token ← lift (subscript user "access_token");
  refresh_token ← lift (get_or user "refresh_token" PNone);
  get_rows net clock sheet_id access_token num_rows refresh_token (Some user_id).

Definition handle_edit_row_input (text : str) (user_id : Z) : M row_reply :=
  let text := Str.strip text in
  if negb (isdigit text) then ret Send_a_valid_number
  else
    row_num ← lift (py_int text);
    user ← do_get_user user_id;
    rows ← rows_of_user user 50 user_id;
    len_rows ← lift (py_len rows);
    if negb (truthy rows) || (row_num <? 1)%Z || (len_rows <? row_num)%Z
    then ret (Invalid_number len_rows)
    else
      let displayed_index := (row_num - 1)%Z in
      let actual_row_index := (len_rows - 1 - displayed_index)%Z in
      _ ← set_data "editing_row" (PInt actual_row_index);
      _ ← set_data "editing" (PBool true);
      _ ← pop_data "mode";
      reversed ← lift (py_reversed rows);
      row ← lift (py_item reversed displayed_index);
      name ← lift (cell_or row 1 "N/A");
      company ← lift (cell_or row 2 "N/A");
      desc ← lift (cell_or row 3 "N/A");
      phone ← lift (cell_or row 4 "N/A");
      email ← lift (cell_or row 5 "N/A");
      ret (Choose_a_field row_num name company desc phone email
             (map (fun field => py field ++ str_of_int actual_row_index)
                  ["edit_name_"; "edit_company_"; "edit_desc_"; "edit_phone_";
                   "edit_email_"]%string)).

Definition handle_edit_field (data : str) (from_user : Z) : M field_reply :=
  try_except
    (let parts := Str.split "_" data in
     field ← lift (index parts 1);
     number ← lift (index parts 2);
     idx ← lift (py_int number);
     user ← do_get_user from_user;
     rows ← rows_of_user user 10 from_user;
     len_rows ← lift (py_len rows);
     if (len_rows <=? idx)%Z then ret Invalid_entry
     else
       row ← lift (py_item rows idx);
       match field_map field with
       | Some (col_idx, display_field) =>
           current_value ← lift (cell_or row col_idx "N/A");
           _ ← set_data "editing"
                 (PDict (<[py "field" := PStr field]> (<[py "index" := PInt idx]> ∅)));
           ret (Enter_new_value display_field (idx + 1) current_value)
       | None => ret Invalid_field
       end)
    (fun _ => ret Error_starting_edit).

Definition handle_delete_rows_input (text : str) (user_id : Z) : M delete_reply :=
  let text := Str.strip text in
  user ← do_get_user user_id;
  rows ← rows_of_user user 100 user_id;
  total ← lift (py_len rows);
  if negb (truthy rows) then
    _ ← pop_data "mode"; ret No_contacts
  else
    '(valid, indices) ← lift (parse_delete_input text total);
    if negb valid || (size indices =? 0) then ret (Invalid_input total)
    else
      len_rows ← lift (py_len rows);
      actual ← lift (map_result (displayed_to_actual len_rows) (elements indices));
      let actual_indices := sorted_reverse actual in
      sheet_id ← lift (subscript user "sheet_id");
      access_token ← lift (subscript user "access_token");
      refresh_token ← lift (get_or user "refresh_token" PNone);
      success_count ← delete_row net clock sheet_id access_token
                        (Index_list actual_indices) refresh_token (Some user_id);
      _ ← pop_data "mode";
      _ ← pop_data "editing";
      ret (Deleted success_count).

End Handlers.

End Bot.

(** * The notions the statements use *)

(** ** What it is for a pattern to match *)

Module ReSpec.

(** [matches r prev m rest]: [r] matches the text [m] at a position that
    [prev] precedes and [rest] follows. *)
Inductive matches : regex -> option ascii -> str -> str -> Prop :=
| M_lit c prev rest :
    matches (Lit c) prev [c] rest
| M_class (p : ascii -> bool) c prev rest :
    p c = true -> matches (Class p) prev [c] rest
| M_boundary prev rest :
    at_boundary prev rest = true -> matches WordBoundary prev [] rest
| M_seq r1 r2 prev m1 m2 rest :
    matches r1 prev m1 (m2 ++ rest) ->
    matches r2 (last_char prev m1) m2 rest ->
    matches (Seq r1 r2) prev (m1 ++ m2) rest
| M_alt_l r1 r2 prev m rest :
    matches r1 prev m rest -> matches (Alt r1 r2) prev m rest
| M_alt_r r1 r2 prev m rest :
    matches r2 prev m rest -> matches (Alt r1 r2) prev m rest
| M_stop g hi r prev rest :
    matches (Repeat g 0 hi r) prev [] rest
| M_more g lo hi r prev m1 m2 rest :
    hi_is_zero hi = false ->
    m1 <> [] ->
    matches r prev m1 (m2 ++ rest) ->
    matches (Repeat g (pred lo) (pred_hi hi) r) (last_char prev m1) m2 rest ->
    matches (Repeat g lo hi r) prev (m1 ++ m2) rest.

Definition sound (body : cont -> cont) (r : regex) : Prop :=
  forall k prev s a,
    body k prev s = Some a ->
    exists m t, s = m ++ t /\ matches r prev m t /\ k (last_char prev m) t = Some a.

End ReSpec.

(** ** [PHONE_REGEX] read as a scanner *)

Module Scanner.

(** The text after the longest run of characters of a class, and the
    character before that text. *)
Fixpoint run_rest (p : ascii -> bool) (s : str) : str :=
  match s with
  | c :: s' => if p c then run_rest p s' else s
  | [] => []
  end.

Fixpoint run_last (p : ascii -> bool) (prev : option ascii) (s : str) : option ascii :=
  match s with
  | c :: s' => if p c then run_last p (Some c) s' else prev
  | [] => prev
  end.

Definition starts_with_class (p : ascii -> bool) (s : str) : bool :=
  match s with c :: _ => p c | [] => false end.

(** The text left by [\d*(?:[\s.-]\d+)*], read as a scanner. *)
Fixpoint phone_tail (s : str) : str :=
  match s with
  | c :: s' =>
      if Char.is_digit c then phone_tail s'
      else if sep_class c then
        match s' with
        | d :: s'' => if Char.is_digit d then phone_tail s'' else s
        | [] => s
        end
      else s
  | [] => []
  end.

(** The text left by [(?:[\s.-]\d+)*]. *)
Definition group_tail (s : str) : str :=
  match s with
  | c :: d :: s'' => if sep_class c && Char.is_digit d then phone_tail s'' else s
  | _ => s
  end.

Definition GROUP : regex := Cat [Class sep_class; Plus (Class Char.is_digit)].

Definition k_end : cont := fun _ t => Some t.

(** [\d+(?:[\s.-]\d+)*] at the end of the pattern. *)
Definition TAIL : regex := Seq (Plus (Class Char.is_digit)) (Star GROUP).

(** [PHONE_REGEX] tried at one position. *)
Definition phone_here (prev : option ascii) (s : str) : option str :=
  match s with
  | c :: s' =>
      if Ascii.eqb c "+"%char then
        match s' with
        | d :: s'' => if Char.is_digit d then Some (phone_tail s'') else None
        | [] => None
        end
      else if Char.is_digit c && negb (word_before prev) then Some (phone_tail s')
      else None
  | [] => None
  end.

(** The text [\d*(?:[\s.-]\d+)*] takes. *)
Fixpoint phone_body (s : str) : str :=
  match s with
  | c :: s' =>
      if Char.is_digit c then c :: phone_body s'
      else if sep_class c then
        match s' with
        | d :: s'' => if Char.is_digit d then c :: d :: phone_body s'' else []
        | [] => []
        end
      else []
  | [] => []
  end.

(** The characters of a phone-shaped text. *)
Definition phone_char (c : ascii) : bool :=
  Char.is_digit c || sep_class c || Ascii.eqb c "+"%char.

Definition no_digit (c : ascii) : bool := negb (Char.is_digit c).

(** A text that neither continues a digit group nor opens a new one. *)
Definition stops_phone (post : str) : bool :=
  match post with
  | c :: _ => negb (Char.is_digit c || sep_class c)
  | [] => true
  end.

End Scanner.

(** ** The choice among the matches of the raw text *)

Module PhoneChoice.

Import Scanner.

(** The number of digits of a text. *)
Definition digit_count (x : str) : nat := length (digits_of x).

Definition starts_plus (x : str) : bool := Str.startswith (py "+") x.

(** A text that does not continue a phone-shaped match: it starts neither
    with a digit nor with a separator and a digit. *)
Definition ends_phone (post : str) : bool :=
  match post with
  | c :: post' =>
      negb (Char.is_digit c)
      && negb (sep_class c && starts_with_class Char.is_digit post')
  | [] => true
  end.

(** The texts [m] has to beat: those with seven digits or more, and only
    those that start with "+" when [m] does. *)
Definition competes (m x : str) : Prop :=
  7 <= digit_count x /\ (starts_plus m = true -> starts_plus x = true).

(** [m] is the text chosen in the list [l] of phone-shaped matches: it has
    seven digits or more; it starts with "+" if any text of seven digits or
    more does; and among the texts it competes with it has the most digits,
    and is the first that has as many. *)
Definition chosen (l : list str) (m : str) : Prop :=
  exists before after,
    l = before ++ m :: after
    /\ 7 <= digit_count m
    /\ (starts_plus m = false ->
        forall x, In x l -> 7 <= digit_count x -> starts_plus x = false)
    /\ (forall x, In x before -> competes m x -> digit_count x < digit_count m)
    /\ (forall x, In x after -> competes m x -> digit_count x <= digit_count m).

End PhoneChoice.

(** ** Phrases of capitalized words *)

Module PhraseSpec.

(** A capitalized word: an upper-case letter and one lower-case letter or
    more. *)
Inductive cap_word : str -> Prop :=
| Cap_word u l ls :
    Char.is_upper u = true -> Char.is_lower l = true ->
    Forall (fun c => Char.is_lower c = true) ls ->
    cap_word (u :: l :: ls).

(** [n] capitalized words, one white-space character between two of them. *)
Inductive phrase : nat -> str -> Prop :=
| Phrase_one w : cap_word w -> phrase 1 w
| Phrase_more n w sp p :
    cap_word w -> Char.is_space sp = true -> phrase n p ->
    phrase (S n) (w ++ sp :: p).

(** A phrase of two to [most] capitalized words, after [prev] and before
    [rest], that begins and ends at a word boundary. *)
Definition phrase_at (most : nat) (prev : option ascii) (m rest : str) : Prop :=
  exists n,
    2 <= n <= most
    /\ phrase n m
    /\ at_boundary prev (m ++ rest) = true
    /\ at_boundary (last_char prev m) rest = true.

(** The greedy one of the phrases at a position: the longest. *)
Definition taken (most : nat) (prev : option ascii) (m rest : str) : Prop :=
  phrase_at most prev m rest
  /\ forall m' rest',
       m ++ rest = m' ++ rest' -> phrase_at most prev m' rest' ->
       length m' <= length m.

(** The phrases found from left to right: at each position the greedy
    phrase, if there is a phrase there, and then on from its end; one
    character on if there is none. *)
Inductive found (most : nat) : option ascii -> str -> list str -> Prop :=
| Found_end prev : found most prev [] []
| Found_skip prev c s l :
    (forall m rest, c :: s = m ++ rest -> ~ phrase_at most prev m rest) ->
    found most (Some c) s l ->
    found most prev (c :: s) l
| Found_take prev s m rest l :
    s = m ++ rest ->
    taken most prev m rest ->
    found most (last_char prev m) rest l ->
    found most prev s (m :: l).

End PhraseSpec.

(** ** The pattern of capitalized words read as a scanner *)

Module PhraseScanner.

Import Scanner.

(** The text after a capitalized word at the start of the text, the word
    taking every lower-case letter there is. *)
Definition word_rest (s : str) : option str :=
  match s with
  | u :: s' =>
      if Char.is_upper u && starts_with_class Char.is_lower s'
      then Some (run_rest Char.is_lower s')
      else None
  | [] => None
  end.

(** The text after a white-space character and a capitalized word. *)
Definition group_rest (s : str) : option str :=
  match s with
  | sp :: s' => if Char.is_space sp then word_rest s' else None
  | [] => None
  end.

(** The text after [n] groups. *)
Fixpoint take_groups (n : nat) (s : str) : option str :=
  match n with
  | 0 => Some s
  | S n' => match group_rest s with
            | Some s' => take_groups n' s'
            | None => None
            end
  end.

(** The text after as many groups as possible, [n] at most, with the end
    at a word boundary: when there is no boundary after the groups taken,
    the last of them is given up. *)
Fixpoint groups_rest (n : nat) (s : str) : option str :=
  let stop := if word_after s then None else Some s in
  match n with
  | 0 => stop
  | S n' =>
      match group_rest s with
      | Some s' =>
          match groups_rest n' s' with
          | Some t => Some t
          | None => stop
          end
      | None => stop
      end
  end.

(** [\b[A-Z][a-z]+(?:\s[A-Z][a-z]+){1,hi}\b] tried at one position, [hi]
    being [S h]. *)
Definition phrase_here (h : nat) (prev : option ascii) (s : str) : option str :=
  if at_boundary prev s then
    match word_rest s with
    | Some s1 =>
        match group_rest s1 with
        | Some s2 => groups_rest h s2
        | None => None
        end
    | None => None
    end
  else None.

(** [\s[A-Z][a-z]+], the group the pattern repeats, and the end of the
    pattern: the boundary and no more. *)
Definition WORD_GROUP : regex := Cat [Class Char.is_space; capitalized].

Definition k_boundary : cont := rmatch WordBoundary k_end.

End PhraseScanner.

(** ** Contact records and accepted replies *)

Module Contact.

(** The five keys of a contact record. *)
Definition FIELDS : list str :=
  [py "name"; py "company"; py "description"; py "phone"; py "email"].

Definition field_set : gset str := list_to_set FIELDS.

(** Each of the five keys is bound to a string. *)
Definition binds_strings (d : gmap str pyval) : Prop :=
  Forall (fun key => exists s, d !! key = Some (PStr s)) FIELDS.

(** The record of the data model: the five keys and no other, each bound to
    a string. *)
Definition contact_record (d : gmap str pyval) : Prop :=
  dom d = field_set /\ binds_strings d.

(** The record the five values make. *)
Definition record_of (name company description phone email : str) : gmap str pyval :=
  <[py "email" := PStr email]>
  (<[py "phone" := PStr phone]>
  (<[py "description" := PStr description]>
  (<[py "company" := PStr company]>
  (<[py "name" := PStr name]> ∅)))).

(** Whether a key is one of the five. *)
Definition is_field (key : str) : bool := existsb (Str.eqb key) FIELDS.

(** A value of the model's object that the loop and the validators can
    work with: a string, or, under a key that is not one of the five, a
    value that is falsy ([null], [false], 0, an empty list or object). *)
Definition acceptable_value (key : str) (v : pyval) : bool :=
  match v with
  | PStr _ => true
  | _ => negb (truthy v) && negb (is_field key)
  end.

Definition acceptable_object (data : gmap str pyval) : bool :=
  forallb (fun kv => acceptable_value (fst kv) (snd kv)) (map_to_list data).

(** A reply the loop returns on: its text, trimmed, is in braces,
    [json.loads] makes an object of it, and every value of the object is
    acceptable.  The object need not have any of the five keys. *)
Definition accepted (json_loads : str -> result pyval) (reply : llm_reply) : bool :=
  match reply with
  | Llm_raises _ => false
  | Llm_content content =>
      let response := Str.strip content in
      Str.startswith (py "{") response && Str.endswith (py "}") response
      && match json_loads response with
         | Ok (PDict data) => acceptable_object data
         | _ => false
         end
  end.

End Contact.

(** ** A model reply with a key of its own *)

Module Example.

Import Contact.

Definition dq : ascii := ascii_of_nat 34.

Definition quoted (s : string) : str := dq :: py s ++ [dq].

(** The JSON text [{"name": "**jane doe**", "extra": null}], with the
    double quotes written [dq]. *)
Definition response : str :=
  py "{" ++ quoted "name" ++ py ": " ++ quoted "**jane doe**" ++ py ", "
     ++ quoted "extra" ++ py ": null}".

(** What [json.loads] makes of it. *)
Definition parsed : gmap str pyval :=
  <[py "extra" := PNone]> (<[py "name" := PStr (py "**jane doe**")]> ∅).

(** [json.loads] on this text; any other text is taken not to parse. *)
Definition json_loads (s : str) : result pyval :=
  if Str.eqb s response then Ok (PDict parsed) else Raise JSONDecodeError.

(** A model that answers with this text at every attempt. *)
Definition llm (_ : str) (_ : nat) : llm_reply := Llm_content response.

Definition text : str := py "Jane Doe jane@simpel.ai".

(** The record the extractor returns for it. *)
Definition returned : gmap str pyval :=
  <[py "extra" := PNone]>
  (record_of (py "Jane Doe") (py "Simpel Ai") (py "N/A") (py "N/A")
             (py "jane@simpel.ai")).

(** The JSON text [{"name": "bob stone"}], an object without four of the
    five keys, what [json.loads] makes of it, and a model that answers with
    it at every attempt. *)
Definition partial_response : str :=
  py "{" ++ quoted "name" ++ py ": " ++ quoted "bob stone" ++ py "}".

Definition partial_parsed : gmap str pyval :=
  <[py "name" := PStr (py "bob stone")]> ∅.

Definition partial_loads (s : str) : result pyval :=
  if Str.eqb s partial_response then Ok (PDict partial_parsed)
  else Raise JSONDecodeError.

Definition partial_llm (_ : str) (_ : nat) : llm_reply := Llm_content partial_response.

End Example.

(** ** The fragments the wrapper of bot.py keeps *)

Module OcrSpec.

Import Ocr.

(** The detections of confidence above 0.5, in their order, each as often
    as it occurs. *)
Inductive confident : list detection -> list detection -> Prop :=
| C_nil : confident [] []
| C_keep d dets kept :
    (1 # 2 < det_conf d)%Q -> confident dets kept -> confident (d :: dets) (d :: kept)
| C_drop d dets kept :
    (det_conf d <= 1 # 2)%Q -> confident dets kept -> confident (d :: dets) kept.

End OcrSpec.

(** * Further notions *)

(** ** The shape of a formatted phone number *)

Module PhoneShapeSpec.

(** What [format_phone] makes of a match: "N/A" below seven digits, else a
    text made of "+", the country code, and the rest in one, or in three
    groups, with a space or a hyphen before each group. *)
Inductive formatted (digits : str) : str -> Prop :=
| F_plain country rest :
    digits = country ++ rest -> country <> [] -> rest <> [] ->
    formatted digits ("+"%char :: country ++ " "%char :: rest)
| F_groups sep country g1 g2 g3 :
    digits = country ++ g1 ++ g2 ++ g3 ->
    sep = " "%char \/ sep = "-"%char ->
    country <> [] -> g1 <> [] -> g2 <> [] -> g3 <> [] ->
    formatted digits ("+"%char :: country ++ sep :: g1 ++ sep :: g2 ++ sep :: g3).

End PhoneShapeSpec.

(** ** Text without Markdown *)

Module TextSpec.

Definition is_star (c : ascii) : bool := Ascii.eqb c "*"%char.

(** A character of a one-line text without asterisk. *)
Definition plain (c : ascii) : bool := negb (is_star c) && dot c.

End TextSpec.

(** ** Calls of the user store *)

Module StoreCalls.

Import Store.

(** A call of one of the five functions of json_manager.py, the writers
    with the times their clock reads. *)
Inductive call : Type :=
| Init_json
| Get_user (telegram_id : Z)
| Save_user (telegram_id : Z)
    (email access_token refresh_token sheet_id display_name : pyval)
    (now_created now_updated : str)
| Update_user_tokens (telegram_id : Z) (access_token refresh_token : pyval) (now : str)
| Update_user_field (telegram_id : Z) (field : str) (value : pyval) (now : str).

(** What a call returns, and the file it leaves. *)
Definition run_call (c : call) (f : file) : pyval * file :=
  match c with
  | Init_json => (PNone, init_json f)
  | Get_user telegram_id => (get_user telegram_id f, f)
  | Save_user telegram_id email access_token refresh_token sheet_id display_name
              now_created now_updated =>
      let '(ok, f') := save_user telegram_id email access_token refresh_token sheet_id
                                 display_name now_created now_updated f in
      (PBool ok, f')
  | Update_user_tokens telegram_id access_token refresh_token now =>
      let '(ok, f') := update_user_tokens telegram_id access_token refresh_token now f in
      (PBool ok, f')
  | Update_user_field telegram_id field value now =>
      let '(ok, f') := update_user_field telegram_id field value now f in
      (PBool ok, f')
  end.

Fixpoint run_calls (cs : list call) (f : file) : list pyval * file :=
  match cs with
  | [] => ([], f)
  | c :: cs' =>
      let '(r, f1) := run_call c f in
      let '(rs, f2) := run_calls cs' f1 in
      (r :: rs, f2)
  end.

(** A file that is there and has text, but text that does not parse or
    that denotes something else than an object. *)
Definition unreadable (f : file) : Prop :=
  match f with
  | Garbled _ => True
  | Json (PDict _) => False
  | Json _ => True
  | Missing | Blank => False
  end.

(** What a call returns when it can do nothing: [None] for [init_json] and
    [get_user], [False] for the writers. *)
Definition refusal (c : call) : pyval :=
  match c with
  | Init_json | Get_user _ => PNone
  | _ => PBool false
  end.

End StoreCalls.

(** ** What a computation on the world ends in *)

Module Outcome.

Import Store Sheets.

(** [Q] holds of the result of [m] from [w] and of the world it leaves. *)
Definition wp {A : Type} (m : M A) (Q : result A -> world -> Prop) (w : world) : Prop :=
  Q (fst (m w)) (snd (m w)).

(** The world after one more request. *)
Definition add_request (r : request) (w : world) : world :=
  {| store := store w; sent := r :: sent w; ticks := ticks w; user_data := user_data w |}.

(** From [w] to [w'] requests were added, all of them in [P], and nothing
    was done to [user_data]. *)
Definition sends_only (P : request -> Prop) (w w' : world) : Prop :=
  (exists new, sent w' = new ++ sent w /\ Forall P new)
  /\ user_data w' = user_data w.

Definition no_put (r : request) : Prop := req_verb r <> PUT.

Definition is_post (r : request) : Prop := req_verb r = POST.

(** The record of [t] in the store is an object that is not empty. *)
Definition known (t : Z) (f : file) : Prop :=
  exists u, get_user t f = PDict u /\ truthy (PDict u) = true.

(** The user is in the store with a sheet and an access token. *)
Definition signed_in (user_id : Z) (sheet_id access_token : pyval) (f : file) : Prop :=
  exists u, get_user user_id f = PDict u
            /\ u !! py "sheet_id" = Some sheet_id
            /\ u !! py "access_token" = Some access_token
            /\ truthy sheet_id = true.

(** The requests by name. *)
Definition check_request (sheet_id access_token : pyval) : request :=
  {| req_verb := GET; req_url := Spreadsheet sheet_id;
     req_bearer := Some access_token; req_body := No_body |}.

Definition values_request (sheet_id access_token : pyval) : request :=
  {| req_verb := GET; req_url := Values_A_F sheet_id;
     req_bearer := Some access_token; req_body := No_body |}.

Definition cell_request (sheet_id access_token : pyval) (col : str) (row : Z)
    (value : pyval) : request :=
  {| req_verb := PUT; req_url := Cell sheet_id col row;
     req_bearer := Some access_token; req_body := Values [PList [value]] |}.

Definition batch_request (sheet_id access_token : pyval) (ranges : list (Z * Z))
    : request :=
  {| req_verb := POST; req_url := Batch_update sheet_id;
     req_bearer := Some access_token; req_body := Delete_rows ranges |}.

(** The world after the two requests of a [get_rows] that finds the sheet. *)
Definition after_rows (sheet_id access_token : pyval) (w : world) : world :=
  add_request (values_request sheet_id access_token)
    (add_request (check_request sheet_id access_token) w).

(** A network that answers every request with 200, and on which the sheet
    [sheet_id] has the header row and then the rows [rows]. *)
Definition serves (net : list request -> request -> exn + response)
    (sheet_id : pyval) (rows : list pyval) : Prop :=
  forall history r,
    exists resp, net history r = inr resp /\ status_code resp = 200%Z
      /\ (req_url r = Values_A_F sheet_id ->
          json resp = Ok (PDict {[ py "values" := PList (header_row :: rows) ]})).

(** A network that refuses every batch update: an exception, or a status
    that is neither 200 nor 401. *)
Definition refuses_batches (net : list request -> request -> exn + response) : Prop :=
  forall history r sheet_id,
    req_url r = Batch_update sheet_id ->
    match net history r with
    | inl _ => True
    | inr resp => status_code resp <> 200%Z /\ status_code resp <> 401%Z
    end.

(** One turn of the loop in which [delete_row] falls back to single
    deletions, with [depth] frames left for the call. *)
Definition one_by_one (net : list request -> request -> exn + response)
    (clock : nat -> str) (depth : nat) (sheet_id access_token refresh_token : pyval)
    (telegram_id : option Z) (acc : M Z) (idx : Z) : M Z :=
  success ← acc;
  one ← delete_row_rec net clock depth sheet_id access_token (Index_int (idx + 1))
          refresh_token telegram_id;
  ret (if (one =? 0)%Z then success else (success + 1)%Z).

(** The last [n] of the rows. *)
Definition last_rows (n : nat) (rows : list pyval) : list pyval :=
  drop (length rows - n) rows.

(** Every row is a list of cells. *)
Definition all_rows (rows : list pyval) : Prop :=
  Forall (fun row => exists cells, row = PList cells) rows.

(** The cell of a row that is shown, "N/A" where the row is too short. *)
Definition cell (cells : list pyval) (i : nat) : pyval :=
  default (PStr (py "N/A")) (cells !! i).

(** What [handle_edit_field] keeps under [editing] for the name. *)
Definition editing_name (k : Z) : pyval :=
  PDict (<[py "field" := PStr (py "name")]> (<[py "index" := PInt k]> ∅)).

(** The numbers of a set lie between 1 and [total]. *)
Definition in_range (total : Z) (indices : gset Z) : Prop :=
  forall i, i ∈ indices -> (1 <= i <= total)%Z.

(** A text of ASCII characters: the text on which [isdigit] means decimal
    digits only. *)
Definition ascii_text (s : str) : Prop := Forall (fun c => Char.code c < 128) s.

End Outcome.

(** ** A sheet and a user to try the statements on *)

Module Demo.

Import Store Sheets.

Definition sheet : pyval := PStr (py "sheet-1").

Definition token : pyval := PStr (py "token-1").

Definition row (stamp name company desc phone email : string) : pyval :=
  PList (map (fun s => PStr (py s)) [stamp; name; company; desc; phone; email]).

Definition rows : list pyval :=
  [ row "2024-05-01 09:00:00" "Ann Lee" "Acme" "Engineer" "+1-415-555-2671" "ann@acme.com";
    row "2024-05-02 09:00:00" "Bob Roy" "Bolt" "Manager" "N/A" "bob@bolt.io";
    row "2024-05-03 09:00:00" "Cy Dunn" "Corex" "Founder" "N/A" "N/A" ]%string.

(** Every request is answered with 200; the values are the header and
    [rows], any other body is an object with an id. *)
Definition net (_ : list request) (r : request) : exn + response :=
  inr {| status_code := 200;
         json := match req_url r with
                 | Values_A_F _ => Ok (PDict {[ py "values" := PList (header_row :: rows) ]})
                 | _ => Ok (PDict {[ py "id" := sheet ]})
                 end |}.

(** As [net], but a batch update is answered with 400. *)
Definition net_refusing (history : list request) (r : request) : exn + response :=
  match req_url r with
  | Batch_update _ => inr {| status_code := 400; json := Raise JSONDecodeError |}
  | _ => net history r
  end.

(** As [net], but the first row of the sheet is empty. *)
Definition net_blank_first (_ : list request) (r : request) : exn + response :=
  inr {| status_code := 200;
         json := Ok (PDict {[ py "values" := PList (PList [] :: rows) ]}) |}.

Definition clock (_ : nat) : str := py "2024-05-04T10:00:00".

Definition user : gmap str pyval :=
  {[ py "sheet_id" := sheet; py "access_token" := token ]}.

Definition world0 : world :=
  {| store := Json (PDict {[ PyInt.str_of_int 7 := PDict user ]});
     sent := []; ticks := 0; user_data := ∅ |}.

End Demo.

(** * Properties *)

(** ** The matcher against a declarative reading of the patterns *)

Module ReFacts.

Import ReSpec.

Lemma last_char_app prev m1 m2 :
  last_char prev (m1 ++ m2) = last_char (last_char prev m1) m2.
Proof.
  unfold last_char. rewrite rev_app_distr.
  destruct (rev m2) as [|c r]; simpl; [reflexivity | reflexivity].
Qed.

Lemma last_char_nil prev : last_char prev [] = prev.
Proof. reflexivity. Qed.

Lemma last_char_one prev c : last_char prev [c] = Some c.
Proof. reflexivity. Qed.

Lemma repeat_loop_unfold body k g fuel lo hi prev s :
  repeat_loop body k g fuel lo hi prev s =
  let more (_ : unit) : option str :=
    match fuel with
    | 0 => None
    | S fuel' =>
        if hi_is_zero hi then None
        else body (fun p t =>
                     if length t <? length s
                     then repeat_loop body k g fuel' (pred lo) (pred_hi hi) p t
                     else None) prev s
    end in
  match lo with
  | S _ => more tt
  | 0 => if g then or_else (more tt) (fun _ => k prev s)
         else or_else (k prev s) more
  end.
Proof. destruct fuel; reflexivity. Qed.

Lemma rmatch_seq r1 r2 k : rmatch (Seq r1 r2) k = rmatch r1 (rmatch r2 k).
Proof. reflexivity. Qed.

Lemma rmatch_alt r1 r2 k prev s :
  rmatch (Alt r1 r2) k prev s
  = or_else (rmatch r1 k prev s) (fun _ => rmatch r2 k prev s).
Proof. reflexivity. Qed.

Lemma rmatch_repeat g lo hi r k prev s :
  rmatch (Repeat g lo hi r) k prev s
  = repeat_loop (rmatch r) k g (length s) lo hi prev s.
Proof. reflexivity. Qed.

Lemma rmatch_class p k prev s :
  rmatch (Class p) k prev s
  = match s with
    | x :: t => if p x then k (Some x) t else None
    | [] => None
    end.
Proof. reflexivity. Qed.

Lemma rmatch_lit c k prev s :
  rmatch (Lit c) k prev s
  = match s with
    | x :: t => if Ascii.eqb x c then k (Some x) t else None
    | [] => None
    end.
Proof. reflexivity. Qed.

Lemma rmatch_boundary k prev s :
  rmatch WordBoundary k prev s = if at_boundary prev s then k prev s else None.
Proof. reflexivity. Qed.

Lemma or_else_some a b x :
  or_else a b = Some x -> a = Some x \/ (a = None /\ b tt = Some x).
Proof. destruct a; simpl; intros H; [left | right]; auto. Qed.

Lemma repeat_loop_sound body r g k :
  sound body r ->
  forall fuel lo hi prev s a,
    repeat_loop body k g fuel lo hi prev s = Some a ->
    exists m t, s = m ++ t /\ matches (Repeat g lo hi r) prev m t
                /\ k (last_char prev m) t = Some a.
Proof.
  intros Hbody fuel.
  induction fuel as [|fuel IH]; intros lo hi prev s a H;
    rewrite repeat_loop_unfold in H; cbv zeta in H.
  - destruct lo as [|lo]; [|discriminate].
    assert (Hk : k prev s = Some a).
    { destruct g; simpl in H.
      - exact H.
      - apply or_else_some in H. destruct H as [H|[_ H]]; [exact H|discriminate]. }
    exists [], s. split; [reflexivity|]. split; [constructor|exact Hk].
  - assert (Hmore : forall x,
      (if hi_is_zero hi then None
       else body (fun p t =>
                    if length t <? length s
                    then repeat_loop body k g fuel (pred lo) (pred_hi hi) p t
                    else None) prev s) = Some x ->
      exists m t, s = m ++ t /\ matches (Repeat g lo hi r) prev m t
                  /\ k (last_char prev m) t = Some x).
    { intros x Hx. destruct (hi_is_zero hi) eqn:Hhi; [discriminate|].
      apply Hbody in Hx. destruct Hx as (m1 & t1 & -> & Hm1 & Hx).
      destruct (length t1 <? length (m1 ++ t1)) eqn:Hlen; [|discriminate].
      apply IH in Hx. destruct Hx as (m2 & t & -> & Hm2 & Hx).
      exists (m1 ++ m2), t. split; [apply app_assoc|]. split.
      - apply M_more; auto.
        intros ->. simpl in Hlen. apply Nat.ltb_lt in Hlen. lia.
      - rewrite last_char_app. exact Hx. }
    assert (Hstop : forall x, lo = 0 -> k prev s = Some x ->
      exists m t, s = m ++ t /\ matches (Repeat g lo hi r) prev m t
                  /\ k (last_char prev m) t = Some x).
    { intros x -> Hx. exists [], s. split; [reflexivity|].
      split; [constructor|exact Hx]. }
    destruct lo as [|lo].
    + destruct g; apply or_else_some in H; destruct H as [H|[_ H]]; eauto.
    + eauto.
Qed.

(** Every match the matcher reports is a match of the pattern, at the
    position and with the text the continuation is given. *)
Theorem rmatch_sound r : sound (rmatch r) r.
Proof.
  induction r as [c|p| |r1 IH1 r2 IH2|r1 IH1 r2 IH2|g lo hi r1 IH1];
    intros k prev s a H; simpl in H.
  - destruct s as [|x t]; [discriminate|].
    destruct (Ascii.eqb_spec x c) as [->|]; [|discriminate].
    exists [c], t. repeat split; [constructor|exact H].
  - destruct s as [|x t]; [discriminate|].
    destruct (p x) eqn:Hp; [|discriminate].
    exists [x], t. repeat split; [constructor; exact Hp|exact H].
  - destruct (at_boundary prev s) eqn:Hb; [|discriminate].
    exists [], s. repeat split; [constructor; exact Hb|exact H].
  - apply IH1 in H. destruct H as (m1 & t1 & -> & Hm1 & H).
    apply IH2 in H. destruct H as (m2 & t & -> & Hm2 & H).
    exists (m1 ++ m2), t. split; [apply app_assoc|]. split.
    + constructor; assumption.
    + rewrite last_char_app. exact H.
  - apply or_else_some in H. destruct H as [H|[_ H]].
    + apply IH1 in H. destruct H as (m & t & -> & Hm & H).
      exists m, t. repeat split; [apply M_alt_l; exact Hm|exact H].
    + apply IH2 in H. destruct H as (m & t & -> & Hm & H).
      exists m, t. repeat split; [apply M_alt_r; exact Hm|exact H].
  - eapply repeat_loop_sound; eauto.
Qed.

Lemma consumed_app m t : consumed (m ++ t) t = m.
Proof.
  unfold consumed. rewrite length_app.
  replace (length m + length t - length t) with (length m) by lia.
  apply take_app_length.
Qed.

Lemma match_here_sound r prev s t :
  match_here r prev s = Some t ->
  exists m, s = m ++ t /\ matches r prev m t /\ consumed s t = m.
Proof.
  intros H. apply rmatch_sound in H. destruct H as (m & t' & -> & Hm & [= ->]).
  exists m. repeat split; [exact Hm|apply consumed_app].
Qed.

(** What [search] finds is a match of the pattern somewhere in the text. *)
Lemma search_from_sound r s : forall prev m,
  search_from r prev s = Some m ->
  exists pre prev' t, s = pre ++ m ++ t /\ matches r prev' m t.
Proof.
  induction s as [|c s IH]; intros prev m H; simpl in H.
  - destruct (match_here r prev []) as [t|] eqn:Hh; [|discriminate].
    injection H as <-. apply match_here_sound in Hh.
    destruct Hh as (m & Hs & Hm & ->). exists [], prev, t. auto.
  - destruct (match_here r prev (c :: s)) as [t|] eqn:Hh.
    + injection H as <-. apply match_here_sound in Hh.
      destruct Hh as (m & Hs & Hm & ->). exists [], prev, t. auto.
    + apply IH in H. destruct H as (pre & prev' & t & -> & Hm).
      exists (c :: pre), prev', t. auto.
Qed.

(** A repetition of a class matches characters of the class only. *)
Lemma matches_repeat_class g (p : ascii -> bool) lo hi prev m t :
  matches (Repeat g lo hi (Class p)) prev m t -> Forall (fun c => p c = true) m.
Proof.
  intros H. remember (Repeat g lo hi (Class p)) as r eqn:Hr.
  revert lo hi Hr.
  induction H as [| | | | | | |g' lo' hi' r' prev m1 m2 rest Hhi Hne H1 _ H2 IH2];
    intros lo0 hi0 Hr; try discriminate.
  - constructor.
  - injection Hr as -> -> -> ->.
    inversion H1; subst. simpl. constructor; [assumption|].
    eapply IH2. reflexivity.
Qed.

Lemma split_acc_plain sep s : forall cur,
  Forall (fun c => Ascii.eqb c sep = false) s ->
  Str.split_acc sep cur s = [rev cur ++ s].
Proof.
  induction s as [|c s IH]; intros cur H; simpl.
  - rewrite app_nil_r. reflexivity.
  - inversion H as [|? ? Hc Hs]; subst. rewrite Hc, IH by assumption.
    simpl. rewrite <- app_assoc. reflexivity.
Qed.

Lemma split_acc_at sep l r : forall cur,
  Forall (fun c => Ascii.eqb c sep = false) l ->
  Str.split_acc sep cur (l ++ sep :: r) = (rev cur ++ l) :: Str.split_acc sep [] r.
Proof.
  induction l as [|c l IH]; intros cur H; simpl.
  - rewrite Ascii.eqb_refl, app_nil_r. reflexivity.
  - inversion H as [|? ? Hc Hl]; subst. rewrite Hc, IH by assumption.
    simpl. rewrite <- app_assoc. reflexivity.
Qed.

Lemma class_excludes (p : ascii -> bool) (x : ascii) (l : str) :
  p x = false -> Forall (fun c => p c = true) l ->
  Forall (fun c => Ascii.eqb c x = false) l.
Proof.
  intros Hx H. eapply Forall_impl; [exact H|].
  intros c Hc. simpl in *. destruct (Ascii.eqb_spec c x) as [->|]; congruence.
Qed.

(** The shape of a match of [EMAIL_REGEX]: a local part and a domain
    around the only at-sign. *)
Lemma email_shape prev m t :
  matches EMAIL_REGEX prev m t ->
  exists loc dom,
    m = loc ++ "@"%char :: dom /\
    Forall (fun c => email_local c = true) loc /\
    Forall (fun c => Ascii.eqb c "@"%char = false) dom.
Proof.
  unfold EMAIL_REGEX, Plus. simpl. intros H.
  repeat match goal with
         | H : matches (Seq _ _) _ _ _ |- _ => inversion H; subst; clear H
         | H : matches WordBoundary _ _ _ |- _ => inversion H; subst; clear H
         | H : matches (Lit _) _ _ _ |- _ => inversion H; subst; clear H
         | H : matches (Repeat _ _ _ (Class _)) _ _ _ |- _ =>
             apply matches_repeat_class in H
         end.
  match goal with
  | HL : Forall (fun c => email_local c = true) ?loc,
    HD : Forall (fun c => email_domain c = true) ?dom,
    HT : Forall (fun c => email_tld c = true) ?tld |- _ =>
      exists loc, (dom ++ "."%char :: tld); split; [|split]
  end.
  - simpl. rewrite app_nil_r. reflexivity.
  - assumption.
  - apply Forall_app. split.
    + eapply class_excludes; [|eassumption]. reflexivity.
    + constructor; [reflexivity|].
      eapply class_excludes; [|eassumption]. reflexivity.
Qed.

Lemma email_split prev m t :
  matches EMAIL_REGEX prev m t ->
  exists loc dom, m = loc ++ "@"%char :: dom /\ Str.split "@"%char m = [loc; dom].
Proof.
  intros H. apply email_shape in H. destruct H as (loc & dom & -> & Hl & Hd).
  exists loc, dom. split; [reflexivity|].
  unfold Str.split. rewrite split_acc_at.
  - rewrite split_acc_plain by assumption. reflexivity.
  - eapply class_excludes; [|exact Hl]. reflexivity.
Qed.

End ReFacts.

(** ** [PHONE_REGEX] as a scanner *)

Module PhoneFacts.

Import ReSpec Scanner ReFacts.

Lemma run_rest_length p s : length (run_rest p s) <= length s.
Proof.
  induction s as [|c s IH]; simpl; [lia|].
  destruct (p c); simpl; lia.
Qed.

(** A greedy repetition of a class takes the longest run when the rest of
    the pattern accepts it. *)
Lemma greedy_class_ok (p : ascii -> bool) k s : forall fuel lo prev,
  length s <= fuel ->
  (lo = 0 \/ (lo = 1 /\ starts_with_class p s = true)) ->
  is_Some (k (run_last p prev s) (run_rest p s)) ->
  repeat_loop (rmatch (Class p)) k true fuel lo None prev s
  = k (run_last p prev s) (run_rest p s).
Proof.
  induction s as [|c s IH]; intros fuel lo prev Hfuel Hlo [x Hk];
    rewrite repeat_loop_unfold; cbv zeta; simpl in *.
  - destruct Hlo as [->|[_ ?]]; [|discriminate].
    destruct fuel; reflexivity.
  - destruct fuel as [|fuel]; [lia|]. simpl.
    destruct (p c) eqn:Hp.
    + assert (Hlt : (length s <? S (length s)) = true) by (apply Nat.ltb_lt; lia).
      rewrite Hlt.
      rewrite IH; [| lia | left; destruct Hlo as [->|[-> _]]; reflexivity | eauto].
      rewrite Hk. destruct lo; reflexivity.
    + destruct Hlo as [->|[_ ?]]; [|discriminate]. reflexivity.
Qed.

(** It fails when one character of the class is asked for and none is there. *)
Lemma greedy_class_fail (p : ascii -> bool) k s fuel lo prev :
  starts_with_class p s = false ->
  repeat_loop (rmatch (Class p)) k true fuel (S lo) None prev s = None.
Proof.
  intros H. rewrite repeat_loop_unfold; cbv zeta.
  destruct fuel; [reflexivity|]. simpl.
  destruct s as [|c s]; [reflexivity|]. simpl in H. rewrite H. reflexivity.
Qed.

Lemma phone_tail_run s : phone_tail s = group_tail (run_rest Char.is_digit s).
Proof.
  induction s as [|c s IH]; [reflexivity|]. simpl.
  destruct (Char.is_digit c) eqn:Hc; [exact IH|].
  unfold group_tail. destruct (sep_class c); simpl.
  - destruct s as [|d s]; [reflexivity|]. reflexivity.
  - destruct s as [|d s]; reflexivity.
Qed.

Lemma group_step k prev s :
  rmatch GROUP k prev s
  = match s with
    | c :: s1 =>
        if sep_class c
        then repeat_loop (rmatch (Class Char.is_digit)) k true (length s1) 1 None (Some c) s1
        else None
    | [] => None
    end.
Proof. destruct s; reflexivity. Qed.

Lemma star_groups n : forall fuel s prev,
  length s <= n -> length s <= fuel ->
  repeat_loop (rmatch GROUP) k_end true fuel 0 None prev s = Some (group_tail s).
Proof.
  induction n as [|n IH]; intros fuel s prev Hn Hfuel;
    rewrite repeat_loop_unfold; cbv zeta.
  - destruct s; [|simpl in Hn; lia]. destruct fuel; reflexivity.
  - destruct fuel as [|fuel].
    { destruct s; [reflexivity|simpl in Hfuel; lia]. }
    cbn [hi_is_zero pred pred_hi]. rewrite group_step.
    destruct s as [|c s1]; [reflexivity|].
    destruct (sep_class c) eqn:Hc;
      [|destruct s1; simpl; rewrite ?Hc; reflexivity].
    pose proof (run_rest_length Char.is_digit s1) as Hrun.
    assert (Hlt : (length (run_rest Char.is_digit s1) <? length (c :: s1)) = true).
    { apply Nat.ltb_lt. simpl. lia. }
    simpl in Hn, Hfuel.
    destruct (starts_with_class Char.is_digit s1) eqn:Hd.
    + rewrite greedy_class_ok; [| lia | right; auto |].
      * rewrite Hlt, IH by lia.
        destruct s1 as [|d s2]; [discriminate|]. simpl in Hd.
        simpl. rewrite Hc, Hd. simpl. rewrite <- phone_tail_run. reflexivity.
      * rewrite Hlt, IH by lia. eauto.
    + rewrite greedy_class_fail by exact Hd. simpl.
      destruct s1 as [|d s2]; [reflexivity|]. simpl in Hd. rewrite Hc, Hd. reflexivity.
Qed.

Lemma star_groups_all prev s : rmatch (Star GROUP) k_end prev s = Some (group_tail s).
Proof.
  unfold Star. rewrite rmatch_repeat. apply star_groups with (n := length s); lia.
Qed.

Lemma tail_digit prev d s :
  Char.is_digit d = true ->
  rmatch TAIL k_end prev (d :: s) = Some (phone_tail s).
Proof.
  intros Hd. unfold TAIL, Plus. rewrite rmatch_seq, rmatch_repeat.
  rewrite greedy_class_ok; [| lia | right; simpl; auto |].
  - rewrite star_groups_all. simpl. rewrite Hd.
    rewrite <- phone_tail_run. reflexivity.
  - rewrite star_groups_all. eauto.
Qed.

Lemma tail_other prev s :
  starts_with_class Char.is_digit s = false ->
  rmatch TAIL k_end prev s = None.
Proof.
  intros H. unfold TAIL, Plus. rewrite rmatch_seq, rmatch_repeat.
  apply greedy_class_fail. exact H.
Qed.

Lemma digit_is_word c : Char.is_digit c = true -> Char.is_word c = true.
Proof.
  unfold Char.is_word. intros ->. rewrite orb_true_r. reflexivity.
Qed.

Lemma phone_regex_eq :
  PHONE_REGEX = Seq (Alt (Lit "+"%char) WordBoundary) TAIL.
Proof. reflexivity. Qed.

(** The matcher on [PHONE_REGEX] is the scanner. *)
Theorem match_here_phone prev s : match_here PHONE_REGEX prev s = phone_here prev s.
Proof.
  unfold match_here. rewrite phone_regex_eq, rmatch_seq, rmatch_alt.
  rewrite rmatch_lit, rmatch_boundary. fold k_end.
  destruct s as [|c s']; cbn [phone_here or_else].
  - destruct (at_boundary prev []); [apply tail_other|]; reflexivity.
  - destruct (Ascii.eqb_spec c "+"%char) as [->|Hc].
    + assert (Hb : (if at_boundary prev ("+"%char :: s')
                    then rmatch TAIL k_end prev ("+"%char :: s') else None) = None).
      { destruct (at_boundary prev _); [apply tail_other|]; reflexivity. }
      destruct s' as [|d s''].
      * rewrite tail_other by reflexivity. exact Hb.
      * destruct (Char.is_digit d) eqn:Hd.
        -- rewrite tail_digit by exact Hd. reflexivity.
        -- rewrite tail_other by exact Hd. exact Hb.
    + destruct (Char.is_digit c) eqn:Hd.
      * unfold at_boundary. cbn [word_after]. rewrite (digit_is_word c Hd).
        rewrite xorb_true_r. cbn [andb].
        destruct (negb (word_before prev)); [apply tail_digit; exact Hd|reflexivity].
      * cbn [andb]. destruct (at_boundary prev (c :: s')); [apply tail_other; exact Hd|reflexivity].
Qed.

Lemma phone_body_facts n : forall s,
  length s <= n ->
  s = phone_body s ++ phone_tail s
  /\ phone_tail (phone_body s) = []
  /\ Forall (fun c => phone_char c = true) (phone_body s).
Proof.
  induction n as [|n IH]; intros s Hn.
  - destruct s; [|simpl in Hn; lia]. repeat split. constructor.
  - destruct s as [|c s']; [repeat split; constructor|].
    simpl in Hn. simpl.
    destruct (Char.is_digit c) eqn:Hc.
    + destruct (IH s') as (H1 & H2 & H3); [lia|].
      simpl. rewrite Hc. repeat split.
      * f_equal. exact H1.
      * exact H2.
      * constructor; [|exact H3]. unfold phone_char. rewrite Hc. reflexivity.
    + destruct (sep_class c) eqn:Hs; [|repeat split; constructor].
      destruct s' as [|d s'']; [repeat split; constructor|].
      destruct (Char.is_digit d) eqn:Hd; [|repeat split; constructor].
      simpl in Hn. destruct (IH s'') as (H1 & H2 & H3); [lia|].
      simpl. rewrite Hc, Hs, Hd. repeat split.
      * do 2 f_equal. exact H1.
      * exact H2.
      * constructor; [unfold phone_char; rewrite Hs, orb_true_r; reflexivity|].
        constructor; [unfold phone_char; rewrite Hd; reflexivity|exact H3].
Qed.

(** A match of [PHONE_REGEX], taken out of its text, is matched whole
    from its first character on. *)
Lemma phone_here_whole prev s t :
  phone_here prev s = Some t ->
  exists m, s = m ++ t /\ phone_here None m = Some []
            /\ Forall (fun c => phone_char c = true) m.
Proof.
  unfold phone_here at 1. intros H.
  destruct s as [|c s']; [discriminate|].
  destruct (Ascii.eqb_spec c "+"%char) as [->|Hc].
  - destruct s' as [|d s'']; [discriminate|].
    destruct (Char.is_digit d) eqn:Hd; [|discriminate]. injection H as <-.
    destruct (phone_body_facts (length s'') s'') as (H1 & H2 & H3); [lia|].
    exists ("+"%char :: d :: phone_body s''). split; [|split].
    + simpl. do 2 f_equal. exact H1.
    + simpl. rewrite Hd, H2. reflexivity.
    + constructor; [reflexivity|].
      constructor; [unfold phone_char; rewrite Hd; reflexivity|exact H3].
  - destruct (Char.is_digit c) eqn:Hd; [|discriminate].
    destruct (negb (word_before prev)); [|discriminate]. injection H as <-.
    destruct (phone_body_facts (length s') s') as (H1 & H2 & H3); [lia|].
    exists (c :: phone_body s'). split; [|split].
    + simpl. f_equal. exact H1.
    + simpl. destruct (Ascii.eqb_spec c "+"%char); [contradiction|].
      rewrite Hd, H2. reflexivity.
    + constructor; [unfold phone_char; rewrite Hd; reflexivity|exact H3].
Qed.

Lemma consumed_all m : consumed m [] = m.
Proof. rewrite <- (app_nil_r m) at 1. apply consumed_app. Qed.

Lemma search_whole m :
  phone_here None m = Some [] -> re_search PHONE_REGEX m = Some m.
Proof.
  intros H. unfold re_search.
  destruct m as [|c m']; cbn [search_from]; rewrite match_here_phone, H;
    rewrite consumed_all; reflexivity.
Qed.

(** Each match [finditer] yields is what the matcher took at some position. *)
Lemma scan_matched r fuel : forall prev s m,
  In (Matched m) (scan r fuel prev s) ->
  exists prev' s' t, match_here r prev' s' = Some t /\ m = consumed s' t.
Proof.
  induction fuel as [|fuel IH]; intros prev s m H; simpl in H; [contradiction|].
  destruct (match_here r prev s) as [t|] eqn:Hh.
  - destruct (consumed s t) as [|x m'] eqn:Hm.
    + destruct s as [|c s'].
      * destruct H as [[= <-]|[]]. exists prev, [], t. auto.
      * destruct H as [[= <-]|[H|H]]; [exists prev, (c :: s'), t; auto|discriminate|].
        eapply IH; eauto.
    + destruct H as [[= <-]|H]; [exists prev, s, t; auto|].
      eapply IH; eauto.
  - destruct s as [|c s']; [contradiction|].
    destruct H as [H|H]; [discriminate|]. eapply IH; eauto.
Qed.

Lemma findall_matched r s m :
  In m (re_findall r s) ->
  exists prev' s' t, match_here r prev' s' = Some t /\ m = consumed s' t.
Proof.
  unfold re_findall, matches_of, pieces. intros H.
  apply list_elem_of_In, list_elem_of_omap in H.
  destruct H as (pc & Hin & Hpc). destruct pc as [|m']; [discriminate|].
  injection Hpc as ->. apply list_elem_of_In in Hin.
  eapply scan_matched; eauto.
Qed.

(** Deleting the characters of a class with [re.sub] is a filter. *)
Lemma scan_class (p : ascii -> bool) s : forall fuel prev,
  length s < fuel ->
  concat (map (fun pc => match pc with Matched m => delete m | Skipped c => [c] end)
              (scan (Class p) fuel prev s))
  = List.filter (fun c => negb (p c)) s.
Proof.
  induction s as [|c s IH]; intros fuel prev Hfuel;
    (destruct fuel as [|fuel]; [simpl in Hfuel; lia|]).
  - reflexivity.
  - simpl in Hfuel. cbn [scan]. unfold match_here. rewrite rmatch_class.
    destruct (p c) eqn:Hp; cbn [List.filter negb]; rewrite Hp; cbn [negb].
    + change (c :: s) with ([c] ++ s). rewrite consumed_app.
      cbn [map concat delete app]. apply IH. lia.
    + cbn [map concat app]. f_equal. apply IH. lia.
Qed.

Lemma re_sub_class p s :
  re_sub (Class p) delete s = List.filter (fun c => negb (p c)) s.
Proof. unfold re_sub, pieces. apply scan_class. lia. Qed.

Lemma digits_of_filter x : digits_of x = List.filter Char.is_digit x.
Proof.
  unfold digits_of, NON_DIGIT. rewrite re_sub_class.
  apply filter_ext. intros c. apply negb_involutive.
Qed.

Lemma filter_all {A : Type} (f : A -> bool) l :
  Forall (fun x => f x = true) l -> List.filter f l = l.
Proof.
  induction 1 as [|x l Hx _ IH]; simpl; [reflexivity|]. rewrite Hx, IH. reflexivity.
Qed.

Lemma phone_char_no_paren c :
  phone_char c = true -> negb (Char.one_of "()" c) = true.
Proof.
  intros H. destruct (Char.one_of "()" c) eqn:Hp; [|reflexivity].
  unfold Char.one_of in Hp. simpl in Hp.
  destruct (Ascii.eqb_spec c "("%char) as [->|]; [discriminate H|].
  destruct (Ascii.eqb_spec c ")"%char) as [->|]; [discriminate H|].
  discriminate Hp.
Qed.

Lemma strip_parens_phone m :
  Forall (fun c => phone_char c = true) m -> re_sub PARENS delete m = m.
Proof.
  intros H. unfold PARENS. rewrite re_sub_class. apply filter_all.
  eapply Forall_impl; [exact H|]. apply phone_char_no_paren.
Qed.

(** Every match of [PHONE_REGEX] that [finditer] yields is found again,
    whole, by [search] on the match alone, and holds no parenthesis. *)
Lemma findall_phone_whole s m :
  In m (re_findall PHONE_REGEX s) ->
  re_search PHONE_REGEX (re_sub PARENS delete m) = Some m.
Proof.
  intros H. apply findall_matched in H.
  destruct H as (prev & s' & t & Hh & ->).
  rewrite match_here_phone in Hh. apply phone_here_whole in Hh.
  destruct Hh as (m & -> & Hm & Hc). rewrite consumed_app.
  rewrite strip_parens_phone by exact Hc. apply search_whole. exact Hm.
Qed.

End PhoneFacts.

(** ** The validators *)

Module ValidatorFacts.

Import ReSpec Scanner ReFacts PhoneFacts.

Lemma index_ok {A : Type} (l : list A) i :
  i < length l -> exists a, index l i = Ok a.
Proof.
  intros H. unfold index.
  destruct (nth_error l i) as [a|] eqn:Hn; [eauto|].
  apply nth_error_None in Hn. lia.
Qed.

Lemma nonempty_length {A : Type} (l : list A) :
  nonempty l = true -> 0 < length l.
Proof.
  unfold nonempty. destruct l; simpl; [discriminate|lia].
Qed.

Lemma max_from_in {A : Type} (key : A -> nat) l : forall best,
  In (max_from key best l) (best :: l).
Proof.
  induction l as [|x l IH]; intros best; simpl; [auto|].
  destruct (IH (if key best <? key x then x else best)) as [H|H]; [|auto].
  rewrite <- H. destruct (key best <? key x); auto.
Qed.

Lemma py_max_ok {A : Type} (key : A -> nat) l :
  nonempty l = true -> exists x, py_max key l = Ok x /\ In x l.
Proof.
  destruct l as [|x l]; [discriminate|]. intros _.
  exists (max_from key x l). split; [reflexivity|apply max_from_in].
Qed.

(** [digits[0]] is only read on a digit string that is not empty. *)
Lemma country_of_ok digits :
  0 < length digits -> exists country, country_of digits = Ok country.
Proof.
  intros H. unfold country_of.
  destruct (Str.startswith (py "91") digits); [eauto|].
  destruct (Str.startswith (py "1") digits); [eauto|].
  destruct (index_ok digits 0 H) as [d0 ->]. simpl. eauto.
Qed.

Lemma format_phone_ok m : exists v, format_phone m = Ok v.
Proof.
  unfold format_phone.
  destruct (length (digits_of m) <? 7) eqn:Hlen; [eauto|].
  apply Nat.ltb_ge in Hlen.
  destruct (country_of_ok (digits_of m)) as [country ->]; [lia|]. simpl.
  repeat match goal with |- context [if ?b then _ else _] => destruct b end; eauto.
Qed.

(** The choice in the raw text never raises, and what it chooses is one of
    the matches with seven digits or more. *)
Lemma best_candidate_spec raw_text :
  best_candidate raw_text = Ok None
  \/ exists c, best_candidate raw_text = Ok (Some c)
               /\ In c (re_findall PHONE_REGEX (re_sub PARENS delete raw_text))
               /\ 7 <= length (digits_of c).
Proof.
  unfold best_candidate.
  set (valid := List.filter _ (re_findall _ _)).
  destruct (nonempty valid) eqn:Hv; [right|left; reflexivity].
  assert (Hsub : forall c, In c valid ->
            In c (re_findall PHONE_REGEX (re_sub PARENS delete raw_text))
            /\ 7 <= length (digits_of c)).
  { intros c Hc. apply filter_In in Hc. destruct Hc as [Hc Hd].
    split; [exact Hc|]. apply Nat.leb_le. exact Hd. }
  destruct (nonempty (List.filter (Str.startswith (py "+")) valid)) eqn:Hp.
  - destruct (py_max_ok (fun x => length (digits_of x)) _ Hp) as (x & -> & Hx).
    exists x. split; [reflexivity|]. apply Hsub.
    apply filter_In in Hx. tauto.
  - destruct (py_max_ok (fun x => length (digits_of x)) _ Hv) as (x & -> & Hx).
    exists x. split; [reflexivity|]. apply Hsub. exact Hx.
Qed.

(** A match in the candidate decides the result, whatever the raw text. *)
Lemma validate_phone_direct depth phone raw_text m :
  re_search PHONE_REGEX (re_sub PARENS delete phone) = Some m ->
  validate_phone_rec (S depth) (PStr phone) raw_text = format_phone m.
Proof. intros H. simpl. rewrite H. reflexivity. Qed.

(** Two frames are enough, and more change nothing. *)
Lemma validate_phone_two_frames phone raw_text :
  exists v, forall n, validate_phone_rec (2 + n) (PStr phone) raw_text = Ok v.
Proof.
  destruct (re_search PHONE_REGEX (re_sub PARENS delete phone)) as [m|] eqn:Hs.
  - destruct (format_phone_ok m) as [v Hv]. exists v. intros n.
    change (2 + n) with (S (S n)).
    rewrite (validate_phone_direct _ _ _ _ Hs). exact Hv.
  - destruct (best_candidate_spec raw_text) as [Hb|(c & Hb & Hin & _)].
    + exists (py "N/A"). intros n. simpl. rewrite Hs, Hb. reflexivity.
    + destruct (format_phone_ok c) as [v Hv]. exists v. intros n.
      change (2 + n) with (S (S n)). cbn [validate_phone_rec].
      rewrite Hs, Hb. cbn [mbind result_bind].
      rewrite (findall_phone_whole _ _ Hin). exact Hv.
Qed.

Lemma validate_phone_ok phone raw_text :
  exists v, validate_phone (PStr phone) raw_text = Ok v.
Proof.
  destruct (validate_phone_two_frames phone raw_text) as [v Hv].
  exists v. apply (Hv 998).
Qed.

Lemma validate_name_ok name raw_text :
  exists v, validate_name (PStr name) raw_text = Ok v.
Proof.
  unfold validate_name. destruct (is_str _ _); [|eauto].
  destruct (nonempty _) eqn:Hn; [|eauto].
  apply index_ok, nonempty_length, Hn.
Qed.

Lemma validate_description_ok desc raw_text :
  exists v, validate_description (PStr desc) raw_text = Ok v.
Proof.
  unfold validate_description. destruct (is_str _ _); [|eauto].
  destruct (2 <=? length _) eqn:Hn; [|eauto].
  apply index_ok. apply Nat.leb_le in Hn. lia.
Qed.

(** The domain read off the match of [EMAIL_REGEX]. *)
Lemma company_from_email raw_text email :
  re_search EMAIL_REGEX raw_text = Some email ->
  exists loc dom,
    email = loc ++ "@"%char :: dom
    /\ validate_company (PStr (py "N/A")) raw_text
       = Ok (Str.title (Str.replace "."%char " "%char dom)).
Proof.
  intros Hs. pose proof Hs as Hm. apply search_from_sound in Hm.
  destruct Hm as (pre & prev & t & _ & Hm).
  apply email_split in Hm. destruct Hm as (loc & dom & -> & Hsplit).
  exists loc, dom. split; [reflexivity|].
  unfold validate_company.
  change (is_str (PStr (py "N/A")) "N/A") with true. cbv iota.
  rewrite Hs, Hsplit. reflexivity.
Qed.

Lemma validate_company_ok company raw_text :
  exists v, validate_company (PStr company) raw_text = Ok v.
Proof.
  unfold validate_company. destruct (is_str _ _); [|eauto].
  destruct (re_search EMAIL_REGEX raw_text) as [email|] eqn:Hs.
  - pose proof Hs as Hm. apply search_from_sound in Hm.
    destruct Hm as (pre & prev & t & _ & Hm).
    apply email_split in Hm. destruct Hm as (loc & dom & -> & ->).
    simpl. eauto.
  - destruct (nonempty _) eqn:Hn; [|eauto].
    apply index_ok, nonempty_length, Hn.
Qed.

Lemma validate_email_ok email raw_text :
  exists v, validate_email (PStr email) raw_text = Ok v.
Proof.
  unfold validate_email.
  destruct (re_match _ _); [eauto|]. destruct (re_search _ _); eauto.
Qed.

End ValidatorFacts.

(** ** Where the first phone-shaped match of a candidate lies *)

Module SearchFacts.

Import ReSpec Scanner ReFacts PhoneFacts.

Lemma last_char_cons prev c m : last_char prev (c :: m) = last_char (Some c) m.
Proof. apply (last_char_app prev [c] m). Qed.

Lemma phone_here_no_digit prev c s :
  no_digit c = true ->
  starts_with_class Char.is_digit s = false ->
  phone_here prev (c :: s) = None.
Proof.
  unfold no_digit. intros Hc Hs. apply negb_true_iff in Hc.
  unfold phone_here. rewrite Hc. simpl.
  destruct (Ascii.eqb c "+"%char); [|reflexivity].
  destruct s as [|d s']; [reflexivity|]. simpl in Hs. rewrite Hs. reflexivity.
Qed.

(** [search] walks over text without digits. *)
Lemma search_skip pre : forall prev s,
  Forall (fun c => no_digit c = true) pre ->
  starts_with_class Char.is_digit s = false ->
  search_from PHONE_REGEX prev (pre ++ s)
  = search_from PHONE_REGEX (last_char prev pre) s.
Proof.
  induction pre as [|c pre IH]; intros prev s Hpre Hs; [reflexivity|].
  inversion Hpre as [|? ? Hc Hpre']; subst.
  rewrite last_char_cons. rewrite <- IH by assumption.
  simpl app. cbn [search_from]. rewrite match_here_phone.
  rewrite phone_here_no_digit; [reflexivity|exact Hc|].
  destruct pre as [|c' pre']; [exact Hs|].
  inversion Hpre' as [|? ? Hc' _]; subst. simpl.
  unfold no_digit in Hc'. apply negb_true_iff in Hc'. exact Hc'.
Qed.

Lemma phone_tail_stop post : stops_phone post = true -> phone_tail post = post.
Proof.
  destruct post as [|c post]; [reflexivity|]. simpl. intros H.
  apply negb_true_iff in H.
  destruct (Char.is_digit c); [discriminate|].
  destruct (sep_class c); [discriminate|]. reflexivity.
Qed.

Lemma strip_parens_app a b :
  re_sub PARENS delete (a ++ b) = re_sub PARENS delete a ++ re_sub PARENS delete b.
Proof. unfold PARENS. rewrite !re_sub_class. apply List.filter_app. Qed.

Lemma strip_parens_no_digit pre :
  Forall (fun c => no_digit c = true) pre ->
  Forall (fun c => no_digit c = true) (re_sub PARENS delete pre).
Proof.
  intros H. unfold PARENS. rewrite re_sub_class.
  apply Forall_forall. intros c Hc. apply list_elem_of_In, filter_In in Hc.
  rewrite Forall_forall in H. apply H, list_elem_of_In. tauto.
Qed.

End SearchFacts.

(** ** The choice of [validate_phone] in the raw text *)

Module ChoiceFacts.

Import ReSpec Scanner PhoneChoice ReFacts PhoneFacts ValidatorFacts SearchFacts.

Section Max.

Context {A : Type} (key : A -> nat).

Lemma max_from_keep m after :
  (forall x, In x after -> key x <= key m) -> max_from key m after = m.
Proof.
  induction after as [|x after IH]; intros H; [reflexivity|].
  cbn [max_from].
  assert (Hx : (key m <? key x) = false)
    by (apply Nat.ltb_ge, H; left; reflexivity).
  rewrite Hx. apply IH. intros y Hy. apply H. right. exact Hy.
Qed.

Lemma max_from_reach m after before : forall best,
  key best < key m ->
  (forall x, In x before -> key x < key m) ->
  (forall x, In x after -> key x <= key m) ->
  max_from key best (before ++ m :: after) = m.
Proof.
  induction before as [|x before IH]; intros best Hb Hbefore Hafter.
  - cbn [app max_from]. apply Nat.ltb_lt in Hb. rewrite Hb.
    apply max_from_keep. exact Hafter.
  - cbn [app max_from]. apply IH.
    + destruct (key best <? key x); [apply Hbefore; left; reflexivity|exact Hb].
    + intros y Hy. apply Hbefore. right. exact Hy.
    + exact Hafter.
Qed.

(** [max] returns the first of the elements with the largest key. *)
Lemma py_max_first m before after :
  (forall x, In x before -> key x < key m) ->
  (forall x, In x after -> key x <= key m) ->
  py_max key (before ++ m :: after) = Ok m.
Proof.
  intros Hbefore Hafter. destruct before as [|b before]; cbn [app py_max]; f_equal.
  - apply max_from_keep. exact Hafter.
  - apply max_from_reach.
    + apply Hbefore. left. reflexivity.
    + intros y Hy. apply Hbefore. right. exact Hy.
    + exact Hafter.
Qed.

Lemma max_from_inv l : forall best m,
  max_from key best l = m ->
  (m = best /\ forall x, In x l -> key x <= key best)
  \/ exists before after,
       l = before ++ m :: after
       /\ key best < key m
       /\ (forall x, In x before -> key x < key m)
       /\ (forall x, In x after -> key x <= key m).
Proof.
  induction l as [|x l IH]; intros best m H.
  - left. split; [symmetry; exact H|]. intros x [].
  - cbn [max_from] in H. destruct (key best <? key x) eqn:Hx.
    + apply Nat.ltb_lt in Hx. apply IH in H.
      destruct H as [[-> Hl]|(before & after & -> & Hb & Hbefore & Hafter)].
      * right. exists [], l. split; [reflexivity|]. split; [exact Hx|].
        split; [intros y []|exact Hl].
      * right. exists (x :: before), after. split; [reflexivity|].
        split; [lia|]. split; [|exact Hafter].
        intros y [<-|Hy]; [exact Hb|apply Hbefore; exact Hy].
    + apply Nat.ltb_ge in Hx. apply IH in H.
      destruct H as [[-> Hl]|(before & after & -> & Hb & Hbefore & Hafter)].
      * left. split; [reflexivity|]. intros y [<-|Hy]; [exact Hx|apply Hl; exact Hy].
      * right. exists (x :: before), after. split; [reflexivity|].
        split; [exact Hb|]. split; [|exact Hafter].
        intros y [<-|Hy]; [lia|apply Hbefore; exact Hy].
Qed.

Lemma py_max_inv l m :
  py_max key l = Ok m ->
  exists before after,
    l = before ++ m :: after
    /\ (forall x, In x before -> key x < key m)
    /\ (forall x, In x after -> key x <= key m).
Proof.
  destruct l as [|b l]; [discriminate|]. cbn [py_max]. intros [= H].
  apply max_from_inv in H.
  destruct H as [[-> Hl]|(before & after & -> & Hb & Hbefore & Hafter)].
  - exists [], l. split; [reflexivity|]. split; [intros x []|exact Hl].
  - exists (b :: before), after. split; [reflexivity|]. split; [|exact Hafter].
    intros y [<-|Hy]; [exact Hb|apply Hbefore; exact Hy].
Qed.

End Max.

(** A place in a filtered list is a place in the list. *)
Lemma filter_split {A : Type} (f : A -> bool) l : forall b m a,
  List.filter f l = b ++ m :: a ->
  exists b' a', l = b' ++ m :: a' /\ List.filter f b' = b /\ List.filter f a' = a
                /\ f m = true.
Proof.
  induction l as [|x l IH]; intros b m a H.
  - destruct b; discriminate.
  - cbn [List.filter] in H. destruct (f x) eqn:Hx.
    + destruct b as [|y b].
      * injection H as Hxm H. subst x. exists [], l. rewrite Hx. auto.
      * injection H as Hxy H. subst y. apply IH in H.
        destruct H as (b' & a' & -> & Hb & Ha & Hm).
        exists (x :: b'), a'. cbn [List.filter]. rewrite Hx, Hb. auto.
    + apply IH in H. destruct H as (b' & a' & -> & Hb & Ha & Hm).
      exists (x :: b'), a'. cbn [List.filter]. rewrite Hx. auto.
Qed.

Lemma filter_nil {A : Type} (f : A -> bool) l :
  (forall x, In x l -> f x = false) -> List.filter f l = [].
Proof.
  induction l as [|x l IH]; intros H; [reflexivity|]. cbn [List.filter].
  rewrite (H x) by (left; reflexivity). apply IH. intros y Hy. apply H. right. exact Hy.
Qed.

Lemma nonempty_false {A : Type} (l : list A) : nonempty l = false -> l = [].
Proof. destruct l; [reflexivity|discriminate]. Qed.

(** The text chosen among the matches of the raw text is the one
    [validate_phone] goes on with. *)
Lemma best_candidate_chosen raw_text m :
  chosen (re_findall PHONE_REGEX (re_sub PARENS delete raw_text)) m ->
  best_candidate raw_text = Ok (Some m).
Proof.
  unfold best_candidate. cbv zeta.
  generalize (re_findall PHONE_REGEX (re_sub PARENS delete raw_text)). intros l.
  intros (before & after & -> & Hm & Hplus & Hbefore & Hafter).
  rewrite List.filter_app. cbn [List.filter].
  assert (H7 : (7 <=? length (digits_of m)) = true) by (apply Nat.leb_le; exact Hm).
  rewrite H7.
  set (f7 := fun c : str => 7 <=? length (digits_of c)).
  assert (Hne : nonempty (List.filter f7 before ++ m :: List.filter f7 after) = true).
  { unfold nonempty. rewrite length_app. simpl. destruct (length _ + _) eqn:E; [lia|reflexivity]. }
  rewrite Hne.
  destruct (starts_plus m) eqn:Hp.
  - rewrite List.filter_app. cbn [List.filter]. unfold starts_plus in Hp. rewrite Hp.
    match goal with |- context [nonempty ?l] =>
      assert (Hne' : nonempty l = true)
        by (unfold nonempty; rewrite length_app; simpl;
            destruct (length _ + _) eqn:E; [lia|reflexivity]) end.
    rewrite Hne'.
    rewrite py_max_first; [reflexivity| |].
    + intros x Hx. apply filter_In in Hx. destruct Hx as [Hx Hxp].
      apply filter_In in Hx. destruct Hx as [Hx Hx7].
      apply (Hbefore x Hx). split; [apply Nat.leb_le; exact Hx7|].
      intros _. exact Hxp.
    + intros x Hx. apply filter_In in Hx. destruct Hx as [Hx Hxp].
      apply filter_In in Hx. destruct Hx as [Hx Hx7].
      apply (Hafter x Hx). split; [apply Nat.leb_le; exact Hx7|].
      intros _. exact Hxp.
  - rewrite (filter_nil (Str.startswith (py "+"))).
    2:{ intros x Hx.
        assert (Hx' : In x (List.filter f7 (before ++ m :: after))).
        { rewrite List.filter_app. cbn [List.filter]. unfold f7 at 2. rewrite H7. exact Hx. }
        apply filter_In in Hx'. destruct Hx' as [Hx1 Hx7].
        apply (Hplus eq_refl x Hx1). apply Nat.leb_le. exact Hx7. }
    cbn [nonempty length Nat.eqb negb].
    rewrite py_max_first; [reflexivity| |].
    + intros x Hx. apply filter_In in Hx. destruct Hx as [Hx Hx7].
      apply (Hbefore x Hx). split; [apply Nat.leb_le; exact Hx7|].
      intros E. rewrite E in Hp. discriminate.
    + intros x Hx. apply filter_In in Hx. destruct Hx as [Hx Hx7].
      apply (Hafter x Hx). split; [apply Nat.leb_le; exact Hx7|].
      intros E. rewrite E in Hp. discriminate.
Qed.

Lemma best_candidate_none raw_text :
  (forall x, In x (re_findall PHONE_REGEX (re_sub PARENS delete raw_text)) ->
             digit_count x < 7) ->
  best_candidate raw_text = Ok None.
Proof.
  intros H. unfold best_candidate. cbv zeta. rewrite filter_nil; [reflexivity|].
  intros x Hx. apply Nat.leb_gt. apply H. exact Hx.
Qed.

(** Some text is chosen as soon as one has seven digits or more. *)
Lemma chosen_exists l x :
  In x l -> 7 <= digit_count x -> exists m, chosen l m.
Proof.
  intros Hx H7.
  set (f7 := fun c : str => 7 <=? length (digits_of c)).
  assert (Hv : In x (List.filter f7 l))
    by (apply filter_In; split; [exact Hx|apply Nat.leb_le; exact H7]).
  destruct (nonempty (List.filter (Str.startswith (py "+")) (List.filter f7 l))) eqn:Hp.
  - destruct (py_max_ok (fun x => length (digits_of x)) _ Hp) as (m & Hmax & _).
    apply py_max_inv in Hmax. destruct Hmax as (b & a & Hl & Hb & Ha).
    apply filter_split in Hl. destruct Hl as (b1 & a1 & Hl & Hb1 & Ha1 & Hmp).
    apply filter_split in Hl. destruct Hl as (b2 & a2 & Hl & Hb2 & Ha2 & Hm7).
    exists m, b2, a2. split; [exact Hl|]. split; [apply Nat.leb_le; exact Hm7|].
    split; [intros E; unfold starts_plus in E; congruence|]. split.
    + intros y Hy [Hy7 Hyp]. apply Hb. rewrite <- Hb1, <- Hb2.
      apply filter_In. split; [apply filter_In; split; [exact Hy|apply Nat.leb_le; exact Hy7]|].
      apply Hyp. exact Hmp.
    + intros y Hy [Hy7 Hyp]. apply Ha. rewrite <- Ha1, <- Ha2.
      apply filter_In. split; [apply filter_In; split; [exact Hy|apply Nat.leb_le; exact Hy7]|].
      apply Hyp. exact Hmp.
  - apply nonempty_false in Hp.
    assert (Hne : nonempty (List.filter f7 l) = true).
    { destruct (List.filter f7 l); [destruct Hv|reflexivity]. }
    destruct (py_max_ok (fun x => length (digits_of x)) _ Hne) as (m & Hmax & _).
    apply py_max_inv in Hmax. destruct Hmax as (b & a & Hl & Hb & Ha).
    apply filter_split in Hl. destruct Hl as (b2 & a2 & Hl & Hb2 & Ha2 & Hm7).
    assert (Hnoplus : forall y, In y l -> 7 <= digit_count y -> starts_plus y = false).
    { intros y Hy Hy7. destruct (starts_plus y) eqn:E; [|reflexivity].
      assert (Hin : In y (List.filter (Str.startswith (py "+")) (List.filter f7 l))).
      { apply filter_In. split; [apply filter_In; split; [exact Hy|apply Nat.leb_le; exact Hy7]|exact E]. }
      rewrite Hp in Hin. destruct Hin. }
    exists m, b2, a2. split; [exact Hl|]. split; [apply Nat.leb_le; exact Hm7|].
    split; [intros _; exact Hnoplus|]. split.
    + intros y Hy [Hy7 _]. apply Hb. rewrite <- Hb2.
      apply filter_In. split; [exact Hy|apply Nat.leb_le; exact Hy7].
    + intros y Hy [Hy7 _]. apply Ha. rewrite <- Ha2.
      apply filter_In. split; [exact Hy|apply Nat.leb_le; exact Hy7].
Qed.

(** Without a match in the candidate, the result is made of the choice in
    the raw text. *)
Lemma validate_phone_fallback n phone raw_text :
  re_search PHONE_REGEX (re_sub PARENS delete phone) = None ->
  validate_phone_rec (S (S n)) (PStr phone) raw_text
  = match best_candidate raw_text with
    | Ok (Some c) => format_phone c
    | Ok None => Ok (py "N/A")
    | Raise e => Raise e
    end.
Proof.
  intros Hs. cbn [validate_phone_rec]. rewrite Hs.
  destruct (best_candidate_spec raw_text) as [->|(c & -> & Hin & _)]; [reflexivity|].
  cbn [mbind result_bind].
  rewrite (findall_phone_whole _ _ Hin). reflexivity.
Qed.

Lemma ends_phone_tail post : ends_phone post = true -> phone_tail post = post.
Proof.
  destruct post as [|c post]; [reflexivity|]. cbn [ends_phone phone_tail].
  intros H. apply andb_prop in H as [Hd Hs].
  apply negb_true_iff in Hd. apply negb_true_iff in Hs. rewrite Hd.
  destruct (sep_class c); [|reflexivity]. cbn [andb] in Hs.
  destruct post as [|d post]; [reflexivity|]. cbn [starts_with_class] in Hs.
  rewrite Hs. reflexivity.
Qed.

(** A text the scanner takes whole is taken, and no more, before a text
    that does not continue it. *)
Lemma phone_tail_app post n : forall body,
  length body <= n ->
  phone_tail body = [] -> ends_phone post = true ->
  phone_tail (body ++ post) = post.
Proof.
  induction n as [|n IH]; intros body Hn Hb Hp.
  - destruct body; [|simpl in Hn; lia]. apply ends_phone_tail. exact Hp.
  - destruct body as [|c body]; [apply ends_phone_tail; exact Hp|].
    simpl in Hn. cbn [phone_tail app] in *.
    destruct (Char.is_digit c).
    + apply IH; [lia|exact Hb|exact Hp].
    + destruct (sep_class c); [|discriminate].
      destruct body as [|d body]; [discriminate|]. cbn [app].
      destruct (Char.is_digit d); [|discriminate].
      simpl in Hn. apply IH; [lia|exact Hb|exact Hp].
Qed.

Lemma no_digit_ends_phone s :
  Forall (fun c => no_digit c = true) s -> ends_phone s = true.
Proof.
  intros H. destruct s as [|c s]; [reflexivity|].
  inversion H as [|? ? Hc Hs]; subst. cbn [ends_phone].
  unfold no_digit in Hc. rewrite Hc. cbn [andb].
  destruct s as [|d s]; [rewrite andb_false_r; reflexivity|].
  inversion Hs as [|? ? Hd _]; subst. unfold no_digit in Hd.
  apply negb_true_iff in Hd. cbn [starts_with_class]. rewrite Hd, andb_false_r.
  reflexivity.
Qed.

Lemma no_digit_start s :
  Forall (fun c => no_digit c = true) s -> starts_with_class Char.is_digit s = false.
Proof.
  intros H. destruct s as [|c s]; [reflexivity|].
  inversion H as [|? ? Hc _]; subst. apply negb_true_iff in Hc. exact Hc.
Qed.

Lemma matches_of_skipped c ps : matches_of (Skipped c :: ps) = matches_of ps.
Proof. reflexivity. Qed.

Lemma matches_of_matched m ps : matches_of (Matched m :: ps) = m :: matches_of ps.
Proof. reflexivity. Qed.

(** [finditer] finds nothing in a text without digits. *)
Lemma scan_no_digit s : forall fuel prev,
  Forall (fun c => no_digit c = true) s ->
  matches_of (scan PHONE_REGEX fuel prev s) = [].
Proof.
  induction s as [|c s IH]; intros fuel prev H; destruct fuel as [|fuel];
    try reflexivity; cbn [scan]; rewrite match_here_phone.
  - reflexivity.
  - inversion H as [|? ? Hc Hs]; subst.
    rewrite phone_here_no_digit; [|exact Hc|apply no_digit_start; exact Hs].
    rewrite matches_of_skipped. apply IH. exact Hs.
Qed.

(** [finditer] walks over text without digits. *)
Lemma scan_skip pre s : forall fuel prev,
  Forall (fun c => no_digit c = true) pre ->
  starts_with_class Char.is_digit s = false ->
  matches_of (scan PHONE_REGEX fuel prev (pre ++ s))
  = matches_of (scan PHONE_REGEX (fuel - length pre) (last_char prev pre) s).
Proof.
  induction pre as [|c pre IH]; intros fuel prev Hpre Hs.
  - cbn [app length]. rewrite Nat.sub_0_r. reflexivity.
  - inversion Hpre as [|? ? Hc Hpre']; subst.
    destruct fuel as [|fuel]; [reflexivity|].
    cbn [app scan length]. rewrite match_here_phone.
    rewrite phone_here_no_digit; [|exact Hc|].
    2:{ destruct pre as [|c' pre']; [exact Hs|].
        inversion Hpre' as [|? ? Hc' _]; subst. apply negb_true_iff in Hc'. exact Hc'. }
    rewrite matches_of_skipped, last_char_cons. cbn [Nat.sub]. apply IH; assumption.
Qed.

(** A text that starts with "+" and a digit and is taken whole by the
    scanner is the one match of [finditer] when it stands between texts
    without digits. *)
Lemma findall_isolated pre d body post :
  Forall (fun c => no_digit c = true) pre ->
  Char.is_digit d = true ->
  phone_tail body = [] ->
  Forall (fun c => no_digit c = true) post ->
  re_findall PHONE_REGEX (pre ++ ("+"%char :: d :: body) ++ post)
  = ["+"%char :: d :: body].
Proof.
  intros Hpre Hd Hb Hpost. unfold re_findall, pieces.
  rewrite scan_skip; [|exact Hpre|reflexivity].
  rewrite !length_app. cbn [length].
  replace (S (length pre + (S (S (length body)) + length post)) - length pre)
    with (S (S (S (length body + length post)))) by lia.
  generalize (S (S (length body + length post))). intros fuel.
  cbn [scan]. rewrite match_here_phone.
  cbn [app phone_here]. change (Ascii.eqb "+" "+") with true. cbv iota.
  rewrite Hd.
  rewrite (phone_tail_app post (length body) body (le_n _) Hb
             (no_digit_ends_phone _ Hpost)).
  change ("+"%char :: d :: body ++ post) with (("+"%char :: d :: body) ++ post).
  rewrite consumed_app. cbn [app]. cbv beta iota zeta.
  rewrite matches_of_matched, scan_no_digit by exact Hpost. reflexivity.
Qed.

End ChoiceFacts.

(** ** The pattern of capitalized words as a scanner *)

Module PhraseFacts.

Import ReSpec Scanner PhraseSpec PhraseScanner ReFacts PhoneFacts.

Lemma lower_is_word c : Char.is_lower c = true -> Char.is_word c = true.
Proof.
  unfold Char.is_word, Char.is_alpha. intros ->. rewrite orb_true_r. reflexivity.
Qed.

Lemma upper_is_word c : Char.is_upper c = true -> Char.is_word c = true.
Proof. unfold Char.is_word, Char.is_alpha. intros ->. reflexivity. Qed.

Lemma lower_not_space c : Char.is_lower c = true -> Char.is_space c = false.
Proof.
  unfold Char.is_lower, Char.is_space, Char.between. intros H.
  apply andb_prop in H as [H1 H2]. apply Nat.leb_le in H1.
  change (Char.code "a") with 97 in H1.
  repeat match goal with
         | |- context [?a <=? ?b] =>
             let E := fresh in
             destruct (Nat.leb_spec a b) as [E|E]; try lia
         | |- context [?a =? ?b] =>
             let E := fresh in
             destruct (Nat.eqb_spec a b) as [E|E]; try lia
         end; reflexivity.
Qed.

Lemma space_not_word c : Char.is_space c = true -> Char.is_word c = false.
Proof.
  intros H. destruct c as [b0 b1 b2 b3 b4 b5 b6 b7];
    destruct b0, b1, b2, b3, b4, b5, b6, b7;
    first [discriminate H | reflexivity].
Qed.

Lemma run_last_word p prev s :
  (forall c, p c = true -> Char.is_word c = true) ->
  word_before prev = true -> word_before (run_last p prev s) = true.
Proof.
  intros Hp. revert prev. induction s as [|c s IH]; intros prev H; [exact H|].
  cbn [run_last]. destruct (p c) eqn:Hc; [|exact H].
  apply IH. cbn [word_before]. apply Hp. exact Hc.
Qed.

(** A greedy repetition of a class takes the longest run also when the
    rest of the pattern may fail, as long as it fails inside the run. *)
Lemma greedy_class_backtrack (p : ascii -> bool) k :
  (forall c, p c = true -> Char.is_word c = true) ->
  (forall prev c t, word_before prev = true -> p c = true -> k prev (c :: t) = None) ->
  forall s fuel lo prev,
    length s <= fuel ->
    (lo = 0 /\ word_before prev = true) \/ (lo = 1 /\ starts_with_class p s = true) ->
    repeat_loop (rmatch (Class p)) k true fuel lo None prev s
    = k (run_last p prev s) (run_rest p s).
Proof.
  intros Hp Hk. induction s as [|c s IH]; intros fuel lo prev Hfuel Hlo;
    rewrite repeat_loop_unfold; cbv zeta.
  - destruct Hlo as [[-> _]|[_ ?]]; [|discriminate].
    destruct fuel; reflexivity.
  - destruct fuel as [|fuel]; [simpl in Hfuel; lia|]. simpl in Hfuel.
    cbn [hi_is_zero pred_hi]. rewrite rmatch_class. cbn [run_last run_rest].
    destruct (p c) eqn:Hc.
    + assert (Hlt : (length s <? length (c :: s)) = true)
        by (apply Nat.ltb_lt; simpl; lia).
      rewrite Hlt.
      assert (Hin : repeat_loop (rmatch (Class p)) k true fuel (pred lo) None (Some c) s
                    = k (run_last p (Some c) s) (run_rest p s)).
      { apply IH; [lia|]. left. split.
        - destruct Hlo as [[-> _]|[-> _]]; reflexivity.
        - cbn [word_before]. apply Hp. exact Hc. }
      rewrite Hin.
      destruct Hlo as [[-> Hw]|[-> _]]; [|reflexivity].
      destruct (k (run_last p (Some c) s) (run_rest p s)) eqn:E; [reflexivity|].
      cbn [or_else]. apply Hk; assumption.
    + destruct Hlo as [[-> _]|[_ H]]; [reflexivity|].
      cbn [starts_with_class] in H. congruence.
Qed.

Lemma capitalized_run_eq hi :
  capitalized_run hi
  = Seq WordBoundary (Seq capitalized (Seq (Repeat true 1 (Some hi) WORD_GROUP) WordBoundary)).
Proof. reflexivity. Qed.

(** One capitalized word, before a rest of the pattern that fails inside
    a word. *)
Lemma capitalized_step k prev s :
  (forall prev' c t, word_before prev' = true -> Char.is_lower c = true ->
                     k prev' (c :: t) = None) ->
  rmatch capitalized k prev s
  = match s with
    | u :: s' =>
        if Char.is_upper u && starts_with_class Char.is_lower s'
        then k (run_last Char.is_lower (Some u) s') (run_rest Char.is_lower s')
        else None
    | [] => None
    end.
Proof.
  intros Hk. change capitalized with (Seq (Class Char.is_upper) (Plus (Class Char.is_lower))).
  rewrite rmatch_seq, rmatch_class.
  destruct s as [|u s']; [reflexivity|].
  destruct (Char.is_upper u); [|reflexivity]. cbn [andb].
  unfold Plus. rewrite rmatch_repeat.
  destruct (starts_with_class Char.is_lower s') eqn:Hl.
  - apply (greedy_class_backtrack Char.is_lower k lower_is_word Hk); [lia|].
    right. auto.
  - apply greedy_class_fail. exact Hl.
Qed.

Lemma word_rest_length s t : word_rest s = Some t -> length t < length s.
Proof.
  destruct s as [|u s']; [discriminate|]. cbn [word_rest].
  destruct (_ && _); [|discriminate]. intros [= <-].
  pose proof (run_rest_length Char.is_lower s'). simpl. lia.
Qed.

Lemma group_rest_length s t : group_rest s = Some t -> length t < length s.
Proof.
  destruct s as [|sp s']; [discriminate|]. cbn [group_rest].
  destruct (Char.is_space sp); [|discriminate]. intros H.
  apply word_rest_length in H. simpl. lia.
Qed.

Lemma groups_rest_lower h c t :
  Char.is_lower c = true -> groups_rest h (c :: t) = None.
Proof.
  intros Hc. assert (Hw : word_after (c :: t) = true) by (apply lower_is_word; exact Hc).
  destruct h; cbn [groups_rest group_rest]; rewrite Hw;
    rewrite ?(lower_not_space c Hc); reflexivity.
Qed.

Lemma boundary_after_word prev s :
  word_before prev = true ->
  k_boundary prev s = if word_after s then None else Some s.
Proof.
  intros H. unfold k_boundary. rewrite rmatch_boundary. unfold at_boundary.
  rewrite H. destruct (word_after s); reflexivity.
Qed.

(** One group, before a rest of the pattern that fails inside a word. *)
Lemma word_group_step k prev s :
  (forall prev' c t, word_before prev' = true -> Char.is_lower c = true ->
                     k prev' (c :: t) = None) ->
  rmatch WORD_GROUP k prev s
  = match s with
    | sp :: u :: s' =>
        if Char.is_space sp && Char.is_upper u && starts_with_class Char.is_lower s'
        then k (run_last Char.is_lower (Some u) s') (run_rest Char.is_lower s')
        else None
    | _ => None
    end.
Proof.
  intros Hk. change WORD_GROUP with (Seq (Class Char.is_space) capitalized).
  rewrite rmatch_seq, rmatch_class.
  destruct s as [|sp s1]; [reflexivity|].
  destruct (Char.is_space sp); [|destruct s1; reflexivity]. cbn [andb].
  rewrite capitalized_step by exact Hk. destruct s1; reflexivity.
Qed.

Lemma group_rest_eq s :
  group_rest s
  = match s with
    | sp :: u :: s' =>
        if Char.is_space sp && Char.is_upper u && starts_with_class Char.is_lower s'
        then Some (run_rest Char.is_lower s')
        else None
    | _ => None
    end.
Proof.
  destruct s as [|sp [|u s']]; cbn [group_rest word_rest]; [reflexivity| |];
    destruct (Char.is_space sp); reflexivity.
Qed.

(** The greedy repetition of the group, once the groups asked for are
    taken. *)
Lemma groups_loop h : forall s fuel prev,
  length s <= fuel -> word_before prev = true ->
  repeat_loop (rmatch WORD_GROUP) k_boundary true fuel 0 (Some h) prev s
  = groups_rest h s.
Proof.
  induction h as [|h IH]; intros s fuel prev Hfuel Hw;
    rewrite repeat_loop_unfold; cbv zeta.
  - cbn [hi_is_zero groups_rest].
    replace (match fuel with 0 => None | S _ => None end) with (@None str)
      by (destruct fuel; reflexivity).
    cbn [or_else]. apply boundary_after_word. exact Hw.
  - cbn [hi_is_zero pred pred_hi groups_rest].
    rewrite <- (boundary_after_word prev s Hw).
    destruct fuel as [|fuel].
    { destruct s; [reflexivity|simpl in Hfuel; lia]. }
    rewrite word_group_step.
    2:{ intros prev' c t Hw' Hc.
        destruct (length (c :: t) <? length s) eqn:Hlt; [|reflexivity].
        apply Nat.ltb_lt in Hlt. rewrite IH by (assumption || lia).
        apply groups_rest_lower. exact Hc. }
    rewrite group_rest_eq.
    destruct s as [|sp [|u s']]; try reflexivity.
    destruct (Char.is_space sp && Char.is_upper u && starts_with_class Char.is_lower s')
      eqn:Hg; [|reflexivity].
    pose proof (run_rest_length Char.is_lower s') as Hrun.
    assert (Hlt : (length (run_rest Char.is_lower s') <? length (sp :: u :: s')) = true)
      by (apply Nat.ltb_lt; simpl; lia).
    rewrite Hlt. simpl in Hfuel.
    rewrite IH; [| lia |].
    + destruct (groups_rest h (run_rest Char.is_lower s')); reflexivity.
    + apply run_last_word; [exact lower_is_word|].
      apply andb_prop in Hg as [Hg _]. apply andb_prop in Hg as [_ Hu].
      apply upper_is_word. exact Hu.
Qed.

(** The repetition from its start: one group at least. *)
Lemma groups_loop_first h s prev :
  repeat_loop (rmatch WORD_GROUP) k_boundary true (length s) 1 (Some (S h)) prev s
  = match group_rest s with
    | Some s' => groups_rest h s'
    | None => None
    end.
Proof.
  rewrite repeat_loop_unfold; cbv zeta. cbn [hi_is_zero pred pred_hi].
  destruct s as [|sp s1]; [reflexivity|]. cbn [length].
  rewrite word_group_step.
  2:{ intros prev' c t Hw' Hc.
      destruct (length (c :: t) <? S (length s1)) eqn:Hlt; [|reflexivity].
      apply Nat.ltb_lt in Hlt. simpl in Hlt. rewrite groups_loop by (assumption || simpl; lia).
      apply groups_rest_lower. exact Hc. }
  rewrite group_rest_eq.
  destruct s1 as [|u s']; [reflexivity|].
  destruct (Char.is_space sp && Char.is_upper u && starts_with_class Char.is_lower s')
    eqn:Hg; [|reflexivity].
  pose proof (run_rest_length Char.is_lower s') as Hrun.
  assert (Hlt : (length (run_rest Char.is_lower s') <? S (length (u :: s'))) = true)
    by (apply Nat.ltb_lt; simpl; lia).
  rewrite Hlt. apply groups_loop; [simpl; lia|].
  apply run_last_word; [exact lower_is_word|].
  apply andb_prop in Hg as [Hg _]. apply andb_prop in Hg as [_ Hu].
  apply upper_is_word. exact Hu.
Qed.

(** The matcher on the pattern of capitalized words is the scanner. *)
Theorem match_here_phrase h prev s :
  match_here (capitalized_run (S h)) prev s = phrase_here h prev s.
Proof.
  unfold match_here, phrase_here.
  rewrite capitalized_run_eq, rmatch_seq, rmatch_boundary.
  destruct (at_boundary prev s); [|reflexivity].
  rewrite rmatch_seq.
  rewrite capitalized_step.
  2:{ intros prev' c t Hw Hc. rewrite rmatch_seq, rmatch_repeat.
      fold k_end. fold k_boundary. rewrite groups_loop_first.
      cbn [group_rest]. rewrite (lower_not_space c Hc). reflexivity. }
  destruct s as [|u s']; [reflexivity|]. cbn [word_rest].
  destruct (Char.is_upper u && starts_with_class Char.is_lower s'); [|reflexivity].
  rewrite rmatch_seq, rmatch_repeat. fold k_end. fold k_boundary.
  apply groups_loop_first.
Qed.

(** *** The scanner against the phrases *)

Lemma run_rest_split (p : ascii -> bool) s :
  exists b, s = b ++ run_rest p s
            /\ Forall (fun c => p c = true) b
            /\ starts_with_class p (run_rest p s) = false.
Proof.
  induction s as [|c s (b & Hs & Hb & Hr)].
  - exists []. repeat split. constructor.
  - cbn [run_rest]. destruct (p c) eqn:Hc.
    + exists (c :: b). split; [simpl; f_equal; exact Hs|].
      split; [constructor; assumption|exact Hr].
    + exists []. split; [reflexivity|]. split; [constructor|exact Hc].
Qed.

Lemma run_rest_app (p : ascii -> bool) b rest :
  Forall (fun c => p c = true) b -> starts_with_class p rest = false ->
  run_rest p (b ++ rest) = rest.
Proof.
  induction 1 as [|c b Hc _ IH]; intros Hr.
  - destruct rest as [|d rest]; [reflexivity|]. cbn [app run_rest].
    cbn [starts_with_class] in Hr. rewrite Hr. reflexivity.
  - cbn [app run_rest]. rewrite Hc. apply IH. exact Hr.
Qed.

Lemma word_rest_app w rest :
  cap_word w -> starts_with_class Char.is_lower rest = false ->
  word_rest (w ++ rest) = Some rest.
Proof.
  intros [u l ls Hu Hl Hls] Hr. cbn [app word_rest starts_with_class run_rest].
  rewrite Hu, Hl. cbn [andb]. f_equal. apply run_rest_app; assumption.
Qed.

Lemma word_rest_inv s t :
  word_rest s = Some t ->
  exists w, s = w ++ t /\ cap_word w /\ starts_with_class Char.is_lower t = false.
Proof.
  destruct s as [|u s']; [discriminate|]. cbn [word_rest].
  destruct (Char.is_upper u) eqn:Hu; [|discriminate]. cbn [andb].
  destruct s' as [|l s'']; [discriminate|]. cbn [starts_with_class run_rest].
  destruct (Char.is_lower l) eqn:Hl; [|discriminate]. intros [= <-].
  destruct (run_rest_split Char.is_lower s'') as (b & Hs & Hb & Hr).
  exists (u :: l :: b). split; [simpl; do 2 f_equal; exact Hs|].
  split; [constructor; assumption|exact Hr].
Qed.

Lemma space_not_lower sp : Char.is_space sp = true -> Char.is_lower sp = false.
Proof.
  intros H. destruct (Char.is_lower sp) eqn:E; [|reflexivity].
  rewrite (lower_not_space sp E) in H. discriminate.
Qed.

Lemma phrase_positive n m : phrase n m -> exists n', n = S n'.
Proof. intros [w _|n' w sp p _ _ _]; eauto. Qed.

Lemma cap_word_nonempty w : cap_word w -> w <> [].
Proof. intros [u l ls _ _ _]. discriminate. Qed.

Lemma phrase_nonempty n m : phrase n m -> m <> [].
Proof.
  intros [w Hw|n' w sp p Hw _ _]; [apply cap_word_nonempty; exact Hw|].
  destruct w; discriminate.
Qed.

(** A phrase before a text that does not go on with a lower-case letter is
    a word and groups, as the scanner takes them. *)
Lemma phrase_groups n m :
  phrase n m ->
  forall rest, starts_with_class Char.is_lower rest = false ->
  exists s1, word_rest (m ++ rest) = Some s1 /\ take_groups (pred n) s1 = Some rest.
Proof.
  induction 1 as [w Hw|n w sp p Hw Hsp Hp IH]; intros rest Hr.
  - exists rest. split; [apply word_rest_app; assumption|reflexivity].
  - destruct (IH rest Hr) as (s1 & Hs1 & Ht).
    destruct (phrase_positive _ _ Hp) as [n' ->]. cbn [pred] in *.
    exists (sp :: p ++ rest). rewrite <- app_assoc. cbn [app]. split.
    + apply word_rest_app; [exact Hw|]. cbn [starts_with_class].
      apply space_not_lower. exact Hsp.
    + cbn [take_groups group_rest]. rewrite Hsp, Hs1. exact Ht.
Qed.

Lemma groups_phrase n : forall s s1 t,
  word_rest s = Some s1 -> take_groups n s1 = Some t ->
  exists m, s = m ++ t /\ phrase (S n) m.
Proof.
  induction n as [|n IH]; intros s s1 t Hw Ht.
  - injection Ht as <-. apply word_rest_inv in Hw. destruct Hw as (w & -> & Hw & _).
    exists w. split; [reflexivity|constructor; exact Hw].
  - cbn [take_groups] in Ht.
    destruct (group_rest s1) as [s2|] eqn:Hg; [|discriminate].
    destruct s1 as [|sp s1']; [discriminate|]. cbn [group_rest] in Hg.
    destruct (Char.is_space sp) eqn:Hsp; [|discriminate].
    destruct (IH s1' s2 t Hg Ht) as (m' & -> & Hm').
    apply word_rest_inv in Hw. destruct Hw as (w & -> & Hw & _).
    exists (w ++ sp :: m'). split; [rewrite <- app_assoc; reflexivity|].
    constructor; assumption.
Qed.

Lemma cap_word_last prev w : cap_word w -> word_before (last_char prev w) = true.
Proof.
  intros [u l ls Hu Hl Hls].
  change (u :: l :: ls) with ([u] ++ l :: ls). rewrite last_char_app.
  revert l Hl. induction Hls as [|c ls Hc _ IH]; intros l Hl.
  - cbn. apply lower_is_word. exact Hl.
  - change (l :: c :: ls) with ([l] ++ c :: ls). rewrite last_char_app.
    rewrite last_char_one. generalize (IH c Hc).
    change (last_char (last_char prev [u]) (c :: ls))
      with (last_char (last_char prev [u]) ([] ++ c :: ls)).
    intros H. unfold last_char in *. cbn [rev app] in *.
    destruct (rev ls ++ [c]) eqn:E; [destruct (rev ls); discriminate|exact H].
Qed.

Lemma phrase_last n m :
  phrase n m -> forall prev, word_before (last_char prev m) = true.
Proof.
  induction 1 as [w Hw|n w sp p Hw Hsp Hp IH]; intros prev.
  - apply cap_word_last. exact Hw.
  - change (sp :: p) with ([sp] ++ p). rewrite app_assoc, last_char_app. apply IH.
Qed.

Lemma phrase_first n m rest : phrase n m -> word_after (m ++ rest) = true.
Proof.
  intros [w [u l ls Hu _ _]|n' w sp p [u l ls Hu _ _] _ _]; cbn;
    apply upper_is_word; exact Hu.
Qed.

Lemma take_groups_length n : forall s t,
  take_groups n s = Some t -> length t <= length s.
Proof.
  induction n as [|n IH]; intros s t H.
  - injection H as <-. lia.
  - cbn [take_groups] in H. destruct (group_rest s) as [s'|] eqn:Hg; [|discriminate].
    apply group_rest_length in Hg. apply IH in H. lia.
Qed.

Lemma take_groups_more k : forall d s t t',
  take_groups k s = Some t -> take_groups (k + d) s = Some t' ->
  length t' <= length t.
Proof.
  induction k as [|k IH]; intros d s t t' H H'.
  - injection H as <-. apply take_groups_length in H'. exact H'.
  - cbn [take_groups Nat.add] in H, H'.
    destruct (group_rest s) as [s'|]; [|discriminate]. eapply IH; eauto.
Qed.

(** When the scanner gives up, no number of groups ends at a boundary. *)
Lemma groups_rest_none h : forall s,
  groups_rest h s = None ->
  forall k t, k <= h -> take_groups k s = Some t -> word_after t = true.
Proof.
  induction h as [|h IH]; intros s H k t Hk Ht.
  - assert (k = 0) by lia. subst k. injection Ht as <-. cbn [groups_rest] in H.
    destruct (word_after s); [reflexivity|discriminate].
  - cbn [groups_rest] in H. destruct k as [|k].
    + injection Ht as <-.
      destruct (word_after s); [reflexivity|].
      destruct (group_rest s) as [s'|]; [|discriminate].
      destruct (groups_rest h s'); discriminate.
    + cbn [take_groups] in Ht.
      destruct (group_rest s) as [s'|]; [|discriminate].
      destruct (groups_rest h s') eqn:Hg; [discriminate|].
      apply (IH s' Hg k t); [lia|exact Ht].
Qed.

(** What the scanner takes is the largest number of groups that ends at a
    boundary. *)
Lemma groups_rest_some h : forall s t,
  groups_rest h s = Some t ->
  exists k, k <= h /\ take_groups k s = Some t /\ word_after t = false
            /\ forall k' t', k' <= h -> take_groups k' s = Some t' ->
                             word_after t' = false -> k' <= k.
Proof.
  induction h as [|h IH]; intros s t H.
  - cbn [groups_rest] in H. destruct (word_after s) eqn:Hw; [discriminate|].
    injection H as <-. exists 0. repeat split; [lia|exact Hw|]. intros; lia.
  - cbn [groups_rest] in H.
    destruct (group_rest s) as [s'|] eqn:Hg.
    + destruct (groups_rest h s') as [t0|] eqn:Hr.
      * injection H as ->. destruct (IH s' t Hr) as (k & Hk & Ht & Hw & Hmax).
        exists (S k). split; [lia|]. split; [cbn [take_groups]; rewrite Hg; exact Ht|].
        split; [exact Hw|]. intros [|k'] t' Hk' Ht' Hw'; [lia|].
        cbn [take_groups] in Ht'. rewrite Hg in Ht'.
        specialize (Hmax k' t' ltac:(lia) Ht' Hw'). lia.
      * destruct (word_after s) eqn:Hw; [discriminate|]. injection H as <-.
        exists 0. split; [lia|]. split; [reflexivity|]. split; [exact Hw|].
        intros [|k'] t' Hk' Ht' Hw'; [lia|]. exfalso.
        cbn [take_groups] in Ht'. rewrite Hg in Ht'.
        rewrite (groups_rest_none h s' Hr k' t') in Hw'; [discriminate|lia|exact Ht'].
    + destruct (word_after s) eqn:Hw; [discriminate|]. injection H as <-.
      exists 0. split; [lia|]. split; [reflexivity|]. split; [exact Hw|].
      intros [|k'] t' Hk' Ht' Hw'; [lia|].
      cbn [take_groups] in Ht'. rewrite Hg in Ht'. discriminate.
Qed.

(** What a phrase at a position is for the scanner. *)
Lemma phrase_at_groups h prev m rest :
  phrase_at (S (S h)) prev m rest ->
  at_boundary prev (m ++ rest) = true
  /\ exists s1 s2 k,
       word_rest (m ++ rest) = Some s1 /\ group_rest s1 = Some s2
       /\ k <= h /\ take_groups k s2 = Some rest /\ word_after rest = false.
Proof.
  intros (n & Hn & Hp & Hb & He). split; [exact Hb|].
  assert (Hw : word_after rest = false).
  { unfold at_boundary in He. rewrite (phrase_last _ _ Hp prev) in He.
    destruct (word_after rest); [discriminate|reflexivity]. }
  assert (Hl : starts_with_class Char.is_lower rest = false).
  { destruct rest as [|c rest]; [reflexivity|]. cbn in *.
    destruct (Char.is_lower c) eqn:E; [|reflexivity].
    rewrite (lower_is_word c E) in Hw. discriminate. }
  destruct (phrase_groups _ _ Hp rest Hl) as (s1 & Hs1 & Ht).
  destruct n as [|[|k]]; [lia|lia|]. cbn [pred take_groups] in Ht.
  destruct (group_rest s1) as [s2|] eqn:Hg; [|discriminate].
  exists s1, s2, k. repeat split; (assumption || lia).
Qed.

Lemma phrase_here_taken h prev s t :
  phrase_here h prev s = Some t ->
  exists m, s = m ++ t /\ taken (S (S h)) prev m t.
Proof.
  unfold phrase_here. intros H.
  destruct (at_boundary prev s) eqn:Hb; [|discriminate].
  destruct (word_rest s) as [s1|] eqn:Hs1; [|discriminate].
  destruct (group_rest s1) as [s2|] eqn:Hs2; [|discriminate].
  apply groups_rest_some in H. destruct H as (k & Hk & Ht & Hw & Hmax).
  assert (Hg : take_groups (S k) s1 = Some t) by (cbn [take_groups]; rewrite Hs2; exact Ht).
  destruct (groups_phrase _ _ _ _ Hs1 Hg) as (m & -> & Hp).
  exists m. split; [reflexivity|]. split.
  - exists (S (S k)). split; [lia|]. split; [exact Hp|]. split; [exact Hb|].
    unfold at_boundary. rewrite (phrase_last _ _ Hp prev), Hw. reflexivity.
  - intros m' rest' Heq Hp'.
    apply phrase_at_groups in Hp'.
    destruct Hp' as (_ & s1' & s2' & k' & Hs1' & Hs2' & Hk' & Ht' & Hw').
    rewrite <- Heq, Hs1 in Hs1'. injection Hs1' as <-.
    rewrite Hs2 in Hs2'. injection Hs2' as <-.
    specialize (Hmax k' rest' Hk' Ht' Hw').
    assert (Hlen : length t <= length rest').
    { replace k with (k' + (k - k')) in Ht by lia.
      exact (take_groups_more _ _ _ _ _ Ht' Ht). }
    apply (f_equal (@length ascii)) in Heq. rewrite !length_app in Heq. lia.
Qed.

Lemma phrase_here_none h prev s :
  phrase_here h prev s = None ->
  forall m rest, s = m ++ rest -> ~ phrase_at (S (S h)) prev m rest.
Proof.
  unfold phrase_here. intros H m rest -> Hp.
  apply phrase_at_groups in Hp.
  destruct Hp as (Hb & s1 & s2 & k & Hs1 & Hs2 & Hk & Ht & Hw).
  rewrite Hb, Hs1, Hs2 in H.
  rewrite (groups_rest_none h s2 H k rest Hk Ht) in Hw. discriminate.
Qed.

Lemma taken_here h prev m rest :
  taken (S (S h)) prev m rest -> phrase_here h prev (m ++ rest) = Some rest.
Proof.
  intros [Hp Hmax].
  destruct (phrase_here h prev (m ++ rest)) as [t|] eqn:H.
  - apply phrase_here_taken in H. destruct H as (m' & Heq & Hp' & Hmax').
    assert (Hlen : length m = length m').
    { apply Nat.le_antisymm.
      - apply (Hmax' m rest); [symmetry; exact Heq|exact Hp].
      - apply (Hmax m' t); [exact Heq|exact Hp']. }
    apply app_inj_1 in Heq; [|exact Hlen]. destruct Heq as [_ ->]. reflexivity.
  - exfalso. exact (phrase_here_none h prev _ H m rest eq_refl Hp).
Qed.

Lemma taken_nonempty most prev m rest : taken most prev m rest -> m <> [].
Proof. intros [(n & _ & Hp & _) _]. exact (phrase_nonempty _ _ Hp). Qed.

Lemma scan_take r fuel prev m t :
  m <> [] -> match_here r prev (m ++ t) = Some t ->
  scan r (S fuel) prev (m ++ t) = Matched m :: scan r fuel (last_char prev m) t.
Proof.
  intros Hm H. cbn [scan]. rewrite H, consumed_app.
  destruct m; [contradiction|reflexivity].
Qed.

(** [findall] lists the phrases found from left to right. *)
Lemma scan_found h : forall fuel prev s,
  length s < fuel ->
  found (S (S h)) prev s (matches_of (scan (capitalized_run (S h)) fuel prev s)).
Proof.
  induction fuel as [|fuel IH]; intros prev s Hfuel; [lia|].
  destruct (phrase_here h prev s) as [t|] eqn:H.
  - destruct (phrase_here_taken _ _ _ _ H) as (m & -> & Ht).
    pose proof (taken_nonempty _ _ _ _ Ht) as Hne.
    rewrite scan_take; [|exact Hne|rewrite match_here_phrase; exact H].
    apply (Found_take _ prev _ m t); [reflexivity|exact Ht|].
    apply IH. rewrite length_app in Hfuel.
    assert (length m <> 0) by (destruct m; [contradiction|discriminate]).
    lia.
  - cbn [scan]. rewrite match_here_phrase, H.
    destruct s as [|c s]; [constructor|].
    apply Found_skip; [intros m rest E; exact (phrase_here_none _ _ _ H m rest E)|].
    apply IH. simpl in Hfuel. lia.
Qed.

(** And there is no other such list. *)
Lemma found_scan h prev s l :
  found (S (S h)) prev s l ->
  forall fuel, length s < fuel ->
  matches_of (scan (capitalized_run (S h)) fuel prev s) = l.
Proof.
  induction 1 as [prev|prev c s l Hno _ IH|prev s m rest l -> Ht _ IH];
    intros fuel Hfuel; (destruct fuel as [|fuel]; [lia|]).
  - cbn [scan]. rewrite match_here_phrase.
    unfold phrase_here. cbn [word_rest].
    destruct (at_boundary prev []); reflexivity.
  - cbn [scan]. rewrite match_here_phrase.
    destruct (phrase_here h prev (c :: s)) as [t|] eqn:H.
    + exfalso. apply phrase_here_taken in H. destruct H as (m & Heq & Hp & _).
      exact (Hno m t Heq Hp).
    + apply IH. simpl in Hfuel. lia.
  - pose proof (taken_nonempty _ _ _ _ Ht) as Hne.
    rewrite scan_take;
      [|exact Hne|rewrite match_here_phrase; apply taken_here; exact Ht].
    change (matches_of (Matched m :: ?ps)) with (m :: matches_of ps).
    f_equal. apply IH. rewrite length_app in Hfuel.
    assert (length m <> 0) by (destruct m; [contradiction|discriminate]). lia.
Qed.

Lemma findall_found h s :
  found (S (S h)) None s (re_findall (capitalized_run (S h)) s).
Proof. apply scan_found. lia. Qed.

Lemma found_findall h s l :
  found (S (S h)) None s l -> re_findall (capitalized_run (S h)) s = l.
Proof. intros H. apply (found_scan _ _ _ _ H). lia. Qed.

End PhraseFacts.

(** ** The extractor *)

Module ExtractorFacts.

Import Contact ValidatorFacts.

Ltac key_ne := let H := fresh in intros H; vm_compute in H; discriminate H.

Lemma five_inserts_bind (d : gmap str pyval) name company description phone email :
  binds_strings
    (<[py "email" := PStr email]>
    (<[py "phone" := PStr phone]>
    (<[py "description" := PStr description]>
    (<[py "company" := PStr company]>
    (<[py "name" := PStr name]> d))))).
Proof.
  unfold binds_strings, FIELDS.
  repeat constructor; eexists;
    repeat (first [ apply lookup_insert_eq
                  | rewrite lookup_insert_ne by key_ne ]).
Qed.

Lemma five_inserts_dom (d : gmap str pyval) name company description phone email :
  dom (<[py "email" := PStr email]>
      (<[py "phone" := PStr phone]>
      (<[py "description" := PStr description]>
      (<[py "company" := PStr company]>
      (<[py "name" := PStr name]> d)))))
  = dom d ∪ field_set.
Proof.
  rewrite !dom_insert_L. unfold field_set, FIELDS. simpl. set_solver.
Qed.

Lemma record_of_contact name company description phone email :
  contact_record (record_of name company description phone email).
Proof.
  split; [|apply five_inserts_bind].
  unfold record_of. rewrite five_inserts_dom, dom_empty_L. set_solver.
Qed.

Lemma unknown_record_contact : contact_record unknown_record.
Proof. apply (record_of_contact (py "N/A") (py "N/A") (py "N/A") (py "N/A") (py "N/A")). Qed.

(** The loop over the keys changes no key. *)
Lemma clean_fields_dom data cleaned :
  clean_fields data = Ok cleaned -> dom cleaned = dom data.
Proof.
  unfold clean_fields.
  assert (H : forall init m d,
            map_fold (fun key v (acc : result (gmap str pyval)) =>
                        d ← acc; v' ← clean_markdown v; Ok (<[key := v']> d))
                     (Ok init) m = Ok d ->
            dom d = dom init ∪ dom m).
  { intros init m.
    apply (map_fold_weak_ind
             (fun r (m : gmap str pyval) => forall d, r = Ok d -> dom d = dom init ∪ dom m)).
    - intros d [= ->]. rewrite dom_empty_L. set_solver.
    - intros i x m0 r Hi IH d Hd.
      destruct r as [d0|e]; [|discriminate]. cbn [mbind result_bind] in Hd.
      destruct (clean_markdown x) as [v'|e]; [|discriminate].
      injection Hd as <-. rewrite !dom_insert_L, (IH d0 eq_refl). set_solver. }
  intros Hc. apply H in Hc. rewrite Hc. set_solver.
Qed.

(** A value the loop cannot clean makes it raise. *)
Lemma clean_fields_raises data key v e :
  data !! key = Some v -> clean_markdown v = Raise e ->
  exists e', clean_fields data = Raise e'.
Proof.
  unfold clean_fields. generalize (Ok data : result (gmap str pyval)).
  intros init. revert key v e.
  apply (map_fold_weak_ind
           (fun r (m : gmap str pyval) =>
              forall key v e, m !! key = Some v -> clean_markdown v = Raise e ->
                              exists e', r = Raise e')).
  - intros key v e H. rewrite lookup_empty in H. discriminate.
  - intros i x m r Hi IH key v e Hk Hv.
    destruct r as [d0|e0]; [|eauto]. cbn [mbind result_bind].
    destruct (decide (i = key)) as [->|Hne].
    + rewrite lookup_insert_eq in Hk. injection Hk as ->. rewrite Hv. eauto.
    + rewrite lookup_insert_ne in Hk by exact Hne.
      destruct (IH key v e Hk Hv) as [e' He']. discriminate.
Qed.

Lemma clean_markdown_raises v :
  truthy v = true -> (forall s, v <> PStr s) -> clean_markdown v = Raise TypeError.
Proof.
  intros Ht Hs. unfold clean_markdown. rewrite Ht.
  destruct v; try reflexivity. destruct (Hs s eq_refl).
Qed.

(** The five assignments, when none raises. *)
Lemma validate_fields_spec data raw d :
  validate_fields data raw = Ok d ->
  exists name company description phone email,
    d = <[py "email" := PStr email]>
        (<[py "phone" := PStr phone]>
        (<[py "description" := PStr description]>
        (<[py "company" := PStr company]>
        (<[py "name" := PStr name]> data)))).
Proof.
  unfold validate_fields. intros H.
  destruct (validate_name _ _) as [name|]; [|discriminate]. cbn [mbind result_bind] in H.
  destruct (validate_company _ _) as [company|]; [|discriminate]. cbn [mbind result_bind] in H.
  destruct (validate_description _ _) as [description|]; [|discriminate]. cbn [mbind result_bind] in H.
  destruct (validate_phone _ _) as [phone|]; [|discriminate]. cbn [mbind result_bind] in H.
  destruct (validate_email _ _) as [email|]; [|discriminate]. cbn [mbind result_bind] in H.
  injection H as <-. eauto 10.
Qed.

(** The regex fallback never raises: it is the record of the five
    validators on "N/A". *)
Lemma regex_fallback_ok raw :
  exists name company description phone email,
    validate_name (PStr (py "N/A")) raw = Ok name
    /\ validate_company (PStr (py "N/A")) raw = Ok company
    /\ validate_description (PStr (py "N/A")) raw = Ok description
    /\ validate_phone (PStr (py "N/A")) raw = Ok phone
    /\ validate_email (PStr (py "N/A")) raw = Ok email
    /\ regex_fallback raw = Ok (record_of name company description phone email).
Proof.
  destruct (validate_name_ok (py "N/A") raw) as [name Hn].
  destruct (validate_company_ok (py "N/A") raw) as [company Hc].
  destruct (validate_description_ok (py "N/A") raw) as [description Hd].
  destruct (validate_phone_ok (py "N/A") raw) as [phone Hp].
  destruct (validate_email_ok (py "N/A") raw) as [email He].
  exists name, company, description, phone, email.
  repeat (split; [assumption|]).
  unfold regex_fallback. rewrite Hn, Hc, Hd, Hp, He. reflexivity.
Qed.

End ExtractorFacts.

(** ** The fields of an accepted reply *)

Module ReplyFacts.

Import Contact ValidatorFacts ExtractorFacts.

(** The loop over the keys cleans every value and adds no key. *)
Lemma clean_fields_lookup data cleaned key :
  clean_fields data = Ok cleaned ->
  match data !! key with
  | Some v => exists v', clean_markdown v = Ok v' /\ cleaned !! key = Some v'
  | None => cleaned !! key = None
  end.
Proof.
  unfold clean_fields.
  assert (H : forall init m d,
            map_fold (fun key v (acc : result (gmap str pyval)) =>
                        d ← acc; v' ← clean_markdown v; Ok (<[key := v']> d))
                     (Ok init) m = Ok d ->
            match m !! key with
            | Some v => exists v', clean_markdown v = Ok v' /\ d !! key = Some v'
            | None => d !! key = init !! key
            end).
  { intros init m.
    apply (map_fold_weak_ind
             (fun r (m : gmap str pyval) =>
                forall d, r = Ok d ->
                  match m !! key with
                  | Some v => exists v', clean_markdown v = Ok v' /\ d !! key = Some v'
                  | None => d !! key = init !! key
                  end)).
    - intros d [= ->]. rewrite lookup_empty. reflexivity.
    - intros i x m0 r Hi IH d Hd.
      destruct r as [d0|e]; [|discriminate]. cbn [mbind result_bind] in Hd.
      destruct (clean_markdown x) as [v'|e] eqn:Hx; [|discriminate].
      injection Hd as <-. specialize (IH d0 eq_refl).
      destruct (decide (i = key)) as [->|Hne].
      + rewrite !lookup_insert_eq. eauto.
      + rewrite !lookup_insert_ne by exact Hne. exact IH. }
  intros Hc. apply H in Hc. destruct (data !! key); exact Hc.
Qed.

Lemma clean_markdown_sentinel : clean_markdown (PStr (py "N/A")) = Ok (PStr (py "N/A")).
Proof. reflexivity. Qed.

(** A field the reply lacks, or gives as "N/A", reaches its validator as
    "N/A". *)
Lemma get_sentinel obj cleaned key :
  clean_fields obj = Ok cleaned ->
  obj !! py key = None \/ obj !! py key = Some (PStr (py "N/A")) ->
  get cleaned key = PStr (py "N/A").
Proof.
  intros Hc Hk. pose proof (clean_fields_lookup obj cleaned (py key) Hc) as H.
  unfold get. destruct Hk as [Hk|Hk]; rewrite Hk in H.
  - rewrite H. reflexivity.
  - destruct H as (v' & Hv & ->). rewrite clean_markdown_sentinel in Hv.
    injection Hv as <-. reflexivity.
Qed.

(** The five assignments, with the value each validator is given. *)
Lemma validate_fields_values data raw d :
  validate_fields data raw = Ok d ->
  exists name company description phone email,
    validate_name (get data "name") raw = Ok name
    /\ validate_company (get data "company") raw = Ok company
    /\ validate_description (get data "description") raw = Ok description
    /\ validate_phone (get data "phone") raw = Ok phone
    /\ validate_email (get data "email") raw = Ok email
    /\ d = <[py "email" := PStr email]>
           (<[py "phone" := PStr phone]>
           (<[py "description" := PStr description]>
           (<[py "company" := PStr company]>
           (<[py "name" := PStr name]> data)))).
Proof.
  unfold validate_fields. intros H.
  destruct (validate_name _ _) as [name|] eqn:Hn; [|discriminate].
  cbn [mbind result_bind] in H.
  destruct (validate_company _ _) as [company|] eqn:Hc; [|discriminate].
  cbn [mbind result_bind] in H.
  destruct (validate_description _ _) as [description|] eqn:Hd; [|discriminate].
  cbn [mbind result_bind] in H.
  destruct (validate_phone _ _) as [phone|] eqn:Hp; [|discriminate].
  cbn [mbind result_bind] in H.
  destruct (validate_email _ _) as [email|] eqn:He; [|discriminate].
  cbn [mbind result_bind] in H. injection H as <-.
  exists name, company, description, phone, email.
  unfold get in *.
  repeat rewrite lookup_insert_ne in Hc by key_ne.
  repeat rewrite lookup_insert_ne in Hd by key_ne.
  repeat rewrite lookup_insert_ne in Hp by key_ne.
  repeat rewrite lookup_insert_ne in He by key_ne.
  auto 10.
Qed.

Section Replies.

Variable json_loads : str -> result pyval.

(** What an attempt that returns has gone through. *)
Lemma attempt_accepted llm text raw attempt d :
  attempt_body json_loads llm text raw attempt = Ok (Some d) ->
  exists content obj cleaned,
    llm text attempt = Llm_content content
    /\ json_loads (Str.strip content) = Ok (PDict obj)
    /\ clean_fields obj = Ok cleaned
    /\ validate_fields cleaned raw = Ok d.
Proof.
  unfold attempt_body. intros Hb.
  destruct (llm text attempt) as [e|content] eqn:Hl; [discriminate|].
  cbv zeta in Hb.
  destruct (Str.startswith _ _ && Str.endswith _ _); [|discriminate].
  destruct (json_loads (Str.strip content)) as [parsed|e] eqn:Hj; [|discriminate].
  cbn [mbind result_bind] in Hb.
  destruct parsed as [| | | | | |obj]; try discriminate.
  destruct (clean_fields obj) as [cleaned|e] eqn:Hc; [|discriminate].
  cbn [mbind result_bind] in Hb.
  destruct (validate_fields cleaned raw) as [d'|e] eqn:Hv; [|discriminate].
  cbn [mbind result_bind] in Hb. injection Hb as ->.
  exists content, obj, cleaned. auto.
Qed.

(** The loop reads the replies in order and only as many as it is allowed. *)
Lemma attempts_ext llm llm' text raw n : forall first,
  (forall i, first <= i < first + n -> llm text i = llm' text i) ->
  attempts json_loads llm text raw n first = attempts json_loads llm' text raw n first.
Proof.
  induction n as [|n IH]; intros first H; [reflexivity|].
  cbn [attempts]. unfold attempt_body. rewrite <- (H first) by lia.
  rewrite (IH (S first)) by (intros i Hi; apply H; lia). reflexivity.
Qed.

(** The first attempt that returns ends the loop. *)
Lemma attempts_first llm text raw d : forall n first i,
  first <= i < first + n ->
  (forall j d', first <= j < i ->
                attempt_body json_loads llm text raw j <> Ok (Some d')) ->
  attempt_body json_loads llm text raw i = Ok (Some d) ->
  attempts json_loads llm text raw n first = Some d.
Proof.
  induction n as [|n IH]; intros first i Hi Hbefore Hat; [lia|].
  cbn [attempts].
  destruct (Nat.eq_dec first i) as [->|Hne].
  - rewrite Hat. reflexivity.
  - destruct (attempt_body json_loads llm text raw first) as [[d'|]|e] eqn:Hf.
    + exfalso. eapply (Hbefore first d'); [lia|exact Hf].
    + apply (IH (S first) i); [lia| |exact Hat].
      intros j d' Hj. apply Hbefore. lia.
    + apply (IH (S first) i); [lia| |exact Hat].
      intros j d' Hj. apply Hbefore. lia.
Qed.

End Replies.

End ReplyFacts.

(** ** Which replies the loop returns on *)

Module AcceptFacts.

Import Contact ValidatorFacts ExtractorFacts ReplyFacts.

Lemma str_eqb_true a : forall b, Str.eqb a b = true <-> a = b.
Proof.
  induction a as [|x a IH]; intros [|y b]; simpl; split; intros H;
    try reflexivity; try discriminate.
  - apply andb_prop in H as [H1 H2]. apply Ascii.eqb_eq in H1. apply IH in H2.
    congruence.
  - injection H as -> ->. rewrite Ascii.eqb_refl. apply IH. reflexivity.
Qed.

Lemma is_field_in key : is_field key = true <-> In key FIELDS.
Proof.
  unfold is_field. rewrite existsb_exists. split.
  - intros (x & Hx & He). apply str_eqb_true in He. subst. exact Hx.
  - intros H. exists key. split; [exact H|]. apply str_eqb_true. reflexivity.
Qed.

Lemma acceptable_object_lookup data :
  acceptable_object data = true
  <-> forall key v, data !! key = Some v -> acceptable_value key v = true.
Proof.
  unfold acceptable_object. rewrite forallb_forall. split.
  - intros H key v Hk. apply (H (key, v)).
    apply list_elem_of_In, elem_of_map_to_list. exact Hk.
  - intros H [key v] Hin. apply list_elem_of_In, elem_of_map_to_list in Hin.
    apply H. exact Hin.
Qed.

(** [clean_markdown] returns on strings and on falsy values, and on these
    only. *)
Lemma clean_markdown_ok v v' :
  clean_markdown v = Ok v' ->
  (exists s s', v = PStr s /\ v' = PStr s') \/ (truthy v = false /\ v' = v).
Proof.
  unfold clean_markdown. destruct (truthy v) eqn:Ht; cbn [negb orb].
  - destruct (is_str v "N/A") eqn:Hs.
    + intros [= <-]. left. destruct v; try discriminate. eauto.
    + destruct v; try discriminate. intros [= <-]. eauto.
  - intros [= <-]. auto.
Qed.

Lemma clean_markdown_str s : exists s', clean_markdown (PStr s) = Ok (PStr s').
Proof.
  unfold clean_markdown.
  destruct (negb (truthy (PStr s)) || is_str (PStr s) "N/A"); eauto.
Qed.

Lemma clean_markdown_falsy v : truthy v = false -> clean_markdown v = Ok v.
Proof. intros H. unfold clean_markdown. rewrite H. reflexivity. Qed.

Lemma fold_clean_ok (m : gmap str pyval) : forall init : gmap str pyval,
  (forall key v, m !! key = Some v -> exists v', clean_markdown v = Ok v') ->
  exists d, map_fold (fun key v (acc : result (gmap str pyval)) =>
                        d ← acc; v' ← clean_markdown v; Ok (<[key := v']> d))
                     (Ok init) m = Ok d.
Proof.
  intros init.
  apply (map_fold_weak_ind
           (fun r (m : gmap str pyval) =>
              (forall key v, m !! key = Some v -> exists v', clean_markdown v = Ok v') ->
              exists d, r = Ok d)).
  - eauto.
  - intros i x m0 r Hi IH Hall.
    destruct IH as [d0 ->].
    { intros key v Hk. apply (Hall key v).
      rewrite lookup_insert_ne; [exact Hk|]. intros ->. congruence. }
    destruct (Hall i x (lookup_insert_eq _ _ _)) as [v' Hv].
    cbn [mbind result_bind]. rewrite Hv. eauto.
Qed.

(** The loop over the keys returns when every value can be cleaned. *)
Lemma clean_fields_ok data :
  (forall key v, data !! key = Some v -> exists v', clean_markdown v = Ok v') ->
  exists cleaned, clean_fields data = Ok cleaned.
Proof. apply fold_clean_ok. Qed.

(** A validator returns on strings, and raises on any other value. *)
Lemma validators_need_strings raw v :
  (forall s, v <> PStr s) ->
  (exists e, validate_name v raw = Raise e)
  /\ (exists e, validate_company v raw = Raise e)
  /\ (exists e, validate_description v raw = Raise e)
  /\ (exists e, validate_phone v raw = Raise e)
  /\ (exists e, validate_email v raw = Raise e).
Proof.
  intros H. destruct v; try (destruct (H s eq_refl)); repeat split; eexists; reflexivity.
Qed.

Lemma get_cleaned obj cleaned key :
  clean_fields obj = Ok cleaned ->
  match obj !! py key with
  | Some v => exists v', clean_markdown v = Ok v' /\ get cleaned key = v'
  | None => get cleaned key = PStr (py "N/A")
  end.
Proof.
  intros Hc. pose proof (clean_fields_lookup obj cleaned (py key) Hc) as H.
  unfold get. destruct (obj !! py key) as [v|].
  - destruct H as (v' & Hv & ->). eauto.
  - rewrite H. reflexivity.
Qed.

(** A value under one of the five keys that the validators take is a
    string. *)
Lemma field_is_string obj cleaned key v v0 :
  clean_fields obj = Ok cleaned ->
  obj !! py key = Some v ->
  get cleaned key = PStr v0 ->
  exists s, v = PStr s.
Proof.
  intros Hc Hk Hg. pose proof (get_cleaned obj cleaned key Hc) as H.
  rewrite Hk in H. destruct H as (v' & Hv & Hg').
  rewrite Hg in Hg'. subst v'.
  apply clean_markdown_ok in Hv.
  destruct Hv as [(s & s' & -> & _)|[_ Hv]]; [eauto|]. subst v. eauto.
Qed.

Lemma validator_arg_string (validate : pyval -> str -> result str) raw v x :
  (forall w, (forall s, w <> PStr s) -> exists e, validate w raw = Raise e) ->
  validate v raw = Ok x -> exists s, v = PStr s.
Proof.
  intros Hraise Hok. destruct v; eauto;
    match goal with
    | |- exists s, ?w = PStr s =>
        destruct (Hraise w ltac:(discriminate)) as [e He]; congruence
    end.
Qed.

Section Accepted.

Variable json_loads : str -> result pyval.
Variable llm : str -> nat -> llm_reply.

(** The replies [accepted] names are the ones an attempt returns on. *)
Lemma accepted_returns text raw attempt :
  accepted json_loads (llm text attempt) = true
  <-> exists d, attempt_body json_loads llm text raw attempt = Ok (Some d).
Proof.
  split.
  - unfold accepted, attempt_body. intros H.
    destruct (llm text attempt) as [e|content]; [discriminate|]. cbv zeta in *.
    destruct (Str.startswith _ _ && Str.endswith _ _); [|discriminate].
    cbn [andb] in H.
    destruct (json_loads (Str.strip content)) as [[| | | | | |obj]|e];
      try discriminate.
    cbn [mbind result_bind].
    rewrite acceptable_object_lookup in H.
    destruct (clean_fields_ok obj) as [cleaned Hc].
    { intros key v Hk. specialize (H key v Hk).
      destruct v; cbn [acceptable_value] in H;
        try (apply andb_prop in H as [H _]; apply negb_true_iff in H;
             rewrite clean_markdown_falsy by exact H; eauto).
      destruct (clean_markdown_str s) as [s' ->]. eauto. }
    rewrite Hc. cbn [mbind result_bind].
    assert (Hstr : forall key, In (py key) FIELDS -> exists s, get cleaned key = PStr s).
    { intros key Hin. pose proof (get_cleaned obj cleaned key Hc) as Hg.
      destruct (obj !! py key) as [v|] eqn:Hk; [|eauto].
      destruct Hg as (v' & Hv & ->). specialize (H _ _ Hk).
      destruct v; cbn [acceptable_value] in H;
        try (apply andb_prop in H as [_ H]; apply negb_true_iff in H;
             apply is_field_in in Hin; congruence).
      destruct (clean_markdown_str s) as [s' Hs']. rewrite Hs' in Hv.
      injection Hv as <-. eauto. }
    unfold validate_fields.
    destruct (Hstr "name") as [s1 Hs1]; [simpl; auto|].
    unfold get in *.
    rewrite Hs1. destruct (validate_name_ok s1 raw) as [name ->].
    cbn [mbind result_bind].
    destruct (Hstr "company") as [s2 Hs2]; [simpl; auto 6|].
    rewrite lookup_insert_ne by key_ne.
    rewrite Hs2. destruct (validate_company_ok s2 raw) as [company ->].
    cbn [mbind result_bind].
    destruct (Hstr "description") as [s3 Hs3]; [simpl; auto 6|].
    rewrite !lookup_insert_ne by key_ne.
    rewrite Hs3. destruct (validate_description_ok s3 raw) as [description ->].
    cbn [mbind result_bind].
    destruct (Hstr "phone") as [s4 Hs4]; [simpl; auto 6|].
    rewrite !lookup_insert_ne by key_ne.
    rewrite Hs4. destruct (validate_phone_ok s4 raw) as [phone ->].
    cbn [mbind result_bind].
    destruct (Hstr "email") as [s5 Hs5]; [simpl; auto 6|].
    rewrite !lookup_insert_ne by key_ne.
    rewrite Hs5. destruct (validate_email_ok s5 raw) as [email ->].
    cbn [mbind result_bind]. eauto.
  - intros [d Hb]. pose proof Hb as Hb'. unfold attempt_body in Hb'.
    apply attempt_accepted in Hb.
    destruct Hb as (content & obj & cleaned & Hl & Hj & Hc & Hv).
    unfold accepted. rewrite Hl in *. cbv zeta in *.
    destruct (Str.startswith _ _ && Str.endswith _ _); [|discriminate].
    cbn [andb]. rewrite Hj.
    apply acceptable_object_lookup. intros key v Hk.
    pose proof (clean_fields_lookup obj cleaned key Hc) as Hl'.
    rewrite Hk in Hl'. destruct Hl' as (v' & Hv' & Hck).
    apply validate_fields_values in Hv.
    destruct Hv as (name & company & description & phone & email
                    & Hn & Hco & Hd & Hp & He & _).
    destruct (is_field key) eqn:Hf.
    + apply is_field_in in Hf.
      assert (Hs : exists s, v' = PStr s).
      { unfold FIELDS in Hf. cbn [In] in Hf. unfold get in *.
        destruct Hf as [<-|[<-|[<-|[<-|[<-|[]]]]]];
          rewrite Hck in *; cbn [default from_option id] in *.
        - eapply (validator_arg_string validate_name); [|exact Hn].
          intros w Hw. apply (validators_need_strings raw w Hw).
        - eapply (validator_arg_string validate_company); [|exact Hco].
          intros w Hw. apply (validators_need_strings raw w Hw).
        - eapply (validator_arg_string validate_description); [|exact Hd].
          intros w Hw. apply (validators_need_strings raw w Hw).
        - eapply (validator_arg_string validate_phone); [|exact Hp].
          intros w Hw. apply (validators_need_strings raw w Hw).
        - eapply (validator_arg_string validate_email); [|exact He].
          intros w Hw. apply (validators_need_strings raw w Hw). }
      destruct Hs as [s ->]. apply clean_markdown_ok in Hv'.
      destruct Hv' as [(s0 & s' & -> & _)|[_ <-]]; reflexivity.
    + apply clean_markdown_ok in Hv'.
      destruct Hv' as [(s0 & s' & -> & _)|[Ht _]]; [reflexivity|].
      destruct v; try reflexivity; cbn [acceptable_value]; rewrite Ht, Hf; reflexivity.
Qed.

Lemma accepted_false text raw attempt :
  accepted json_loads (llm text attempt) = false
  <-> forall d, attempt_body json_loads llm text raw attempt <> Ok (Some d).
Proof.
  split.
  - intros H d Hd.
    assert (Ha : accepted json_loads (llm text attempt) = true)
      by (apply (accepted_returns text raw attempt); eauto).
    congruence.
  - intros H. destruct (accepted json_loads (llm text attempt)) eqn:Ha; [|reflexivity].
    apply (accepted_returns text raw attempt) in Ha. destruct Ha as [d Hd].
    destruct (H d Hd).
Qed.

(** No attempt returns when no reply is accepted. *)
Lemma attempts_none text raw n : forall first,
  (forall i, first <= i < first + n -> accepted json_loads (llm text i) = false) ->
  attempts json_loads llm text raw n first = None.
Proof.
  induction n as [|n IH]; intros first H; [reflexivity|].
  cbn [attempts].
  pose proof (proj1 (accepted_false text raw first) (H first ltac:(lia))) as Hu.
  destruct (attempt_body json_loads llm text raw first) as [[data|]|e].
  - destruct (Hu data eq_refl).
  - apply IH. intros i Hi. apply H. lia.
  - apply IH. intros i Hi. apply H. lia.
Qed.

(** A key of the model's object that is not one of the five keeps its
    cleaned value in the record of the attempt. *)
Lemma other_keys_cleaned obj cleaned raw d key v :
  clean_fields obj = Ok cleaned ->
  validate_fields cleaned raw = Ok d ->
  obj !! key = Some v -> ~ In key FIELDS ->
  exists v', clean_markdown v = Ok v' /\ d !! key = Some v'.
Proof.
  intros Hc Hv Hk Hn.
  pose proof (clean_fields_lookup obj cleaned key Hc) as Hl. rewrite Hk in Hl.
  destruct Hl as (v' & Hv' & Hck). exists v'. split; [exact Hv'|].
  apply validate_fields_spec in Hv.
  destruct Hv as (name & company & description & phone & email & ->).
  unfold FIELDS in Hn. cbn [In] in Hn.
  rewrite !lookup_insert_ne by (intros E; apply Hn; rewrite E; tauto).
  exact Hck.
Qed.

(** The loop returns the record of the first reply that is accepted. *)
Lemma attempts_first_accepted text raw n : forall first d,
  attempts json_loads llm text raw n first = Some d ->
  exists attempt content data,
    first <= attempt < first + n
    /\ (forall earlier, first <= earlier < attempt ->
          accepted json_loads (llm text earlier) = false)
    /\ accepted json_loads (llm text attempt) = true
    /\ llm text attempt = Llm_content content
    /\ json_loads (Str.strip content) = Ok (PDict data)
    /\ binds_strings d
    /\ dom d = dom data ∪ field_set
    /\ forall key v, data !! key = Some v -> ~ In key FIELDS ->
         exists v', clean_markdown v = Ok v' /\ d !! key = Some v'.
Proof.
  induction n as [|n IH]; intros first d H; [discriminate|].
  cbn [attempts] in H.
  destruct (attempt_body json_loads llm text raw first) as [[data|]|e] eqn:Hb.
  - injection H as ->.
    assert (Ha : accepted json_loads (llm text first) = true)
      by (apply (accepted_returns text raw first); eauto).
    pose proof Hb as Hb'. apply attempt_accepted in Hb'.
    destruct Hb' as (content & obj & cleaned & Hl & Hj & Hc & Hv).
    exists first, content, obj.
    split; [lia|]. split; [intros earlier He; lia|]. split; [exact Ha|].
    split; [exact Hl|]. split; [exact Hj|].
    pose proof Hv as Hv'. apply validate_fields_spec in Hv'.
    destruct Hv' as (name & company & description & phone & email & Hd).
    split; [rewrite Hd; apply five_inserts_bind|].
    split; [rewrite Hd, five_inserts_dom, (clean_fields_dom _ _ Hc); reflexivity|].
    intros key v Hk Hn. eapply other_keys_cleaned; eauto.
  - assert (Hr : accepted json_loads (llm text first) = false).
    { apply (accepted_false text raw first). intros d' Hd'. congruence. }
    apply IH in H. destruct H as (a & c & data & Ha & Hbefore & H).
    exists a, c, data. split; [lia|]. split; [|exact H].
    intros earlier He. destruct (Nat.eq_dec earlier first) as [->|Hne]; [exact Hr|].
    apply Hbefore. lia.
  - assert (Hr : accepted json_loads (llm text first) = false).
    { apply (accepted_false text raw first). intros d' Hd'. congruence. }
    apply IH in H. destruct H as (a & c & data & Ha & Hbefore & H).
    exists a, c, data. split; [lia|]. split; [|exact H].
    intros earlier He. destruct (Nat.eq_dec earlier first) as [->|Hne]; [exact Hr|].
    apply Hbefore. lia.
Qed.

(** When no attempt returns, no reply was accepted. *)
Lemma attempts_none_inv text raw n : forall first,
  attempts json_loads llm text raw n first = None ->
  forall i, first <= i < first + n -> accepted json_loads (llm text i) = false.
Proof.
  induction n as [|n IH]; intros first H i Hi; [lia|].
  cbn [attempts] in H.
  destruct (attempt_body json_loads llm text raw first) as [[data|]|e] eqn:Hb;
    [discriminate| |].
  - destruct (Nat.eq_dec i first) as [->|Hne].
    + apply (accepted_false text raw first). intros d' Hd'. congruence.
    + apply (IH (S first) H). lia.
  - destruct (Nat.eq_dec i first) as [->|Hne].
    + apply (accepted_false text raw first). intros d' Hd'. congruence.
    + apply (IH (S first) H). lia.
Qed.

End Accepted.

Lemma not_in_fields key : key ∉ field_set <-> ~ In key FIELDS.
Proof.
  unfold field_set. rewrite elem_of_list_to_set, list_elem_of_In. reflexivity.
Qed.

End AcceptFacts.

(** ** The confidence filter of bot.py *)

Module OcrFacts.

Import Ocr OcrSpec.

Lemma filter_confident dets :
  confident dets
    (List.filter (fun d => match (1 # 2) ?= det_conf d with Lt => true | _ => false end)%Q
                 dets).
Proof.
  induction dets as [|d dets IH]; [constructor|]. cbn [List.filter].
  destruct ((1 # 2) ?= det_conf d)%Q eqn:E.
  - apply C_drop; [|exact IH]. apply Qeq_alt in E. rewrite <- E. apply Qle_refl.
  - apply C_keep; [|exact IH]. apply Qlt_alt. exact E.
  - apply C_drop; [|exact IH]. apply Qlt_le_weak. apply Qgt_alt. exact E.
Qed.

Lemma confident_unique dets kept :
  confident dets kept -> forall kept', confident dets kept' -> kept = kept'.
Proof.
  induction 1 as [|d dets kept Hd _ IH|d dets kept Hd _ IH]; intros kept' H';
    inversion H' as [|? ? k Hd' Hk|? ? k Hd' Hk]; subst.
  - reflexivity.
  - f_equal. apply IH. exact Hk.
  - exfalso. apply (Qlt_not_le _ _ Hd Hd').
  - exfalso. apply (Qlt_not_le _ _ Hd' Hd).
  - apply IH. exact Hk.
Qed.

End OcrFacts.

(** * The claims *)

Import ReSpec Scanner PhoneChoice PhraseSpec Contact OcrSpec.
Import ReFacts PhoneFacts ValidatorFacts SearchFacts ChoiceFacts PhraseFacts ExtractorFacts
  ReplyFacts AcceptFacts OcrFacts.

(** C1, as the claim has it, fails: a key of the model's object that is not
    one of the five stays in the returned record, here with the value
    [None]. *)
Lemma extract_keeps_extra_key :
  extract_with_llm Example.json_loads Example.llm true Example.text None 3
  = Ok Example.returned
  /\ Example.returned !! py "extra" = Some PNone
  /\ ~ contact_record Example.returned.
Proof.
  split; [vm_compute; reflexivity|]. split; [vm_compute; reflexivity|].
  intros [Hdom _].
  assert (Hin : py "extra" ∈ dom Example.returned).
  { apply elem_of_dom. exists PNone. vm_compute. reflexivity. }
  rewrite Hdom in Hin. unfold field_set, FIELDS in Hin. simpl in Hin.
  repeat (apply elem_of_union in Hin; destruct Hin as [Hin|Hin]);
    try (apply elem_of_singleton in Hin; vm_compute in Hin; discriminate Hin).
  apply elem_of_empty in Hin. exact Hin.
Qed.

(** C1, amended.  For every text, raw text, retry count and model, and
    whatever [json.loads] does, [extract_with_llm] returns a mapping that
    binds each of the five keys name, company, description, phone and email
    to a string.  On the early return (no text or no client) it is the
    record of five "N/A" and has the five keys only.  When no reply of the
    [max_retries] attempts is accepted it is the record of the regex
    fallback and has the five keys only.  Otherwise it is the object of the
    first accepted reply: it has the keys of that object besides the five,
    and each key of the object that is not one of the five is bound to its
    value as [clean_markdown] returns it. *)
Theorem extract_binds_five_strings
    (json_loads : str -> result pyval) (llm : str -> nat -> llm_reply)
    (client : bool) (text : str) (raw_text : option str) (max_retries : Z) :
  exists d,
    extract_with_llm json_loads llm client text raw_text max_retries = Ok d
    /\ binds_strings d
    /\ (((text = [] \/ client = false) /\ d = unknown_record /\ dom d = field_set)
        \/ (text <> [] /\ client = true
            /\ (forall attempt, attempt < Z.to_nat max_retries ->
                  accepted json_loads (llm text attempt) = false)
            /\ regex_fallback (or_text raw_text text) = Ok d
            /\ dom d = field_set)
        \/ (text <> [] /\ client = true
            /\ exists attempt content data,
                 attempt < Z.to_nat max_retries
                 /\ (forall earlier, earlier < attempt ->
                       accepted json_loads (llm text earlier) = false)
                 /\ accepted json_loads (llm text attempt) = true
                 /\ llm text attempt = Llm_content content
                 /\ json_loads (Str.strip content) = Ok (PDict data)
                 /\ dom d = dom data ∪ field_set
                 /\ forall key v, data !! key = Some v -> key ∉ field_set ->
                      exists v', clean_markdown v = Ok v' /\ d !! key = Some v')).
Proof.
  unfold extract_with_llm.
  destruct text as [|c text].
  { exists unknown_record. split; [reflexivity|].
    destruct unknown_record_contact as [Hd Hb]. split; [exact Hb|]. left. auto. }
  destruct client.
  2:{ exists unknown_record. split; [reflexivity|].
      destruct unknown_record_contact as [Hd Hb]. split; [exact Hb|]. left. auto. }
  cbn [nonempty length Nat.eqb negb orb].
  destruct (attempts json_loads llm (c :: text) (or_text raw_text (c :: text))
              (Z.to_nat max_retries) 0) as [d|] eqn:Ha.
  - exists d. split; [reflexivity|].
    apply attempts_first_accepted in Ha.
    destruct Ha as (attempt & content & data & Hi & Hbefore & Hacc & Hl & Hj & Hb & Hd & Ho).
    split; [exact Hb|]. right. right.
    split; [discriminate|]. split; [reflexivity|].
    exists attempt, content, data.
    split; [lia|]. split; [intros earlier He; apply Hbefore; lia|].
    split; [exact Hacc|]. split; [exact Hl|]. split; [exact Hj|]. split; [exact Hd|].
    intros key v Hk Hn. apply (Ho key v Hk). apply not_in_fields. exact Hn.
  - destruct (regex_fallback_ok (or_text raw_text (c :: text)))
      as (name & company & description & phone & email & _ & _ & _ & _ & _ & Hf).
    eexists. split; [exact Hf|].
    destruct (record_of_contact name company description phone email) as [Hd Hb].
    split; [exact Hb|]. right. left.
    split; [discriminate|]. split; [reflexivity|].
    split; [|split; [exact Hf | exact Hd]].
    intros attempt Hi.
    apply (attempts_none_inv json_loads llm _ _ _ 0 Ha). lia.
Qed.

(** C2, as the claim has it, fails: a reply that lacks four of the five
    keys is not retried.  With [{"name": "bob stone"}] at every attempt the
    extractor returns the name of the reply, title-cased, where the regex
    fallback has the name found in the raw text. *)
Lemma extract_accepts_partial_object :
  extract_with_llm Example.partial_loads Example.partial_llm true
    Example.text (Some Example.text) 3
  = Ok (record_of (py "Bob Stone") (py "Simpel Ai") (py "N/A") (py "N/A")
                  (py "jane@simpel.ai"))
  /\ regex_fallback Example.text
     = Ok (record_of (py "Jane Doe") (py "Simpel Ai") (py "N/A") (py "N/A")
                     (py "jane@simpel.ai"))
  /\ record_of (py "Bob Stone") (py "Simpel Ai") (py "N/A") (py "N/A")
               (py "jane@simpel.ai")
     <> record_of (py "Jane Doe") (py "Simpel Ai") (py "N/A") (py "N/A")
                  (py "jane@simpel.ai").
Proof.
  split.
  { vm_cast_no_check
      (@eq_refl _ (Ok (record_of (py "Bob Stone") (py "Simpel Ai") (py "N/A") (py "N/A")
                                 (py "jane@simpel.ai")))). }
  split.
  { vm_cast_no_check
      (@eq_refl _ (Ok (record_of (py "Jane Doe") (py "Simpel Ai") (py "N/A") (py "N/A")
                                 (py "jane@simpel.ai")))). }
  intros H.
  assert (Hn : record_of (py "Bob Stone") (py "Simpel Ai") (py "N/A") (py "N/A")
                 (py "jane@simpel.ai") !! py "name"
               = record_of (py "Jane Doe") (py "Simpel Ai") (py "N/A") (py "N/A")
                   (py "jane@simpel.ai") !! py "name") by (rewrite H; reflexivity).
  vm_compute in Hn. discriminate Hn.
Qed.

(** C2, amended.  With a client, a text and a raw text that are not empty:
    an attempt returns a record exactly when its reply is accepted, that
    is, its trimmed text is in braces, [json.loads] makes an object of it,
    and every value of the object is a string or, under a key that is not
    one of the five, falsy.  When none of the [max_retries] replies is
    accepted, [extract_with_llm] returns the record of the five validators
    called with "N/A" and the raw text.  When one is accepted, it returns
    the record of the first attempt that is, and not the fallback: the
    object of the reply, each value as [clean_markdown] returns it, with
    each of the five keys set to what its validator returns on the value
    the object has for it, or on "N/A" when the object lacks the key. *)
Theorem extract_falls_back_to_validators
    (json_loads : str -> result pyval) (llm : str -> nat -> llm_reply)
    (text raw : str) (max_retries : Z) :
  text <> [] ->
  raw <> [] ->
  (forall attempt,
      accepted json_loads (llm text attempt) = false
      <-> forall d, attempt_body json_loads llm text raw attempt <> Ok (Some d))
  /\ ((forall attempt, attempt < Z.to_nat max_retries ->
                       accepted json_loads (llm text attempt) = false) ->
      exists name company description phone email,
        validate_name (PStr (py "N/A")) raw = Ok name
        /\ validate_company (PStr (py "N/A")) raw = Ok company
        /\ validate_description (PStr (py "N/A")) raw = Ok description
        /\ validate_phone (PStr (py "N/A")) raw = Ok phone
        /\ validate_email (PStr (py "N/A")) raw = Ok email
        /\ extract_with_llm json_loads llm true text (Some raw) max_retries
           = Ok (record_of name company description phone email))
  /\ (forall attempt,
        attempt < Z.to_nat max_retries ->
        accepted json_loads (llm text attempt) = true ->
        exists first d,
          first <= attempt
          /\ attempt_body json_loads llm text raw first = Ok (Some d)
          /\ extract_with_llm json_loads llm true text (Some raw) max_retries = Ok d)
  /\ (forall attempt d,
        attempt_body json_loads llm text raw attempt = Ok (Some d) ->
        exists content data cleaned name company description phone email,
          llm text attempt = Llm_content content
          /\ json_loads (Str.strip content) = Ok (PDict data)
          /\ clean_fields data = Ok cleaned
          /\ validate_name (get cleaned "name") raw = Ok name
          /\ validate_company (get cleaned "company") raw = Ok company
          /\ validate_description (get cleaned "description") raw = Ok description
          /\ validate_phone (get cleaned "phone") raw = Ok phone
          /\ validate_email (get cleaned "email") raw = Ok email
          /\ d = <[py "email" := PStr email]>
                 (<[py "phone" := PStr phone]>
                 (<[py "description" := PStr description]>
                 (<[py "company" := PStr company]>
                 (<[py "name" := PStr name]> cleaned))))).
Proof.
  intros Htext Hraw. split; [|split; [|split]].
  - intros attempt. apply accepted_false.
  - intros Hbad.
    destruct (regex_fallback_ok raw)
      as (name & company & description & phone & email & Hn & Hc & Hd & Hp & He & Hf).
    exists name, company, description, phone, email.
    repeat (split; [assumption|]).
    unfold extract_with_llm.
    destruct text as [|c text]; [contradiction|].
    destruct raw as [|r raw]; [contradiction|].
    cbn [nonempty length Nat.eqb negb orb or_text].
    rewrite attempts_none; [exact Hf|].
    intros i Hi. apply Hbad. lia.
  - intros attempt Hi Hacc.
    unfold extract_with_llm.
    destruct text as [|c text]; [contradiction|].
    destruct raw as [|r raw]; [contradiction|].
    cbn [nonempty length Nat.eqb negb orb or_text].
    destruct (attempts json_loads llm (c :: text) (r :: raw) (Z.to_nat max_retries) 0)
      as [d|] eqn:Ha.
    + pose proof Ha as Ha'. apply attempts_first_accepted in Ha'.
      destruct Ha' as (first & content & data & Hf & Hbefore & Hfa & _).
      exists first, d.
      split.
      { destruct (le_lt_dec first attempt) as [Hle|Hlt]; [exact Hle|].
        rewrite (Hbefore attempt) in Hacc by lia. discriminate. }
      split; [|reflexivity].
      apply (accepted_returns json_loads llm (c :: text) (r :: raw) first) in Hfa.
      destruct Hfa as [d' Hd'].
      rewrite (attempts_first json_loads llm _ _ d' _ 0 first) in Ha;
        [injection Ha as <-; exact Hd' | lia | | exact Hd'].
      intros j d'' Hj. apply (accepted_false json_loads llm (c :: text) (r :: raw) j).
      apply Hbefore. lia.
    + rewrite (attempts_none_inv json_loads llm _ _ _ 0 Ha attempt) in Hacc by lia.
      discriminate.
  - intros attempt d Hd. apply attempt_accepted in Hd.
    destruct Hd as (content & data & cleaned & Hl & Hj & Hc & Hv).
    apply validate_fields_values in Hv.
    destruct Hv as (name & company & description & phone & email
                    & Hn & Hco & Hde & Hp & He & ->).
    exists content, data, cleaned, name, company, description, phone, email.
    repeat (split; [assumption|]). reflexivity.
Qed.

Lemma extract_falls_back_to_validators_witness :
  extract_with_llm Example.json_loads (fun _ _ => Llm_content (py "Sorry, I cannot."))
    true Example.text (Some Example.text) 3
  = Ok (record_of (py "Jane Doe") (py "Simpel Ai") (py "N/A") (py "N/A")
                  (py "jane@simpel.ai")).
Proof.
  destruct (extract_falls_back_to_validators
              Example.json_loads (fun _ _ => Llm_content (py "Sorry, I cannot."))
              Example.text Example.text 3)
    as (_ & H & _ & _).
  - discriminate.
  - discriminate.
  - destruct H as (name & company & description & phone & email & Hn & Hc & Hd & Hp & He & H).
    + intros attempt _. reflexivity.
    + rewrite H.
      vm_compute in Hn, Hc, Hd, Hp, He.
      injection Hn as <-. injection Hc as <-. injection Hd as <-.
      injection Hp as <-. injection He as <-.
      reflexivity.
Defined.

(** C3.  When the text is empty or no client is configured,
    [extract_with_llm] returns the record whose five fields are "N/A". *)
Theorem extract_without_text_or_client
    (json_loads : str -> result pyval) (llm : str -> nat -> llm_reply)
    (client : bool) (text : str) (raw_text : option str) (max_retries : Z) :
  text = [] \/ client = false ->
  extract_with_llm json_loads llm client text raw_text max_retries
  = Ok (record_of (py "N/A") (py "N/A") (py "N/A") (py "N/A") (py "N/A"))
  /\ contact_record (record_of (py "N/A") (py "N/A") (py "N/A") (py "N/A") (py "N/A"))
  /\ Forall (fun key =>
               record_of (py "N/A") (py "N/A") (py "N/A") (py "N/A") (py "N/A") !! key
               = Some (PStr (py "N/A"))) FIELDS.
Proof.
  intros H. split; [|split].
  - unfold extract_with_llm. destruct H as [->| ->].
    + reflexivity.
    + rewrite orb_true_r. reflexivity.
  - apply record_of_contact.
  - unfold FIELDS. repeat constructor; vm_compute; reflexivity.
Qed.

Lemma extract_without_text_or_client_witness :
  extract_with_llm Example.json_loads Example.llm false Example.text None 3
  = Ok (record_of (py "N/A") (py "N/A") (py "N/A") (py "N/A") (py "N/A"))
  /\ extract_with_llm Example.json_loads Example.llm true [] (Some Example.text) 3
     = Ok (record_of (py "N/A") (py "N/A") (py "N/A") (py "N/A") (py "N/A")).
Proof.
  split.
  - apply (extract_without_text_or_client
             Example.json_loads Example.llm false Example.text None 3).
    right. reflexivity.
  - apply (extract_without_text_or_client
             Example.json_loads Example.llm true [] (Some Example.text) 3).
    left. reflexivity.
Defined.

(** C4, as the claim has it, fails: an exception the primary engine raises
    within the budget is not turned into the empty string, it reaches the
    caller, in llm_manager.py and in bot.py alike. *)
Lemma run_ocr_primary_failure_propagates :
  Ocr.run_ocr_with_timeout (Ocr.Completes (Raise (OtherError 0))) (Ok (py "card"))
  = Ocr.Raises (OtherError 0)
  /\ Ocr.bot_run_ocr_with_timeout (Ocr.Completes (Raise (OtherError 0))) (Ok (py "card"))
     = Ocr.Raises (OtherError 0)
  /\ Ocr.run_ocr_with_timeout (Ocr.Completes (Raise (OtherError 0))) (Ok (py "card"))
     <> Ocr.Returns [].
Proof. repeat split. discriminate. Qed.

(** C4, amended.  Both [run_ocr_with_timeout] functions behave as follows.
    When the primary engine is still running at the end of the budget and
    ends later, the result is the fallback engine's output without the
    white space around it, and the empty string when the fallback engine
    raises; a failure of the fallback engine never reaches the caller.
    When the primary engine never ends, neither call returns.  When the
    primary engine returns within the budget the result is its fragments
    joined by one space: all of them in llm_manager.py, those of confidence
    above 0.5, in their order, in bot.py.  An exception the primary engine
    raises within the budget reaches the caller as it is, unless it is of
    the time-out class: that one is handled like a time-out.  No other
    exception reaches the caller. *)
Theorem run_ocr_outcomes (primary : Ocr.worker (list Ocr.detection))
    (tesseract : result str) :
  let llm_out := Ocr.run_ocr_with_timeout primary tesseract in
  let bot_out := Ocr.bot_run_ocr_with_timeout primary tesseract in
  (primary = Ocr.Overruns true ->
     match tesseract with
     | Ok text => llm_out = Ocr.Returns (Str.strip text)
                  /\ bot_out = Ocr.Returns (Str.strip text)
     | Raise _ => llm_out = Ocr.Returns [] /\ bot_out = Ocr.Returns []
     end)
  /\ (primary = Ocr.Overruns false -> llm_out = Ocr.Blocks /\ bot_out = Ocr.Blocks)
  /\ (forall dets, primary = Ocr.Completes (Ok dets) ->
        llm_out = Ocr.Returns (Ocr.join (map Ocr.det_text dets))
        /\ (exists kept, confident dets kept)
        /\ forall kept, confident dets kept ->
             bot_out = Ocr.Returns (Ocr.join (map Ocr.det_text kept)))
  /\ (forall e, primary = Ocr.Completes (Raise e) -> e <> TimeoutError ->
        llm_out = Ocr.Raises e /\ bot_out = Ocr.Raises e)
  /\ (primary = Ocr.Completes (Raise TimeoutError) ->
        match tesseract with
        | Ok text => llm_out = Ocr.Returns (Str.strip text)
                     /\ bot_out = Ocr.Returns (Str.strip text)
        | Raise _ => llm_out = Ocr.Returns [] /\ bot_out = Ocr.Returns []
        end)
  /\ (forall e, llm_out = Ocr.Raises e \/ bot_out = Ocr.Raises e ->
        primary = Ocr.Completes (Raise e) /\ e <> TimeoutError).
Proof.
  cbv zeta. split; [|split; [|split; [|split; [|split]]]].
  - intros ->. destruct tesseract; split; reflexivity.
  - intros ->. split; reflexivity.
  - intros dets ->. split; [reflexivity|]. split.
    + eexists. apply filter_confident.
    + intros kept Hk.
      rewrite (confident_unique _ _ Hk _ (filter_confident dets)). reflexivity.
  - intros e -> He. destruct e; try (split; reflexivity). congruence.
  - intros ->. destruct tesseract; split; reflexivity.
  - intros e H.
    unfold Ocr.run_ocr_with_timeout, Ocr.bot_run_ocr_with_timeout,
      Ocr.with_executor, Ocr.ocr_easy_llm, Ocr.ocr_easy_bot in H.
    destruct primary as [[dets|e']|ends].
    + cbn [mbind result_bind] in H. destruct H; discriminate.
    + cbn [mbind result_bind] in H.
      destruct e'; cbn [Ocr.is_timeout] in H;
        destruct H as [H|H]; try discriminate; injection H as <-;
        split; (reflexivity || discriminate).
    + destruct ends; destruct H; discriminate.
Qed.

Lemma run_ocr_outcomes_witness :
  (Ocr.run_ocr_with_timeout (Ocr.Overruns true) (Ok (py " Jane Doe  "))
   = Ocr.Returns (py "Jane Doe")
   /\ Ocr.bot_run_ocr_with_timeout (Ocr.Overruns true) (Ok (py " Jane Doe  "))
      = Ocr.Returns (py "Jane Doe"))
  /\ Ocr.bot_run_ocr_with_timeout
       (Ocr.Completes (Ok [ {| Ocr.det_text := py "Jane"; Ocr.det_conf := 9 # 10 |};
                            {| Ocr.det_text := py "x"; Ocr.det_conf := 1 # 2 |};
                            {| Ocr.det_text := py "Doe"; Ocr.det_conf := 51 # 100 |} ]))
       (Ok (py "card"))
     = Ocr.Returns (py "Jane Doe")
  /\ Ocr.run_ocr_with_timeout (Ocr.Completes (Raise ValueError)) (Ok (py "card"))
     = Ocr.Raises ValueError.
Proof.
  split; [|split].
  - exact (proj1 (run_ocr_outcomes (Ocr.Overruns true) (Ok (py " Jane Doe  "))) eq_refl).
  - refine (proj2 (proj2 (proj1 (proj2 (proj2 (run_ocr_outcomes _ (Ok (py "card")))))
                           _ eq_refl))
                  [ {| Ocr.det_text := py "Jane"; Ocr.det_conf := 9 # 10 |};
                    {| Ocr.det_text := py "Doe"; Ocr.det_conf := 51 # 100 |} ] _).
    apply C_keep; [reflexivity|].
    apply C_drop; [discriminate|].
    apply C_keep; [reflexivity|]. apply C_nil.
  - refine (proj1 (proj1 (proj2 (proj2 (proj2 (run_ocr_outcomes _ (Ok (py "card"))))))
                         ValueError eq_refl _)).
    discriminate.
Defined.

(** C5, as the claim has it, fails: with one space between the two
    phrases the first match runs on over "Vice President", a single phrase
    is found and the result is "N/A". *)
Lemma validate_description_joined_phrases :
  re_findall DESCRIPTION_PATTERN (py "John Carter Vice President Sales")
  = [py "John Carter Vice President"]
  /\ validate_description (PStr (py "N/A")) (py "John Carter Vice President Sales")
     = Ok (py "N/A")
  /\ validate_description (PStr (py "N/A")) (py "John Carter Vice President Sales")
     <> Ok (py "Vice President Sales").
Proof.
  split; [vm_compute; reflexivity|]. split; [vm_compute; reflexivity|].
  vm_compute. discriminate.
Qed.

(** C5, amended.  [validate_description] with candidate "N/A" returns the
    second of the phrases found in the raw text, and "N/A" when fewer than
    two are found.  The phrases found are the two to four capitalized words
    (an upper-case letter and lower-case letters, one white-space character
    between two words) that begin and end at a word boundary, taken from
    left to right: at each position the longest phrase there is, and the
    search goes on after its end.  [findall] lists them, and they are the
    only such list.  When a character that is neither white space nor a
    word character stands between "John Carter" and "Vice President Sales",
    also when ", " does, the result is "Vice President Sales".  When one
    white-space character stands there, the only phrase found is
    "John Carter", that character and "Vice President", and the result is
    "N/A". *)
Theorem validate_description_second_match :
  (forall raw_text, found 4 None raw_text (re_findall DESCRIPTION_PATTERN raw_text))
  /\ (forall raw_text l,
        found 4 None raw_text l ->
        validate_description (PStr (py "N/A")) raw_text
        = Ok (match l with
              | _ :: second :: _ => second
              | _ => py "N/A"
              end))
  /\ (forall c,
        Char.is_space c = false -> Char.is_word c = false ->
        validate_description (PStr (py "N/A"))
          (py "John Carter" ++ c :: py "Vice President Sales")
        = Ok (py "Vice President Sales"))
  /\ (forall c,
        Char.is_space c = true ->
        re_findall DESCRIPTION_PATTERN (py "John Carter" ++ c :: py "Vice President Sales")
        = [py "John Carter" ++ c :: py "Vice President"]
        /\ validate_description (PStr (py "N/A"))
             (py "John Carter" ++ c :: py "Vice President Sales")
           = Ok (py "N/A"))
  /\ validate_description (PStr (py "N/A")) (py "John Carter, Vice President Sales")
     = Ok (py "Vice President Sales").
Proof.
  split; [|split; [|split; [|split]]].
  - intros raw_text. apply (findall_found 2).
  - intros raw_text l Hl. unfold validate_description.
    change (is_str (PStr (py "N/A")) "N/A") with true. cbv iota.
    change DESCRIPTION_PATTERN with (capitalized_run 3).
    rewrite (found_findall 2 _ _ Hl).
    destruct l as [|a [|b l]]; reflexivity.
  - intros c Hs Hw.
    destruct c as [b0 b1 b2 b3 b4 b5 b6 b7];
      destruct b0, b1, b2, b3, b4, b5, b6, b7;
      first [ discriminate Hs | discriminate Hw | vm_compute; reflexivity ].
  - intros c Hs.
    destruct c as [b0 b1 b2 b3 b4 b5 b6 b7];
      destruct b0, b1, b2, b3, b4, b5, b6, b7;
      first [ discriminate Hs | split; vm_compute; reflexivity ].
  - vm_compute. reflexivity.
Qed.

Lemma validate_description_second_match_witness :
  validate_description (PStr (py "N/A")) (py "Dr Who, Senior Vice President Sales")
  = Ok (py "Senior Vice President Sales")
  /\ validate_description (PStr (py "N/A")) (py "John Carter|Vice President Sales")
     = Ok (py "Vice President Sales")
  /\ validate_description (PStr (py "N/A"))
       (py "John Carter" ++ ascii_of_nat 10 :: py "Vice President Sales")
     = Ok (py "N/A").
Proof.
  split; [|split].
  - pose proof (proj1 validate_description_second_match
                  (py "Dr Who, Senior Vice President Sales")) as H.
    change (re_findall DESCRIPTION_PATTERN (py "Dr Who, Senior Vice President Sales"))
      with [py "Dr Who"; py "Senior Vice President Sales"] in H.
    exact (proj1 (proj2 validate_description_second_match) _ _ H).
  - apply (proj1 (proj2 (proj2 validate_description_second_match)) "|"%char);
      reflexivity.
  - apply (proj1 (proj2 (proj2 (proj2 validate_description_second_match)))
             (ascii_of_nat 10)).
    reflexivity.
Defined.

(** C6, as the claim has it, fails.  A candidate that contains
    "+1-415-555-2671" after another number gives what the first number
    gives; a candidate whose digits are "91" and ten more, but in two
    matches, gives "N/A"; and a raw text in which a digit follows
    "+91 99090 48406" gives the number with that digit. *)
Lemma validate_phone_first_match_decides :
  validate_phone (PStr (py "5 +1-415-555-2671")) (py "") = Ok (py "N/A")
  /\ validate_phone (PStr (py "91 x 9909048406")) (py "") = Ok (py "N/A")
  /\ validate_phone (PStr (py "N/A")) (py "+91 99090 48406 7")
     = Ok (py "+91 99090484067").
Proof. repeat split; vm_compute; reflexivity. Qed.

(** C6, amended.  [validate_phone] on a candidate that contains
    "+1-415-555-2671" after text without digits and, parentheses apart,
    before text that does not continue the number, returns
    "+1-415-555-2671", whatever the raw text.  For any candidate whose
    first phone-shaped match has a digit string that starts with "91" and
    has 12 digits, the result is "+91 " followed by [rest[0:2]],
    [rest[2:6]] and [rest[6:10]] with one space between them, [rest] being
    the ten digits after "91".  When the candidate has no phone-shaped
    match, the result is made of the match chosen in the raw text: one of
    seven digits or more, starting with "+" if any such match does, with
    the most digits among those, the first of them; some match is chosen
    as soon as one has seven digits, and the result is "N/A" when none
    has.  So a raw text in which "+91 99090 48406" stands between texts
    without digits gives "+91 99 0904 8406". *)
Theorem validate_phone_formats :
  (forall pre post raw_text,
      Forall (fun c => no_digit c = true) pre ->
      ends_phone (re_sub PARENS delete post) = true ->
      validate_phone (PStr (pre ++ py "+1-415-555-2671" ++ post)) raw_text
      = Ok (py "+1-415-555-2671"))
  /\ (forall phone raw_text m rest,
        re_search PHONE_REGEX (re_sub PARENS delete phone) = Some m ->
        digits_of m = py "91" ++ rest ->
        length rest = 10 ->
        validate_phone (PStr phone) raw_text
        = Ok (py "+91 " ++ slice 0 2 rest ++ py " " ++ slice 2 6 rest
                 ++ py " " ++ slice 6 10 rest))
  /\ (forall phone raw_text,
        re_search PHONE_REGEX (re_sub PARENS delete phone) = None ->
        (forall m,
            chosen (re_findall PHONE_REGEX (re_sub PARENS delete raw_text)) m ->
            validate_phone (PStr phone) raw_text = format_phone m)
        /\ ((exists x, In x (re_findall PHONE_REGEX (re_sub PARENS delete raw_text))
                       /\ 7 <= digit_count x) ->
            exists m, chosen (re_findall PHONE_REGEX (re_sub PARENS delete raw_text)) m)
        /\ ((forall x, In x (re_findall PHONE_REGEX (re_sub PARENS delete raw_text)) ->
                       digit_count x < 7) ->
            validate_phone (PStr phone) raw_text = Ok (py "N/A")))
  /\ (forall phone pre post,
        re_search PHONE_REGEX (re_sub PARENS delete phone) = None ->
        Forall (fun c => no_digit c = true) pre ->
        Forall (fun c => no_digit c = true) post ->
        validate_phone (PStr phone) (pre ++ py "+91 99090 48406" ++ post)
        = Ok (py "+91 99 0904 8406")).
Proof.
  split; [|split; [|split]].
  - intros pre post raw_text Hpre Hpost.
    unfold validate_phone, recursion_limit.
    erewrite validate_phone_direct; [|].
    2:{ rewrite !strip_parens_app.
        unfold re_search. rewrite search_skip;
          [| apply strip_parens_no_digit; exact Hpre | reflexivity].
        change (re_sub PARENS delete (py "+1-415-555-2671"))
          with (py "+1-415-555-2671").
        set (post' := re_sub PARENS delete post) in *.
        set (prev := last_char None _).
        change (py "+1-415-555-2671" ++ post')
          with ("+"%char :: "1"%char :: py "-415-555-2671" ++ post').
        cbn [search_from]. rewrite match_here_phone.
        cbn [phone_here].
        change (Ascii.eqb "+" "+") with true. cbv iota.
        change (Char.is_digit "1") with true. cbv iota.
        rewrite (phone_tail_app post' 13 (py "-415-555-2671"));
          [|vm_compute; lia|reflexivity|exact Hpost].
        change ("+"%char :: "1"%char :: py "-415-555-2671" ++ post')
          with (py "+1-415-555-2671" ++ post').
        rewrite consumed_app. reflexivity. }
    vm_compute. reflexivity.
  - intros phone raw_text m rest Hs Hd Hlen.
    unfold validate_phone, recursion_limit.
    rewrite (validate_phone_direct _ _ _ _ Hs).
    unfold format_phone. rewrite Hd.
    assert (Hl : length (py "91" ++ rest) = 12) by (rewrite length_app, Hlen; reflexivity).
    rewrite Hl. change (12 <? 7) with false. cbv iota.
    unfold country_of. change (Str.startswith (py "91") (py "91" ++ rest)) with true.
    cbv iota. cbn [mbind result_bind].
    change (drop (length (py "91")) (py "91" ++ rest)) with rest.
    rewrite Hlen. change (negb (10 =? 10)) with false. cbv iota.
    change (Str.eqb (py "91") (py "91")) with true. cbv iota.
    do 7 f_equal. unfold slice. simpl.
    rewrite take_ge; [reflexivity|]. rewrite length_drop. lia.
  - intros phone raw_text Hs. split; [|split].
    + intros m Hm. unfold validate_phone, recursion_limit.
      change 1000 with (S (S 998)).
      rewrite (validate_phone_fallback _ _ _ Hs), (best_candidate_chosen _ _ Hm).
      reflexivity.
    + intros (x & Hx & H7). exact (chosen_exists _ x Hx H7).
    + intros Hshort. unfold validate_phone, recursion_limit.
      change 1000 with (S (S 998)).
      rewrite (validate_phone_fallback _ _ _ Hs), (best_candidate_none _ Hshort).
      reflexivity.
  - intros phone pre post Hs Hpre Hpost.
    unfold validate_phone, recursion_limit. change 1000 with (S (S 998)).
    rewrite (validate_phone_fallback _ _ _ Hs).
    rewrite (best_candidate_chosen _ (py "+91 99090 48406")).
    + vm_compute. reflexivity.
    + rewrite !strip_parens_app.
      change (re_sub PARENS delete (py "+91 99090 48406"))
        with ("+"%char :: "9"%char :: py "1 99090 48406").
      rewrite findall_isolated;
        [|apply strip_parens_no_digit; exact Hpre|reflexivity|reflexivity
         |apply strip_parens_no_digit; exact Hpost].
      exists [], []. split; [reflexivity|].
      split; [vm_compute; lia|]. split; [discriminate|].
      split; intros x [].
Qed.

Lemma validate_phone_formats_witness :
  validate_phone (PStr (py "Tel: (+1-415-555-2671) ext")) (py "")
  = Ok (py "+1-415-555-2671")
  /\ validate_phone (PStr (py "+91 99090 48406")) (py "")
     = Ok (py "+91 99 0904 8406")
  /\ validate_phone (PStr (py "N/A")) (py "12 34, 040 2671 555 or +1 415 555")
     = format_phone (py "+1 415 555")
  /\ validate_phone (PStr (py "N/A")) (py "Mobile: +91 99090 48406 (office)")
     = Ok (py "+91 99 0904 8406").
Proof.
  split; [|split; [|split]].
  - apply (proj1 validate_phone_formats (py "Tel: (") (py ") ext") (py "")).
    + vm_compute. repeat constructor.
    + reflexivity.
  - apply (proj1 (proj2 validate_phone_formats)
             (py "+91 99090 48406") (py "") (py "+91 99090 48406") (py "9909048406")).
    + vm_compute. reflexivity.
    + vm_compute. reflexivity.
    + reflexivity.
  - apply (proj1 (proj2 (proj2 validate_phone_formats))
             (py "N/A") (py "12 34, 040 2671 555 or +1 415 555")).
    + vm_compute. reflexivity.
    + exists [py "12 34"; py "040 2671 555"], []. split; [vm_compute; reflexivity|].
      split; [vm_compute; lia|]. split; [discriminate|]. split.
      * intros x [<-|[<-|[]]] [H7 Hp].
        -- vm_compute in H7. lia.
        -- specialize (Hp eq_refl). discriminate Hp.
      * intros x [].
  - apply (proj2 (proj2 (proj2 validate_phone_formats))
             (py "N/A") (py "Mobile: ") (py " (office)")).
    + vm_compute. reflexivity.
    + vm_compute. repeat constructor.
    + vm_compute. repeat constructor.
Defined.

(** C7.  [validate_company] with candidate "N/A" and the raw text
    "contact: jane@simpel.ai" returns "Simpel Ai".  In general, when the
    raw text holds an e-mail address, the result is the text after its
    at-sign with each dot replaced by a space, title-cased. *)
Theorem validate_company_email_domain :
  validate_company (PStr (py "N/A")) (py "contact: jane@simpel.ai")
  = Ok (py "Simpel Ai")
  /\ forall raw_text,
       match re_search EMAIL_REGEX raw_text with
       | Some email =>
           exists loc dom,
             email = loc ++ "@"%char :: dom
             /\ validate_company (PStr (py "N/A")) raw_text
                = Ok (Str.title (Str.replace "."%char " "%char dom))
       | None => True
       end.
Proof.
  split; [vm_compute; reflexivity|].
  intros raw_text.
  destruct (re_search EMAIL_REGEX raw_text) as [email|] eqn:Hs; [|exact I].
  apply company_from_email. exact Hs.
Qed.

(** C8.  On string arguments none of the five validators raises: each
    returns a value. *)
Theorem validators_never_raise (candidate raw_text : str) :
  (exists v, validate_name (PStr candidate) raw_text = Ok v)
  /\ (exists v, validate_company (PStr candidate) raw_text = Ok v)
  /\ (exists v, validate_description (PStr candidate) raw_text = Ok v)
  /\ (exists v, validate_phone (PStr candidate) raw_text = Ok v)
  /\ (exists v, validate_email (PStr candidate) raw_text = Ok v).
Proof.
  repeat split.
  - apply validate_name_ok.
  - apply validate_company_ok.
  - apply validate_description_ok.
  - apply validate_phone_ok.
  - apply validate_email_ok.
Qed.

(** C9.  [validate_phone] returns on all string inputs, and with two stack
    frames: it calls itself at most once.  The candidate it takes from the
    raw text is a match of [PHONE_REGEX] with seven digits or more, which
    [search] finds again whole, so that the inner call returns from the
    branch of the direct match. *)
Theorem validate_phone_terminates (phone raw_text : str) :
  exists v,
    validate_phone (PStr phone) raw_text = Ok v
    /\ (forall n, validate_phone_rec (2 + n) (PStr phone) raw_text = Ok v)
    /\ match best_candidate raw_text with
       | Ok (Some c) =>
           re_search PHONE_REGEX (re_sub PARENS delete c) = Some c
           /\ 7 <= length (digits_of c)
           /\ forall n, validate_phone_rec (1 + n) (PStr c) raw_text = format_phone c
       | Ok None => True
       | Raise _ => False
       end.
Proof.
  destruct (validate_phone_two_frames phone raw_text) as [v Hv].
  exists v. split; [apply (Hv 998)|]. split; [exact Hv|].
  destruct (best_candidate_spec raw_text) as [->|(c & -> & Hin & Hlen)]; [exact I|].
  pose proof (findall_phone_whole _ _ Hin) as Hs.
  split; [exact Hs|]. split; [exact Hlen|].
  intros n. apply validate_phone_direct. exact Hs.
Qed.

(** C10.  When the candidate, its parentheses removed, has a phone-shaped
    match -- the one [search] finds -- the raw text is not looked at: the
    result is the same for every raw text, and it is "N/A" when the match
    has fewer than seven digits. *)
Theorem short_match_ignores_raw_text (phone raw_text m : str) :
  re_search PHONE_REGEX (re_sub PARENS delete phone) = Some m ->
  (forall raw, validate_phone (PStr phone) raw = validate_phone (PStr phone) raw_text)
  /\ (length (digits_of m) < 7 ->
      validate_phone (PStr phone) raw_text = Ok (py "N/A")).
Proof.
  intros Hs. unfold validate_phone, recursion_limit. split.
  - intros raw. rewrite !(validate_phone_direct _ _ _ _ Hs). reflexivity.
  - intros Hlen. rewrite (validate_phone_direct _ _ _ _ Hs).
    unfold format_phone. apply Nat.ltb_lt in Hlen. rewrite Hlen. reflexivity.
Qed.

Lemma short_match_ignores_raw_text_witness :
  (forall raw, validate_phone (PStr (py "ext (12) 34")) raw
               = validate_phone (PStr (py "ext (12) 34")) (py "+91 99090 48406"))
  /\ validate_phone (PStr (py "ext (12) 34")) (py "+91 99090 48406") = Ok (py "N/A").
Proof.
  assert (Hs : re_search PHONE_REGEX (re_sub PARENS delete (py "ext (12) 34"))
               = Some (py "12 34")) by (vm_compute; reflexivity).
  destruct (short_match_ignores_raw_text
              (py "ext (12) 34") (py "+91 99090 48406") (py "12 34") Hs) as [H1 H2].
  split; [exact H1|]. apply H2. vm_compute. lia.
Defined.

(** * Further properties of llm_manager.py *)

(** ** The shape of a formatted phone number *)

Module PhoneShape.

Import ReSpec Scanner PhoneShapeSpec ReFacts PhoneFacts ValidatorFacts.

Lemma digits_of_app a b : digits_of (a ++ b) = digits_of a ++ digits_of b.
Proof. rewrite !digits_of_filter. apply List.filter_app. Qed.

Lemma digits_of_digits ds :
  Forall (fun c => Char.is_digit c = true) ds -> digits_of ds = ds.
Proof. intros H. rewrite digits_of_filter. apply filter_all. exact H. Qed.

Lemma digits_of_are_digits m : Forall (fun c => Char.is_digit c = true) (digits_of m).
Proof.
  rewrite digits_of_filter. apply List.Forall_forall. intros c Hc.
  apply filter_In in Hc. tauto.
Qed.

Lemma startswith_split p : forall s,
  Str.startswith p s = true -> s = p ++ drop (length p) s.
Proof.
  induction p as [|x p IH]; intros s H; [reflexivity|].
  destruct s as [|y s]; [discriminate|]. simpl in H.
  apply andb_true_iff in H. destruct H as [Hxy Hp].
  apply Ascii.eqb_eq in Hxy. subst y. simpl. f_equal. apply IH. exact Hp.
Qed.

Lemma str_eqb_eq a : forall b, Str.eqb a b = true -> a = b.
Proof.
  induction a as [|x a IH]; intros [|y b] H; try discriminate; [reflexivity|].
  simpl in H. apply andb_true_iff in H. destruct H as [Hxy Hab].
  apply Ascii.eqb_eq in Hxy. subst y. f_equal. apply IH. exact Hab.
Qed.

(** The country code is a prefix of the digit string, one to three digits
    long. *)
Lemma country_of_prefix digits country :
  7 <= length digits ->
  country_of digits = Ok country ->
  digits = country ++ drop (length country) digits
  /\ 1 <= length country <= 3.
Proof.
  intros Hlen. unfold country_of.
  destruct (Str.startswith (py "91") digits) eqn:H91.
  { intros [= <-]. split; [apply startswith_split; exact H91|simpl; lia]. }
  destruct (Str.startswith (py "1") digits) eqn:H1.
  { intros [= <-]. split; [apply startswith_split; exact H1|simpl; lia]. }
  destruct digits as [|d0 digits]; [simpl in Hlen; lia|].
  cbn [index nth_error mbind result_bind].
  set (n := if negb (Ascii.eqb d0 "1") && negb (Ascii.eqb d0 "9") then 1
            else if false then 2
            else if 10 <? length (d0 :: digits) then 3 else 1).
  assert (Hn : 1 <= n <= 3).
  { unfold n. repeat match goal with |- context [if ?b then _ else _] => destruct b end; lia. }
  intros [= <-]. rewrite length_take.
  replace (n `min` length (d0 :: digits)) with n by lia.
  split; [symmetry; apply take_drop|exact Hn].
Qed.

(** The three groups of a ten-digit rest. *)
Lemma rest_groups a b rest :
  a <= b ->
  rest = slice 0 a rest ++ slice a b rest ++ drop b rest.
Proof.
  intros Hab. unfold slice. rewrite Nat.sub_0_r, drop_0.
  rewrite <- (take_drop a rest) at 1. f_equal.
  rewrite <- (take_drop (b - a) (drop a rest)) at 1. f_equal.
  rewrite drop_drop. f_equal. lia.
Qed.

Lemma slice_digits lo hi ds :
  Forall (fun c => Char.is_digit c = true) ds ->
  Forall (fun c => Char.is_digit c = true) (slice lo hi ds).
Proof. intros H. unfold slice. apply Forall_take, Forall_drop, H. Qed.

Lemma slice_length lo hi (ds : str) :
  hi <= length ds -> length (slice lo hi ds) = hi - lo.
Proof. intros H. unfold slice. rewrite length_take, length_drop. lia. Qed.

Lemma nonempty_of_length (s : str) : 0 < length s -> s <> [].
Proof. destruct s; simpl; [lia|discriminate]. Qed.

Lemma format_phone_formatted m :
  length (digits_of m) < 7 /\ format_phone m = Ok (py "N/A")
  \/ 7 <= length (digits_of m)
     /\ exists v, format_phone m = Ok v /\ formatted (digits_of m) v.
Proof.
  unfold format_phone.
  destruct (length (digits_of m) <? 7) eqn:Hlen.
  { left. apply Nat.ltb_lt in Hlen. auto. }
  right. apply Nat.ltb_ge in Hlen. split; [exact Hlen|].
  destruct (country_of_ok (digits_of m)) as [country Hc]; [lia|].
  rewrite Hc. cbn [mbind result_bind].
  destruct (country_of_prefix _ _ Hlen Hc) as [Hsplit Hcl].
  set (rest := drop (length country) (digits_of m)) in *.
  assert (Hrl : length (digits_of m) = length country + length rest).
  { rewrite Hsplit at 1. apply length_app. }
  assert (Hcne : country <> []) by (apply nonempty_of_length; lia).
  destruct (negb (length rest =? 10)) eqn:Hten.
  - eexists. split; [reflexivity|].
    apply (F_plain _ country rest); [exact Hsplit|exact Hcne|].
    apply nonempty_of_length. lia.
  - apply negb_false_iff, Nat.eqb_eq in Hten.
    assert (Hg : forall a b, 0 < a -> a < b -> b < 10 ->
              slice 0 a rest <> [] /\ slice a b rest <> [] /\ drop b rest <> []).
    { intros a b Ha Hab Hb. repeat split; apply nonempty_of_length.
      - rewrite slice_length; lia.
      - rewrite slice_length; lia.
      - rewrite length_drop. lia. }
    destruct (Str.eqb country (py "91")) eqn:E91;
      [|destruct (Str.eqb country (py "1")) eqn:E1].
    + eexists. split; [reflexivity|].
      apply str_eqb_eq in E91. subst country.
      destruct (Hg 2 6) as (H1 & H2 & H3); try lia.
      apply (F_groups _ " "%char (py "91") (slice 0 2 rest) (slice 2 6 rest) (drop 6 rest));
        auto.
      rewrite <- (rest_groups 2 6 rest) by lia. exact Hsplit.
    + eexists. split; [reflexivity|].
      apply str_eqb_eq in E1. subst country.
      destruct (Hg 3 6) as (H1 & H2 & H3); try lia.
      apply (F_groups _ "-"%char (py "1") (slice 0 3 rest) (slice 3 6 rest) (drop 6 rest));
        auto.
      rewrite <- (rest_groups 3 6 rest) by lia. exact Hsplit.
    + eexists. split; [reflexivity|].
      destruct (Hg 3 6) as (H1 & H2 & H3); try lia.
      apply (F_groups _ " "%char country (slice 0 3 rest) (slice 3 6 rest) (drop 6 rest));
        auto.
      rewrite <- (rest_groups 3 6 rest) by lia. exact Hsplit.
Qed.

Lemma sep_is_sep sep : sep = " "%char \/ sep = "-"%char ->
  sep_class sep = true /\ Char.is_digit sep = false.
Proof. intros [-> | ->]; split; reflexivity. Qed.

Lemma formatted_parts digits v :
  Forall (fun c => Char.is_digit c = true) digits ->
  formatted digits v ->
  Str.startswith (py "+") v = true /\ digits_of v = digits.
Proof.
  intros Hd Hf. destruct Hf as [country rest -> _ _|sep country g1 g2 g3 -> Hsep _ _ _ _].
  - split; [reflexivity|].
    apply Forall_app in Hd. destruct Hd as [Hc Hr].
    change ("+"%char :: country ++ " "%char :: rest)
      with (py "+" ++ country ++ py " " ++ rest).
    rewrite !digits_of_app, (digits_of_digits country Hc), (digits_of_digits rest Hr).
    reflexivity.
  - split; [reflexivity|].
    apply Forall_app in Hd. destruct Hd as [Hc Hd].
    apply Forall_app in Hd. destruct Hd as [H1 Hd].
    apply Forall_app in Hd. destruct Hd as [H2 H3].
    change ("+"%char :: country ++ sep :: g1 ++ sep :: g2 ++ sep :: g3)
      with (py "+" ++ country ++ [sep] ++ g1 ++ [sep] ++ g2 ++ [sep] ++ g3).
    rewrite !digits_of_app, (digits_of_digits country Hc), (digits_of_digits g1 H1),
      (digits_of_digits g2 H2), (digits_of_digits g3 H3).
    assert (Hs : digits_of [sep] = []) by (destruct Hsep as [-> | ->]; reflexivity).
    rewrite Hs. reflexivity.
Qed.

Lemma phone_tail_digits ds t :
  Forall (fun c => Char.is_digit c = true) ds -> phone_tail (ds ++ t) = phone_tail t.
Proof.
  induction 1 as [|d ds Hd _ IH]; [reflexivity|]. simpl. rewrite Hd. exact IH.
Qed.

Lemma phone_tail_group sep g t :
  sep = " "%char \/ sep = "-"%char ->
  Forall (fun c => Char.is_digit c = true) g -> g <> [] ->
  phone_tail (sep :: g ++ t) = phone_tail t.
Proof.
  intros Hsep Hg Hne. destruct (sep_is_sep sep Hsep) as [Hs Hn].
  destruct g as [|d g]; [contradiction|].
  inversion Hg as [|? ? Hd Hg']; subst.
  cbn [phone_tail app]. rewrite Hn, Hs, Hd. apply phone_tail_digits. exact Hg'.
Qed.

Lemma all_phone_chars ds :
  Forall (fun c => Char.is_digit c = true) ds ->
  Forall (fun c => phone_char c = true) ds.
Proof.
  intros H. eapply Forall_impl; [exact H|]. intros c Hc. unfold phone_char.
  simpl in Hc. rewrite Hc. reflexivity.
Qed.

(** A formatted number is itself one phone-shaped text without parentheses. *)
Lemma formatted_whole digits v :
  Forall (fun c => Char.is_digit c = true) digits ->
  formatted digits v ->
  phone_here None v = Some [] /\ Forall (fun c => phone_char c = true) v.
Proof.
  intros Hd Hf. destruct Hf as [country rest -> Hc0 Hr0|sep country g1 g2 g3 -> Hsep Hc0 H10 H20 H30].
  - apply Forall_app in Hd. destruct Hd as [Hc Hr]. split.
    + destruct country as [|c country]; [contradiction|].
      inversion Hc as [|? ? Hcd Hc']; subst.
      cbn [phone_here app]. change (Ascii.eqb "+" "+") with true. cbv iota.
      rewrite Hcd, (phone_tail_digits country _ Hc').
      rewrite <- (app_nil_r rest), (phone_tail_group " "%char rest []); auto.
    + constructor; [reflexivity|]. apply Forall_app. split; [apply all_phone_chars, Hc|].
      constructor; [reflexivity|apply all_phone_chars, Hr].
  - apply Forall_app in Hd. destruct Hd as [Hc Hd].
    apply Forall_app in Hd. destruct Hd as [H1 Hd].
    apply Forall_app in Hd. destruct Hd as [H2 H3]. split.
    + destruct country as [|c country]; [contradiction|].
      inversion Hc as [|? ? Hcd Hc']; subst.
      cbn [phone_here app]. change (Ascii.eqb "+" "+") with true. cbv iota.
      rewrite Hcd, (phone_tail_digits country _ Hc').
      rewrite (phone_tail_group sep g1), (phone_tail_group sep g2); auto.
      rewrite <- (app_nil_r g3), (phone_tail_group sep g3 []); auto.
    + assert (Hsc : phone_char sep = true) by (destruct Hsep as [-> | ->]; reflexivity).
      constructor; [reflexivity|].
      repeat (first [ apply Forall_app; split | constructor ]);
        auto using all_phone_chars.
Qed.

(** The three ways [validate_phone] ends. *)
Lemma validate_phone_cases phone raw_text :
  (exists m, re_search PHONE_REGEX (re_sub PARENS delete phone) = Some m
             /\ validate_phone (PStr phone) raw_text = format_phone m)
  \/ (re_search PHONE_REGEX (re_sub PARENS delete phone) = None
      /\ best_candidate raw_text = Ok None
      /\ validate_phone (PStr phone) raw_text = Ok (py "N/A"))
  \/ (re_search PHONE_REGEX (re_sub PARENS delete phone) = None
      /\ exists c, In c (re_findall PHONE_REGEX (re_sub PARENS delete raw_text))
                   /\ 7 <= length (digits_of c)
                   /\ validate_phone (PStr phone) raw_text = format_phone c).
Proof.
  unfold validate_phone, recursion_limit.
  destruct (re_search PHONE_REGEX (re_sub PARENS delete phone)) as [m|] eqn:Hs.
  - left. exists m. split; [reflexivity|]. apply validate_phone_direct. exact Hs.
  - right. destruct (best_candidate_spec raw_text) as [Hb|(c & Hb & Hin & Hlen)].
    + left. repeat split; [exact Hb|]. cbn [validate_phone_rec].
      rewrite Hs, Hb. reflexivity.
    + right. split; [reflexivity|]. exists c. repeat split; [exact Hin|exact Hlen|].
      cbn [validate_phone_rec]. rewrite Hs, Hb. cbn [mbind result_bind].
      rewrite (findall_phone_whole _ _ Hin). reflexivity.
Qed.

End PhoneShape.

(** ** Trimming, case and the Markdown patterns *)

Module TextFacts.

Import ReSpec Scanner TextSpec ReFacts PhoneFacts SearchFacts.

Lemma lstrip_in x s :
  In x s -> Char.is_space x = false -> In x (Str.lstrip s).
Proof.
  intros Hin Hx. induction s as [|c s IH]; [contradiction|]. simpl.
  destruct (Char.is_space c) eqn:Hc; [|exact Hin].
  destruct Hin as [->|Hin]; [congruence|]. apply IH. exact Hin.
Qed.

Lemma strip_in x s :
  In x s -> Char.is_space x = false -> In x (Str.strip s).
Proof.
  intros Hin Hx. unfold Str.strip.
  apply in_rev. rewrite rev_involutive.
  apply lstrip_in; [|exact Hx]. apply -> in_rev. apply lstrip_in; assumption.
Qed.

Lemma lstrip_forall (P : ascii -> Prop) s : Forall P s -> Forall P (Str.lstrip s).
Proof.
  induction 1 as [|c s Hc Hs IH]; simpl; [constructor|].
  destruct (Char.is_space c); [exact IH|constructor; assumption].
Qed.

Lemma strip_forall (P : ascii -> Prop) s : Forall P s -> Forall P (Str.strip s).
Proof.
  intros H. unfold Str.strip.
  apply Forall_rev, lstrip_forall, Forall_rev, lstrip_forall, H.
Qed.

Lemma lstrip_blank s :
  Forall (fun c => Char.is_space c = true) s -> Str.lstrip s = [].
Proof. induction 1 as [|c s Hc _ IH]; simpl; [reflexivity|]. rewrite Hc. exact IH. Qed.

Lemma strip_blank s :
  Forall (fun c => Char.is_space c = true) s -> Str.strip s = [].
Proof. intros H. unfold Str.strip. rewrite (lstrip_blank s H). reflexivity. Qed.

Lemma to_lower_not_upper c : Char.is_upper (Char.to_lower c) = false.
Proof.
  destruct c as [b0 b1 b2 b3 b4 b5 b6 b7];
    destruct b0, b1, b2, b3, b4, b5, b6, b7; reflexivity.
Qed.

Lemma lower_no_upper s : Forall (fun c => Char.is_upper c = false) (Str.lower s).
Proof.
  unfold Str.lower. apply List.Forall_forall. intros c Hc.
  apply in_map_iff in Hc. destruct Hc as (x & <- & _). apply to_lower_not_upper.
Qed.

Lemma lower_keeps_at s : In "@"%char s -> In "@"%char (Str.lower s).
Proof.
  intros H. unfold Str.lower.
  change "@"%char with (Char.to_lower "@"%char). apply in_map. exact H.
Qed.

Lemma space_not_alpha c : Char.is_space c = true -> Char.is_alpha c = false.
Proof.
  destruct c as [b0 b1 b2 b3 b4 b5 b6 b7];
    destruct b0, b1, b2, b3, b4, b5, b6, b7; (reflexivity || discriminate).
Qed.

Lemma title_blank s : forall b,
  Forall (fun c => Char.is_space c = true) s -> Str.title_from b s = s.
Proof.
  induction s as [|c s IH]; intros b H; [reflexivity|].
  inversion H as [|? ? Hc Hs]; subst. simpl.
  rewrite (space_not_alpha c Hc). f_equal. apply IH. exact Hs.
Qed.

(** The pieces of a text in which the pattern matches nowhere. *)
Lemma scan_nowhere r (f : str -> str) s : forall fuel prev,
  length s < fuel ->
  (forall q t, (exists pre, s = pre ++ t) -> match_here r q t = None) ->
  concat (map (fun pc => match pc with Matched m => f m | Skipped c => [c] end)
              (scan r fuel prev s)) = s.
Proof.
  induction s as [|c s IH]; intros fuel prev Hfuel Hno;
    (destruct fuel as [|fuel]; [simpl in Hfuel; lia|]); cbn [scan].
  - rewrite Hno by (exists []; reflexivity). reflexivity.
  - rewrite Hno by (exists []; reflexivity). cbn [map concat app]. f_equal.
    apply IH; [simpl in Hfuel; lia|].
    intros q t [pre ->]. apply Hno. exists (c :: pre). reflexivity.
Qed.

Lemma bold_needs_star prev s :
  starts_with_class is_star s = false -> match_here BOLD prev s = None.
Proof.
  intros H. unfold match_here, BOLD. cbn [Cat]. rewrite rmatch_seq, rmatch_lit.
  destruct s as [|c s]; [reflexivity|]. simpl in H. unfold is_star in H.
  rewrite H. reflexivity.
Qed.

Lemma italic_needs_star prev s :
  starts_with_class is_star s = false -> match_here ITALIC prev s = None.
Proof.
  intros H. unfold match_here, ITALIC. cbn [Cat]. rewrite rmatch_seq, rmatch_lit.
  destruct s as [|c s]; [reflexivity|]. simpl in H. unfold is_star in H.
  rewrite H. reflexivity.
Qed.

Lemma no_star_suffix s t :
  Forall (fun c => is_star c = false) s -> (exists pre, s = pre ++ t) ->
  starts_with_class is_star t = false.
Proof.
  intros H [pre ->]. apply Forall_app in H. destruct H as [_ H].
  destruct t as [|c t]; [reflexivity|]. inversion H; subst. assumption.
Qed.

(** Text without an asterisk goes through both substitutions unchanged. *)
Lemma sub_bold_plain f s :
  Forall (fun c => is_star c = false) s -> re_sub BOLD f s = s.
Proof.
  intros H. unfold re_sub, pieces. apply scan_nowhere; [lia|].
  intros q t Ht. apply bold_needs_star. eapply no_star_suffix; eauto.
Qed.

Lemma sub_italic_plain f s :
  Forall (fun c => is_star c = false) s -> re_sub ITALIC f s = s.
Proof.
  intros H. unfold re_sub, pieces. apply scan_nowhere; [lia|].
  intros q t Ht. apply italic_needs_star. eapply no_star_suffix; eauto.
Qed.

(** A lazy repetition of a class walks over the text on which the rest of
    the pattern fails, and stops where it first succeeds. *)
Lemma lazy_class_walk (p : ascii -> bool) k x t : forall fuel prev,
  length (x ++ t) <= fuel ->
  Forall (fun c => p c = true) x ->
  (forall q c u, In c x -> k q (c :: u) = None) ->
  is_Some (k (last_char prev x) t) ->
  repeat_loop (rmatch (Class p)) k false fuel 0 None prev (x ++ t)
  = k (last_char prev x) t.
Proof.
  induction x as [|c x IH]; intros fuel prev Hfuel Hp Hk [a Ha];
    rewrite repeat_loop_unfold; cbv zeta.
  - change (last_char prev []) with prev in *. cbn [app] in *.
    rewrite Ha. reflexivity.
  - inversion Hp as [|? ? Hc Hx]; subst.
    cbn [app]. rewrite (Hk prev c (x ++ t)) by (left; reflexivity).
    cbn [or_else]. destruct fuel as [|fuel]; [simpl in Hfuel; lia|].
    cbn [hi_is_zero pred pred_hi]. rewrite rmatch_class, Hc.
    assert (Hlt : (length (x ++ t) <? length (c :: x ++ t)) = true)
      by (apply Nat.ltb_lt; simpl; lia).
    rewrite Hlt, last_char_cons. apply IH.
    + simpl in Hfuel. lia.
    + exact Hx.
    + intros q c' u Hin. apply Hk. right. exact Hin.
    + rewrite last_char_cons in Ha. eauto.
Qed.

Lemma plain_parts x :
  Forall (fun c => plain c = true) x ->
  Forall (fun c => dot c = true) x /\ Forall (fun c => is_star c = false) x.
Proof.
  intros H. split; eapply Forall_impl; try exact H; intros c Hc; simpl in *;
    unfold plain in Hc; apply andb_true_iff in Hc; destruct Hc as [Hs Hd];
    [exact Hd|apply negb_true_iff; exact Hs].
Qed.

(** One match, from the first character to the last. *)
Lemma sub_whole r (f : str -> str) s :
  s <> [] -> match_here r None s = Some [] ->
  (forall q, match_here r q [] = None) ->
  re_sub r f s = f s.
Proof.
  intros Hne Hm Hnil. unfold re_sub, pieces. cbn [scan]. rewrite Hm, consumed_all.
  destruct s as [|c s]; [contradiction|].
  cbn [length scan]. rewrite Hnil. cbn [map concat]. apply app_nil_r.
Qed.

Lemma inner_wrapped n a x b :
  length a = n -> length b = n -> inner n (a ++ x ++ b) = x.
Proof.
  intros Ha Hb. unfold inner. rewrite drop_app_length' by (symmetry; exact Ha).
  rewrite !length_app, Ha, Hb.
  replace (n + (length x + n) - 2 * n) with (length x) by lia.
  apply take_app_length.
Qed.

Lemma sub_bold_wrapped x :
  Forall (fun c => plain c = true) x ->
  re_sub BOLD (inner 2) (py "**" ++ x ++ py "**") = x.
Proof.
  intros Hx. destruct (plain_parts x Hx) as [Hd Hs].
  rewrite sub_whole.
  - apply inner_wrapped; reflexivity.
  - discriminate.
  - unfold match_here, BOLD, LazyStar. cbn [Cat].
    change (py "**" ++ x ++ py "**")
      with ("*"%char :: "*"%char :: x ++ py "**").
    rewrite rmatch_seq, rmatch_lit. change (Ascii.eqb "*" "*") with true. cbv iota.
    rewrite rmatch_seq, rmatch_lit. change (Ascii.eqb "*" "*") with true. cbv iota.
    rewrite rmatch_seq, rmatch_repeat. rewrite lazy_class_walk.
    + reflexivity.
    + lia.
    + exact Hd.
    + intros q c u Hin. rewrite rmatch_seq, rmatch_lit.
      rewrite List.Forall_forall in Hs. specialize (Hs c Hin).
      unfold is_star in Hs. rewrite Hs. reflexivity.
    + eexists. reflexivity.
  - intros q. reflexivity.
Qed.

Lemma sub_italic_wrapped x :
  Forall (fun c => plain c = true) x ->
  re_sub ITALIC (inner 1) (py "*" ++ x ++ py "*") = x.
Proof.
  intros Hx. destruct (plain_parts x Hx) as [Hd Hs].
  rewrite sub_whole.
  - apply inner_wrapped; reflexivity.
  - discriminate.
  - unfold match_here, ITALIC, LazyStar. cbn [Cat].
    change (py "*" ++ x ++ py "*") with ("*"%char :: x ++ py "*").
    rewrite rmatch_seq, rmatch_lit. change (Ascii.eqb "*" "*") with true. cbv iota.
    rewrite rmatch_seq, rmatch_repeat. rewrite lazy_class_walk.
    + reflexivity.
    + lia.
    + exact Hd.
    + intros q c u Hin. rewrite rmatch_lit.
      rewrite List.Forall_forall in Hs. specialize (Hs c Hin).
      unfold is_star in Hs. rewrite Hs. reflexivity.
    + eexists. reflexivity.
  - intros q. reflexivity.
Qed.

(** [**x**] has no match of the bold pattern when [x] is on two lines, and
    [*x*] none of the bold pattern at all. *)
Lemma sub_bold_single x :
  Forall (fun c => is_star c = false) x ->
  re_sub BOLD (inner 2) (py "*" ++ x ++ py "*") = py "*" ++ x ++ py "*".
Proof.
  intros Hs. unfold re_sub, pieces. apply scan_nowhere; [lia|].
  intros q t [pre Ht]. unfold match_here, BOLD. cbn [Cat].
  rewrite rmatch_seq, rmatch_lit.
  destruct t as [|c t]; [reflexivity|].
  destruct (Ascii.eqb_spec c "*"%char) as [->|]; [|reflexivity].
  rewrite rmatch_seq, rmatch_lit.
  destruct t as [|d t]; [reflexivity|].
  destruct (Ascii.eqb_spec d "*"%char) as [->|]; [|reflexivity].
  (* two asterisks in a row: the text has only the first and the last *)
  assert (Hpair : forall (a : str) pre0 t0,
            Forall (fun c => is_star c = false) a ->
            a ++ py "*" = pre0 ++ "*"%char :: "*"%char :: t0 -> False).
  { clear. intros a. induction a as [|y a IH]; intros pre0 t0 Ha E.
    - destruct pre0 as [|z [|z' pre0]]; discriminate.
    - inversion Ha as [|? ? Hy Ha']; subst.
      destruct pre0 as [|z pre0].
      + simpl in E. injection E as Ey _. subst y. discriminate Hy.
      + simpl in E. injection E as _ E. eapply IH; eauto. }
  destruct pre as [|z pre].
  - simpl in Ht. injection Ht as Ht.
    destruct x as [|y x].
    + simpl in Ht. injection Ht as <-. reflexivity.
    + exfalso. inversion Hs as [|? ? Hy _]; subst. simpl in Ht.
      injection Ht as Ey _. subst y. discriminate Hy.
  - exfalso. simpl in Ht. injection Ht as _ Ht. eapply Hpair; eauto.
Qed.

End TextFacts.

(** ** The extras *)

Import ReSpec Scanner Contact PhoneShapeSpec TextSpec ReFacts PhoneFacts ValidatorFacts SearchFacts ExtractorFacts PhoneShape TextFacts ReplyFacts.

(** X1.  What [validate_phone] returns on strings is "N/A", or it starts
    with "+" and its digits are, in the same order, the at least seven
    digits of one phone-shaped match: the first of the candidate, or one of
    the raw text when the candidate has none. *)
Theorem validate_phone_keeps_digits (phone raw_text : str) :
  exists v,
    validate_phone (PStr phone) raw_text = Ok v
    /\ (v = py "N/A"
        \/ exists m,
             (re_search PHONE_REGEX (re_sub PARENS delete phone) = Some m
              \/ re_search PHONE_REGEX (re_sub PARENS delete phone) = None
                 /\ In m (re_findall PHONE_REGEX (re_sub PARENS delete raw_text)))
             /\ 7 <= length (digits_of m)
             /\ Str.startswith (py "+") v = true
             /\ digits_of v = digits_of m).
Proof.
  assert (Hm : forall m,
            exists v, format_phone m = Ok v
                      /\ (v = py "N/A"
                          \/ 7 <= length (digits_of m)
                             /\ Str.startswith (py "+") v = true
                             /\ digits_of v = digits_of m)).
  { intros m. destruct (format_phone_formatted m) as [[_ H]|(Hlen & v & H & Hf)].
    - exists (py "N/A"). auto.
    - exists v. split; [exact H|]. right. split; [exact Hlen|].
      apply formatted_parts; [apply digits_of_are_digits|exact Hf]. }
  destruct (validate_phone_cases phone raw_text)
    as [(m & Hs & ->)|[(_ & _ & ->)|(Hs & c & Hin & _ & ->)]].
  - destruct (Hm m) as (v & Hv & [Hna|H]); exists v; split; auto.
    right. exists m. tauto.
  - exists (py "N/A"). auto.
  - destruct (Hm c) as (v & Hv & [Hna|H]); exists v; split; auto.
    right. exists c. tauto.
Qed.

(** X2.  A number [validate_phone] has formatted is stable: given back as
    the candidate it is returned unchanged, whatever the raw text. *)
Theorem validate_phone_stable (phone raw_text v raw_text' : str) :
  validate_phone (PStr phone) raw_text = Ok v ->
  v <> py "N/A" ->
  validate_phone (PStr v) raw_text' = Ok v.
Proof.
  intros Hv Hna.
  assert (Hm : exists m, format_phone m = Ok v).
  { destruct (validate_phone_cases phone raw_text)
      as [(m & _ & H)|[(_ & _ & H)|(_ & c & _ & _ & H)]]; rewrite H in Hv.
    - eauto.
    - injection Hv as <-. contradiction.
    - eauto. }
  destruct Hm as [m Hm].
  destruct (format_phone_formatted m) as [[_ H]|(Hlen & v' & H & Hf)];
    rewrite H in Hm; injection Hm as Heq; [symmetry in Heq; contradiction|].
  subst v'.
  pose proof (digits_of_are_digits m) as Hd.
  destruct (formatted_parts _ _ Hd Hf) as [_ Hdig].
  destruct (formatted_whole _ _ Hd Hf) as [Hwhole Hchars].
  unfold validate_phone, recursion_limit.
  erewrite validate_phone_direct.
  2:{ rewrite strip_parens_phone by exact Hchars. apply search_whole. exact Hwhole. }
  unfold format_phone in *. rewrite Hdig. exact H.
Qed.

Lemma validate_phone_stable_witness :
  validate_phone (PStr (py "+1-415-555-2671")) (py "no phone here")
  = Ok (py "+1-415-555-2671").
Proof.
  apply (validate_phone_stable (py "call 1 (415) 555 2671 now") (py "")
           (py "+1-415-555-2671") (py "no phone here")).
  - vm_compute. reflexivity.
  - discriminate.
Defined.

(** X3.  What [validate_email] returns on strings is "N/A", or it holds an
    at-sign and no upper-case letter. *)
Theorem validate_email_result_shape (email raw_text : str) :
  exists v,
    validate_email (PStr email) raw_text = Ok v
    /\ (v = py "N/A"
        \/ In "@"%char v /\ Forall (fun c => Char.is_upper c = false) v).
Proof.
  unfold validate_email, re_match.
  destruct (match_here EMAIL_REGEX None email) as [t|] eqn:Hm.
  - eexists. split; [reflexivity|]. right.
    apply match_here_sound in Hm. destruct Hm as (m & -> & Hm & _).
    apply email_shape in Hm. destruct Hm as (loc & dom & -> & _ & _). split.
    + apply strip_in; [|reflexivity]. apply lower_keeps_at.
      apply in_or_app. left. apply in_or_app. right. left. reflexivity.
    + apply strip_forall, lower_no_upper.
  - destruct (re_search EMAIL_REGEX raw_text) as [m|] eqn:Hs.
    + eexists. split; [reflexivity|]. right.
      apply search_from_sound in Hs. destruct Hs as (pre & prev & t & _ & Hs).
      apply email_shape in Hs. destruct Hs as (loc & dom & -> & _ & _). split.
      * apply lower_keeps_at. apply in_or_app. right. left. reflexivity.
      * apply lower_no_upper.
    + eexists. split; [reflexivity|]. left. reflexivity.
Qed.

(** X4.  [clean_markdown] only trims a string that has no asterisk. *)
Theorem clean_markdown_plain_text (text : str) :
  Forall (fun c => is_star c = false) text ->
  clean_markdown (PStr text) = Ok (PStr (Str.strip text)).
Proof.
  intros H. unfold clean_markdown.
  destruct text as [|c text]; [reflexivity|].
  cbn [truthy length Nat.eqb negb orb is_str].
  destruct (Str.eqb (c :: text) (py "N/A")) eqn:E.
  - apply str_eqb_eq in E. rewrite E. reflexivity.
  - rewrite sub_bold_plain by exact H. rewrite sub_italic_plain by exact H.
    reflexivity.
Qed.

Lemma clean_markdown_plain_text_witness :
  clean_markdown (PStr (py "  Jane Doe ")) = Ok (PStr (py "Jane Doe")).
Proof.
  apply (clean_markdown_plain_text (py "  Jane Doe ")).
  vm_compute. repeat constructor.
Defined.

(** X5.  [clean_markdown] takes the bold wrapper off [**x**] and the italic
    wrapper off [*x*], and trims what is left, when [x] is on one line and
    has no asterisk. *)
Theorem clean_markdown_unwraps (x : str) :
  Forall (fun c => plain c = true) x ->
  clean_markdown (PStr (py "**" ++ x ++ py "**")) = Ok (PStr (Str.strip x))
  /\ clean_markdown (PStr (py "*" ++ x ++ py "*")) = Ok (PStr (Str.strip x)).
Proof.
  intros Hx. destruct (plain_parts x Hx) as [_ Hs]. split.
  - unfold clean_markdown.
    change (negb (truthy (PStr (py "**" ++ x ++ py "**")))
            || is_str (PStr (py "**" ++ x ++ py "**")) "N/A") with false.
    cbv iota. rewrite sub_bold_wrapped by exact Hx.
    rewrite sub_italic_plain by exact Hs. reflexivity.
  - unfold clean_markdown.
    change (negb (truthy (PStr (py "*" ++ x ++ py "*")))
            || is_str (PStr (py "*" ++ x ++ py "*")) "N/A") with false.
    cbv iota. rewrite sub_bold_single by exact Hs.
    rewrite sub_italic_wrapped by exact Hx. reflexivity.
Qed.

Lemma clean_markdown_unwraps_witness :
  clean_markdown (PStr (py "**Jane Doe**")) = Ok (PStr (py "Jane Doe"))
  /\ clean_markdown (PStr (py "*Jane Doe*")) = Ok (PStr (py "Jane Doe")).
Proof.
  apply (clean_markdown_unwraps (py "Jane Doe")).
  vm_compute. repeat constructor.
Defined.

(** X6.  A candidate that is empty or all white space is not taken as
    missing: [validate_name] and [validate_description] return the empty
    string and [validate_company] the empty string or one space, and the
    raw text is not looked at. *)
Theorem blank_candidate_is_not_missing (blank raw_text : str) :
  Forall (fun c => Char.is_space c = true) blank ->
  validate_name (PStr blank) raw_text = Ok []
  /\ validate_description (PStr blank) raw_text = Ok []
  /\ validate_company (PStr blank) raw_text
     = Ok (if nonempty blank then py " " else []).
Proof.
  intros H.
  assert (Hna : is_str (PStr blank) "N/A" = false).
  { cbn [is_str]. destruct blank as [|c blank]; [reflexivity|].
    inversion H as [|? ? Hc _]; subst. cbn [py list_ascii_of_string Str.eqb].
    destruct (Ascii.eqb_spec c "N"%char) as [->|]; [discriminate Hc|reflexivity]. }
  unfold validate_name, validate_description, validate_company. rewrite Hna.
  unfold Str.title. rewrite (title_blank blank false H), (strip_blank blank H).
  repeat split.
  destruct blank as [|c blank]; [reflexivity|].
  rewrite sub_whole.
  - reflexivity.
  - discriminate.
  - unfold match_here, SPACES, Plus. rewrite rmatch_repeat.
    rewrite greedy_class_ok.
    + f_equal. clear Hna. induction H as [|d l Hd _ IH]; [reflexivity|].
      simpl. rewrite Hd. exact IH.
    + lia.
    + right. split; [reflexivity|]. inversion H; subst. assumption.
    + eexists. reflexivity.
  - intros q. reflexivity.
Qed.

Lemma blank_candidate_is_not_missing_witness :
  validate_name (PStr (py "  ")) (py "John Carter, Acme Inc") = Ok []
  /\ validate_description (PStr (py "  ")) (py "John Carter, Acme Inc") = Ok []
  /\ validate_company (PStr (py "  ")) (py "John Carter, Acme Inc") = Ok (py " ").
Proof.
  apply (blank_candidate_is_not_missing (py "  ") (py "John Carter, Acme Inc")).
  repeat constructor.
Defined.

(** X7.  In the record of an accepted reply, a field that the model's
    object lacks, or gives as "N/A", has the value the regex fallback gives
    it from the raw text. *)
Theorem missing_field_gets_fallback
    (json_loads : str -> result pyval) (llm : str -> nat -> llm_reply)
    (text raw : str) (attempt : nat) (content : str)
    (obj d fallback : gmap str pyval) (key : str) :
  llm text attempt = Llm_content content ->
  json_loads (Str.strip content) = Ok (PDict obj) ->
  attempt_body json_loads llm text raw attempt = Ok (Some d) ->
  regex_fallback raw = Ok fallback ->
  In key FIELDS ->
  obj !! key = None \/ obj !! key = Some (PStr (py "N/A")) ->
  d !! key = fallback !! key.
Proof.
  intros Hl Hj Hb Hf Hkey Hobj.
  apply attempt_accepted in Hb.
  destruct Hb as (content' & obj' & cleaned & Hl' & Hj' & Hc & Hv).
  rewrite Hl in Hl'. injection Hl' as <-. rewrite Hj in Hj'. injection Hj' as <-.
  apply validate_fields_values in Hv.
  destruct Hv as (name & company & description & phone & email
                  & Hn & Hco & Hd & Hp & He & ->).
  destruct (regex_fallback_ok raw)
    as (name' & company' & description' & phone' & email'
        & Hn' & Hco' & Hd' & Hp' & He' & Hf').
  rewrite Hf in Hf'. injection Hf' as ->. unfold record_of.
  unfold FIELDS in Hkey. simpl in Hkey.
  destruct Hkey as [<-|[<-|[<-|[<-|[<-|[]]]]]].
  - rewrite (get_sentinel obj cleaned "name" Hc Hobj) in Hn.
    rewrite Hn in Hn'. injection Hn' as <-.
    repeat (first [ rewrite lookup_insert_eq | rewrite lookup_insert_ne by key_ne ]).
    reflexivity.
  - rewrite (get_sentinel obj cleaned "company" Hc Hobj) in Hco.
    rewrite Hco in Hco'. injection Hco' as <-.
    repeat (first [ rewrite lookup_insert_eq | rewrite lookup_insert_ne by key_ne ]).
    reflexivity.
  - rewrite (get_sentinel obj cleaned "description" Hc Hobj) in Hd.
    rewrite Hd in Hd'. injection Hd' as <-.
    repeat (first [ rewrite lookup_insert_eq | rewrite lookup_insert_ne by key_ne ]).
    reflexivity.
  - rewrite (get_sentinel obj cleaned "phone" Hc Hobj) in Hp.
    rewrite Hp in Hp'. injection Hp' as <-.
    repeat (first [ rewrite lookup_insert_eq | rewrite lookup_insert_ne by key_ne ]).
    reflexivity.
  - rewrite (get_sentinel obj cleaned "email" Hc Hobj) in He.
    rewrite He in He'. injection He' as <-.
    repeat (first [ rewrite lookup_insert_eq | rewrite lookup_insert_ne by key_ne ]).
    reflexivity.
Qed.

Lemma missing_field_gets_fallback_witness :
  Example.returned !! py "company" = Some (PStr (py "Simpel Ai")).
Proof.
  rewrite (missing_field_gets_fallback Example.json_loads Example.llm
             Example.text Example.text 0 Example.response Example.parsed
             Example.returned
             (record_of (py "Jane Doe") (py "Simpel Ai") (py "N/A") (py "N/A")
                        (py "jane@simpel.ai"))
             (py "company")).
  - vm_cast_no_check (@eq_refl _ (Some (PStr (py "Simpel Ai")))).
  - reflexivity.
  - vm_cast_no_check (@eq_refl _ (Ok (PDict Example.parsed))).
  - vm_cast_no_check (@eq_refl _ (Ok (Some Example.returned))).
  - vm_cast_no_check
      (@eq_refl _ (Ok (record_of (py "Jane Doe") (py "Simpel Ai") (py "N/A") (py "N/A")
                                 (py "jane@simpel.ai")))).
  - right. left. reflexivity.
  - left. vm_cast_no_check (@eq_refl _ (@None pyval)).
Defined.

(** X8.  [extract_with_llm] reads at most [max_retries] replies of the
    model, those of the attempts 0 to [max_retries] - 1 for the prompt of
    its text: two models that agree on them give the same record. *)
Theorem extract_reads_bounded_replies
    (json_loads : str -> result pyval) (llm llm' : str -> nat -> llm_reply)
    (client : bool) (text : str) (raw_text : option str) (max_retries : Z) :
  (forall attempt, attempt < Z.to_nat max_retries ->
                   llm text attempt = llm' text attempt) ->
  extract_with_llm json_loads llm client text raw_text max_retries
  = extract_with_llm json_loads llm' client text raw_text max_retries.
Proof.
  intros H. unfold extract_with_llm.
  rewrite (attempts_ext json_loads llm llm'); [reflexivity|].
  intros i Hi. apply H. lia.
Qed.

Lemma extract_reads_bounded_replies_witness :
  extract_with_llm Example.json_loads
    (fun _ i => if i <? 3 then Llm_raises (OtherError 0) else Example.llm [] i)
    true Example.text None 3
  = extract_with_llm Example.json_loads (fun _ _ => Llm_raises (OtherError 0))
      true Example.text None 3.
Proof.
  apply extract_reads_bounded_replies.
  intros attempt H. change (Z.to_nat 3) with 3 in H.
  apply Nat.ltb_lt in H. rewrite H. reflexivity.
Defined.

(** X9.  With a client and a text that is not empty, [extract_with_llm]
    returns the record of the first attempt that is accepted, within the
    [max_retries] attempts: nothing is retried after it. *)
Theorem extract_returns_first_accepted
    (json_loads : str -> result pyval) (llm : str -> nat -> llm_reply)
    (text : str) (raw_text : option str) (max_retries : Z)
    (attempt : nat) (d : gmap str pyval) :
  text <> [] ->
  attempt < Z.to_nat max_retries ->
  (forall earlier d', earlier < attempt ->
     attempt_body json_loads llm text (or_text raw_text text) earlier <> Ok (Some d')) ->
  attempt_body json_loads llm text (or_text raw_text text) attempt = Ok (Some d) ->
  extract_with_llm json_loads llm true text raw_text max_retries = Ok d.
Proof.
  intros Htext Hlt Hbefore Hat. unfold extract_with_llm.
  destruct text as [|c text]; [contradiction|].
  cbn [nonempty length Nat.eqb negb orb].
  rewrite (attempts_first json_loads llm _ _ d _ 0 attempt); [reflexivity|lia| |exact Hat].
  intros j d' Hj. apply Hbefore. lia.
Qed.

Lemma extract_returns_first_accepted_witness :
  extract_with_llm Example.json_loads
    (fun _ i => if i <? 1 then Llm_content (py "not json") else Example.llm [] i)
    true Example.text None 3
  = Ok Example.returned.
Proof.
  apply (extract_returns_first_accepted Example.json_loads _ Example.text None 3 1).
  - discriminate.
  - vm_compute. lia.
  - intros earlier d' H. destruct earlier as [|earlier]; [|lia].
    vm_compute. discriminate.
  - vm_cast_no_check (@eq_refl _ (Ok (Some Example.returned))).
Defined.

(** * Further properties: json_manager.py *)

Module StoreFacts.

Import PyInt Store ExtractorFacts.

Lemma to_int_proper (n : Z) : Z.to_int n <> Decimal.Pos Decimal.Nil
                              /\ Z.to_int n <> Decimal.Neg Decimal.Nil.
Proof.
  destruct n as [|p|p]; simpl; split; try discriminate;
    intros [= H]; apply (DecimalPos.Unsigned.to_uint_nonnil p H).
Qed.

(** [str] tells integers apart. *)
Lemma str_of_int_inj a b : str_of_int a = str_of_int b -> a = b.
Proof.
  unfold str_of_int. intros H.
  apply (f_equal string_of_list_ascii) in H.
  rewrite !string_of_list_ascii_of_string in H.
  apply (f_equal DecimalString.NilZero.int_of_string) in H.
  destruct (to_int_proper a) as [Ha1 Ha2]. destruct (to_int_proper b) as [Hb1 Hb2].
  rewrite !DecimalString.NilZero.isi in H by assumption.
  injection H as H. apply (f_equal Z.of_int) in H.
  rewrite !DecimalZ.of_to in H. exact H.
Qed.

Lemma get_user_other users key id v :
  key = str_of_int id ->
  forall other, other <> id ->
    get_user other (Json (PDict (<[key := v]> users)))
    = get_user other (Json (PDict users)).
Proof.
  intros -> other Hne. cbn [get_user].
  rewrite lookup_insert_ne; [reflexivity|].
  intros H. apply str_of_int_inj in H. congruence.
Qed.

Lemma get_user_fresh f : read_users f = Ok (PDict ∅) -> forall id, get_user id f = PNone.
Proof.
  intros H id. destruct f as [| | |v]; try reflexivity.
  simpl in H. injection H as ->. reflexivity.
Qed.

(** What the writers read is what [get_user] reads. *)
Lemma read_users_get f users id :
  read_users f = Ok (PDict users) ->
  get_user id f = default PNone (users !! str_of_int id).
Proof.
  destruct f as [| | |v]; simpl; intros H; try discriminate.
  - injection H as <-. reflexivity.
  - injection H as <-. reflexivity.
  - injection H as ->. reflexivity.
Qed.

(** The two updates on a user whose record is an object. *)
Lemma update_user_field_known id field value now f users user :
  read_users f = Ok (PDict users) ->
  users !! str_of_int id = Some (PDict user) ->
  update_user_field id field value now f
  = (true, Json (PDict (<[str_of_int id :=
                           PDict (<[py "updated_at" := PStr now]>
                                  (<[field := value]> user))]> users))).
Proof. intros Hr Hu. unfold update_user_field. rewrite Hr, Hu. reflexivity. Qed.

Lemma update_user_tokens_known id access_token refresh_token now f users user :
  read_users f = Ok (PDict users) ->
  users !! str_of_int id = Some (PDict user) ->
  update_user_tokens id access_token refresh_token now f
  = (true, Json (PDict (<[str_of_int id :=
                           PDict (<[py "updated_at" := PStr now]>
                                  (if truthy refresh_token
                                   then <[py "refresh_token" := refresh_token]>
                                          (<[py "access_token" := access_token]> user)
                                   else <[py "access_token" := access_token]> user))]>
                         users))).
Proof. intros Hr Hu. unfold update_user_tokens. rewrite Hr, Hu. reflexivity. Qed.

End StoreFacts.

Import PyInt Store StoreCalls StoreFacts.

(** X10.  After a [save_user] that returns [True], [get_user] gives for
    that id a record with the e-mail, the tokens, the sheet id and the id
    that were saved, and for every other id what it gave before. *)
Theorem save_user_then_get_user (telegram_id : Z)
    (email access_token refresh_token sheet_id display_name : pyval)
    (now_created now_updated : str) (f f' : file) :
  save_user telegram_id email access_token refresh_token sheet_id display_name
            now_created now_updated f = (true, f') ->
  (exists record,
      get_user telegram_id f' = PDict record
      /\ record !! py "telegram_id" = Some (PInt telegram_id)
      /\ record !! py "email" = Some email
      /\ record !! py "sheet_id" = Some sheet_id
      /\ record !! py "access_token" = Some access_token
      /\ record !! py "refresh_token" = Some refresh_token
      /\ record !! py "updated_at" = Some (PStr now_updated))
  /\ forall other, other <> telegram_id -> get_user other f' = get_user other f.
Proof.
  unfold save_user. intros H.
  destruct (read_users f) as [[| | | | | |users]|e] eqn:Hr; try discriminate.
  destruct (default (PDict ∅) (users !! str_of_int telegram_id))
    as [| | | | | |existing]; try discriminate.
  injection H as <-. split.
  - eexists. split; [cbn [get_user]; rewrite lookup_insert_eq; reflexivity|].
    repeat split;
      repeat (first [ apply lookup_insert_eq | rewrite lookup_insert_ne by key_ne ]).
  - intros other Hne.
    rewrite (get_user_other users _ telegram_id _ eq_refl other Hne).
    rewrite (read_users_get f users other Hr). reflexivity.
Qed.

Lemma save_user_then_get_user_witness :
  exists record,
    get_user 7 (snd (save_user 7 (PStr (py "a@b.co")) (PStr (py "tok")) PNone
                       (PStr (py "sheet")) PNone (py "t0") (py "t1") Missing))
    = PDict record
    /\ record !! py "email" = Some (PStr (py "a@b.co")).
Proof.
  destruct (save_user_then_get_user 7 (PStr (py "a@b.co")) (PStr (py "tok")) PNone
              (PStr (py "sheet")) PNone (py "t0") (py "t1") Missing
              (snd (save_user 7 (PStr (py "a@b.co")) (PStr (py "tok")) PNone
                      (PStr (py "sheet")) PNone (py "t0") (py "t1") Missing))
              eq_refl) as [(record & Hg & _ & He & _) _].
  exists record. split; assumption.
Defined.

(** X11.  A [save_user] that finds the store readable returns [True], and
    the record it stores keeps the creation time of the record the user
    had, if that has one that is truthy, and takes the current time
    otherwise; its display name is the one given, if truthy, else the one
    the user's record had, if truthy, else "User_" followed by the id.  A
    user who is not in the store counts as one with an empty record. *)
Theorem save_user_keeps_creation (telegram_id : Z)
    (email access_token refresh_token sheet_id display_name : pyval)
    (now_created now_updated : str) (f : file) (users existing : gmap str pyval) :
  read_users f = Ok (PDict users) ->
  users !! str_of_int telegram_id = Some (PDict existing)
  \/ (users !! str_of_int telegram_id = None /\ existing = ∅) ->
  exists f' record,
    save_user telegram_id email access_token refresh_token sheet_id display_name
              now_created now_updated f = (true, f')
    /\ get_user telegram_id f' = PDict record
    /\ record !! py "created_at"
       = Some (match existing !! py "created_at" with
               | Some created => if truthy created then created else PStr now_created
               | None => PStr now_created
               end)
    /\ record !! py "display_name"
       = Some (if truthy display_name then display_name
               else match existing !! py "display_name" with
                    | Some name =>
                        if truthy name then name
                        else PStr (py "User_" ++ str_of_int telegram_id)
                    | None => PStr (py "User_" ++ str_of_int telegram_id)
                    end).
Proof.
  intros Hr Hu. unfold save_user. rewrite Hr.
  assert (He : default (PDict ∅) (users !! str_of_int telegram_id) = PDict existing).
  { destruct Hu as [->|[-> ->]]; reflexivity. }
  rewrite He. do 2 eexists. split; [reflexivity|].
  split; [cbn [get_user]; rewrite lookup_insert_eq; reflexivity|].
  unfold dict_get, py_or.
  split.
  - rewrite lookup_insert_ne by key_ne. rewrite lookup_insert_eq. f_equal.
    destruct (existing !! py "created_at") as [created|]; cbn [default from_option];
      unfold id; reflexivity.
  - do 2 rewrite lookup_insert_ne by key_ne. rewrite lookup_insert_eq. f_equal.
    destruct (truthy display_name); [reflexivity|].
    destruct (existing !! py "display_name") as [name|]; cbn [default from_option];
      unfold id; reflexivity.
Qed.

Lemma save_user_keeps_creation_witness :
  (exists f' record,
     save_user 7 (PStr (py "a@b.co")) (PStr (py "tok")) PNone (PStr (py "sheet")) PNone
               (py "t0") (py "t1") Missing = (true, f')
     /\ get_user 7 f' = PDict record
     /\ record !! py "created_at" = Some (PStr (py "t0"))
     /\ record !! py "display_name" = Some (PStr (py "User_7")))
  /\ (exists f' record,
        save_user 7 (PStr (py "a@b.co")) (PStr (py "tok")) PNone (PStr (py "sheet"))
                  (PStr (py "Ann"))
                  (py "t2") (py "t3")
                  (Json (PDict {[ py "7" := PDict {[ py "created_at" := PStr (py "t0") ]} ]}))
        = (true, f')
        /\ get_user 7 f' = PDict record
        /\ record !! py "created_at" = Some (PStr (py "t0"))
        /\ record !! py "display_name" = Some (PStr (py "Ann"))).
Proof.
  split.
  - destruct (save_user_keeps_creation 7 (PStr (py "a@b.co")) (PStr (py "tok")) PNone
                (PStr (py "sheet")) PNone (py "t0") (py "t1") Missing ∅ ∅ eq_refl)
      as (f' & record & Hs & Hg & Hc & Hd).
    + right. split; [apply lookup_empty|reflexivity].
    + exists f', record. rewrite lookup_empty in Hc, Hd. auto.
  - destruct (save_user_keeps_creation 7 (PStr (py "a@b.co")) (PStr (py "tok")) PNone
                (PStr (py "sheet")) (PStr (py "Ann")) (py "t2") (py "t3")
                (Json (PDict {[ py "7" := PDict {[ py "created_at" := PStr (py "t0") ]} ]}))
                {[ py "7" := PDict {[ py "created_at" := PStr (py "t0") ]} ]}
                {[ py "created_at" := PStr (py "t0") ]} eq_refl)
      as (f' & record & Hs & Hg & Hc & Hd).
    + left. apply lookup_singleton_eq.
    + exists f', record. rewrite lookup_singleton_eq in Hc. auto.
Defined.

(** X12.  A users.json that has text which does not parse, or which
    denotes something else than an object, is never repaired: whatever the
    calls of the five functions made on it, and in whatever order, the file
    stays as it is, each writer returns [False] and [init_json] and
    [get_user] return [None].  (The writers fail before they open the file
    for writing.) *)
Theorem corrupt_store_is_never_repaired (cs : list call) (f : file) :
  unreadable f -> run_calls cs f = (map refusal cs, f).
Proof.
  intros Hf. induction cs as [|c cs IH]; [reflexivity|].
  cbn [run_calls map].
  assert (Hc : run_call c f = (refusal c, f)).
  { destruct c; destruct f as [| | |[]]; try contradiction; reflexivity. }
  rewrite Hc, IH. reflexivity.
Qed.

Lemma corrupt_store_is_never_repaired_witness :
  run_calls [Init_json;
             Save_user 7 (PStr (py "a@b.co")) (PStr (py "tok")) PNone (PStr (py "sheet"))
                       PNone (py "t0") (py "t1");
             Update_user_field 7 (py "email") PNone (py "t2");
             Get_user 7]
            (Garbled JSONDecodeError)
  = ([PNone; PBool false; PBool false; PNone], Garbled JSONDecodeError).
Proof.
  apply (corrupt_store_is_never_repaired
           [Init_json;
            Save_user 7 (PStr (py "a@b.co")) (PStr (py "tok")) PNone (PStr (py "sheet"))
                      PNone (py "t0") (py "t1");
            Update_user_field 7 (py "email") PNone (py "t2");
            Get_user 7]
           (Garbled JSONDecodeError)).
  exact I.
Defined.

(** X13.  [update_user_tokens] on a user whose record is in the store
    returns [True] and stores the access token; it stores the refresh token
    only if it is truthy, and keeps the one the record has otherwise.  But
    for [updated_at] no other field changes, and no other user. *)
Theorem update_user_tokens_effect (telegram_id : Z) (access_token refresh_token : pyval)
    (now : str) (f : file) (users user : gmap str pyval) :
  read_users f = Ok (PDict users) ->
  users !! str_of_int telegram_id = Some (PDict user) ->
  exists f' user',
    update_user_tokens telegram_id access_token refresh_token now f = (true, f')
    /\ get_user telegram_id f' = PDict user'
    /\ user' !! py "access_token" = Some access_token
    /\ user' !! py "refresh_token"
       = (if truthy refresh_token then Some refresh_token
          else user !! py "refresh_token")
    /\ (forall key, key <> py "access_token" -> key <> py "refresh_token" ->
                    key <> py "updated_at" -> user' !! key = user !! key)
    /\ (forall other, other <> telegram_id -> get_user other f' = get_user other f).
Proof.
  intros Hr Hu. do 2 eexists.
  split; [apply (update_user_tokens_known _ _ _ _ _ _ _ Hr Hu)|].
  split; [cbn [get_user]; rewrite lookup_insert_eq; reflexivity|].
  repeat split.
  - destruct (truthy refresh_token);
      repeat (first [ apply lookup_insert_eq | rewrite lookup_insert_ne by key_ne ]).
  - destruct (truthy refresh_token);
      repeat (first [ apply lookup_insert_eq | rewrite lookup_insert_ne by key_ne ]);
      try reflexivity.
  - intros key H1 H2 H3. destruct (truthy refresh_token);
      repeat (rewrite lookup_insert_ne by congruence); reflexivity.
  - intros other Hne.
    rewrite (get_user_other users _ telegram_id _ eq_refl other Hne).
    rewrite (read_users_get f users other Hr). reflexivity.
Qed.

Lemma update_user_tokens_effect_witness :
  exists f' user',
    update_user_tokens 7 (PStr (py "new")) PNone (py "t2")
      (Json (PDict {[ str_of_int 7 := PDict {[ py "refresh_token" := PStr (py "r") ]} ]}))
    = (true, f')
    /\ get_user 7 f' = PDict user'
    /\ user' !! py "access_token" = Some (PStr (py "new"))
    /\ user' !! py "refresh_token" = Some (PStr (py "r")).
Proof.
  destruct (update_user_tokens_effect 7 (PStr (py "new")) PNone (py "t2")
              (Json (PDict {[ str_of_int 7 := PDict {[ py "refresh_token" := PStr (py "r") ]} ]}))
              {[ str_of_int 7 := PDict {[ py "refresh_token" := PStr (py "r") ]} ]}
              {[ py "refresh_token" := PStr (py "r") ]} eq_refl)
    as (f' & user' & H1 & H2 & H3 & H4 & _).
  - apply lookup_singleton_eq.
  - exists f', user'. repeat split; assumption.
Defined.

(** X14.  [update_user_field] on a user whose record is in the store
    returns [True]; afterwards [get_user] gives a record with the value under
    the field, unless the field is [updated_at], which always gets the
    current time; no other field changes, and no other user. *)
Theorem update_user_field_then_get (telegram_id : Z) (field : str) (value : pyval)
    (now : str) (f : file) (users user : gmap str pyval) :
  read_users f = Ok (PDict users) ->
  users !! str_of_int telegram_id = Some (PDict user) ->
  exists f' user',
    update_user_field telegram_id field value now f = (true, f')
    /\ get_user telegram_id f' = PDict user'
    /\ user' !! py "updated_at" = Some (PStr now)
    /\ (field <> py "updated_at" -> user' !! field = Some value)
    /\ (forall key, key <> field -> key <> py "updated_at" -> user' !! key = user !! key)
    /\ (forall other, other <> telegram_id -> get_user other f' = get_user other f).
Proof.
  intros Hr Hu. do 2 eexists.
  split; [apply (update_user_field_known _ _ _ _ _ _ _ Hr Hu)|].
  split; [cbn [get_user]; rewrite lookup_insert_eq; reflexivity|].
  repeat split.
  - apply lookup_insert_eq.
  - intros Hne. rewrite lookup_insert_ne by congruence. apply lookup_insert_eq.
  - intros key H1 H2. rewrite !lookup_insert_ne by congruence. reflexivity.
  - intros other Hne.
    rewrite (get_user_other users _ telegram_id _ eq_refl other Hne).
    rewrite (read_users_get f users other Hr). reflexivity.
Qed.

Lemma update_user_field_then_get_witness :
  exists f' user',
    update_user_field 7 (py "sheet_id") (PStr (py "s2")) (py "t2")
      (Json (PDict {[ str_of_int 7 := PDict {[ py "sheet_id" := PStr (py "s1") ]} ]}))
    = (true, f')
    /\ get_user 7 f' = PDict user'
    /\ user' !! py "sheet_id" = Some (PStr (py "s2")).
Proof.
  destruct (update_user_field_then_get 7 (py "sheet_id") (PStr (py "s2")) (py "t2")
              (Json (PDict {[ str_of_int 7 := PDict {[ py "sheet_id" := PStr (py "s1") ]} ]}))
              {[ str_of_int 7 := PDict {[ py "sheet_id" := PStr (py "s1") ]} ]}
              {[ py "sheet_id" := PStr (py "s1") ]} eq_refl)
    as (f' & user' & H1 & H2 & _ & H4 & _).
  - apply lookup_singleton_eq.
  - exists f', user'. repeat split; try assumption. apply H4. discriminate.
Defined.

(** X15.  Signing out does not take the user out of the store: after the
    three updates of [signout], [get_user] still gives a record, which is
    truthy; its two tokens are [None], [is_authenticated] is [False], and
    the sheet id and every other field but [updated_at] are as before. *)
Theorem signout_keeps_the_user (telegram_id : Z) (now1 now2 now3 : str) (f : file)
    (users user : gmap str pyval) :
  read_users f = Ok (PDict users) ->
  users !! str_of_int telegram_id = Some (PDict user) ->
  truthy (PDict user) = true ->
  exists user',
    get_user telegram_id (signout_store telegram_id now1 now2 now3 f) = PDict user'
    /\ truthy (PDict user') = true
    /\ user' !! py "access_token" = Some PNone
    /\ user' !! py "refresh_token" = Some PNone
    /\ user' !! py "is_authenticated" = Some (PBool false)
    /\ user' !! py "sheet_id" = user !! py "sheet_id"
    /\ (forall key, key <> py "access_token" -> key <> py "refresh_token" ->
                    key <> py "is_authenticated" -> key <> py "updated_at" ->
                    user' !! key = user !! key).
Proof.
  intros Hr Hu Ht. unfold signout_store.
  rewrite (read_users_get f users telegram_id Hr), Hu.
  change (default PNone (Some (PDict user))) with (PDict user). rewrite Ht.
  rewrite (update_user_field_known _ _ _ _ _ _ _ Hr Hu). cbn [snd].
  set (user1 := <[py "updated_at" := PStr now1]> (<[py "access_token" := PNone]> user)).
  set (users1 := <[str_of_int telegram_id := PDict user1]> users).
  rewrite (update_user_field_known telegram_id (py "refresh_token") PNone now2
             (Json (PDict users1)) users1 user1 eq_refl
             ltac:(apply lookup_insert_eq)). cbn [snd].
  set (user2 := <[py "updated_at" := PStr now2]> (<[py "refresh_token" := PNone]> user1)).
  set (users2 := <[str_of_int telegram_id := PDict user2]> users1).
  rewrite (update_user_field_known telegram_id (py "is_authenticated") (PBool false) now3
             (Json (PDict users2)) users2 user2 eq_refl
             ltac:(apply lookup_insert_eq)). cbn [snd get_user].
  rewrite lookup_insert_eq. subst users2 user2 users1 user1.
  eexists. split; [reflexivity|]. repeat split.
  - cbn [truthy]. apply negb_true_iff, Nat.eqb_neq. intros Hsize.
    apply map_size_empty_iff in Hsize.
    apply (f_equal (fun m : gmap str pyval => m !! py "updated_at")) in Hsize.
    rewrite lookup_insert_eq, lookup_empty in Hsize. discriminate.
  - repeat (first [ apply lookup_insert_eq | rewrite lookup_insert_ne by key_ne ]).
  - repeat (first [ apply lookup_insert_eq | rewrite lookup_insert_ne by key_ne ]).
  - repeat (first [ apply lookup_insert_eq | rewrite lookup_insert_ne by key_ne ]).
  - repeat (rewrite lookup_insert_ne by key_ne). reflexivity.
  - intros key H1 H2 H3 H4. rewrite !lookup_insert_ne by congruence. reflexivity.
Qed.

Lemma signout_keeps_the_user_witness :
  exists user',
    get_user 7 (signout_store 7 (py "t1") (py "t2") (py "t3")
                  (Json (PDict {[ str_of_int 7 := PDict {[ py "sheet_id" := PStr (py "s1") ]} ]})))
    = PDict user'
    /\ user' !! py "access_token" = Some PNone
    /\ user' !! py "sheet_id" = Some (PStr (py "s1")).
Proof.
  destruct (signout_keeps_the_user 7 (py "t1") (py "t2") (py "t3")
              (Json (PDict {[ str_of_int 7 := PDict {[ py "sheet_id" := PStr (py "s1") ]} ]}))
              {[ str_of_int 7 := PDict {[ py "sheet_id" := PStr (py "s1") ]} ]}
              {[ py "sheet_id" := PStr (py "s1") ]} eq_refl)
    as (user' & H1 & _ & H3 & _ & _ & H6 & _).
  - apply lookup_singleton_eq.
  - reflexivity.
  - exists user'. repeat split; assumption.
Defined.

(** * Properties of the calls to Google and of the handlers *)

Module SheetsFacts.

Import PyInt Store Sheets Outcome StoreFacts.

Lemma bind_run {A B : Type} (m : M A) (k : A -> M B) w :
  (m ≫= k) w = match m w with
               | (Ok a, w') => k a w'
               | (Raise e, w') => (Raise e, w')
               end.
Proof. reflexivity. Qed.

Lemma wp_ret {A : Type} (a : A) (Q : result A -> world -> Prop) w :
  Q (Ok a) w -> wp (ret a) Q w.
Proof. exact id. Qed.

Lemma wp_mret {A : Type} (a : A) (Q : result A -> world -> Prop) w :
  Q (Ok a) w -> wp (mret a) Q w.
Proof. exact id. Qed.

Lemma wp_raise {A : Type} e (Q : result A -> world -> Prop) w :
  Q (Raise e) w -> wp (raise e) Q w.
Proof. exact id. Qed.

Lemma wp_lift {A : Type} (r : result A) (Q : result A -> world -> Prop) w :
  Q r w -> wp (lift r) Q w.
Proof. exact id. Qed.

Lemma wp_bind {A B : Type} (m : M A) (k : A -> M B) (Q : result B -> world -> Prop) w :
  wp m (fun r w' => match r with
                    | Ok a => wp (k a) Q w'
                    | Raise e => Q (Raise e) w'
                    end) w ->
  wp (m ≫= k) Q w.
Proof.
  unfold wp. rewrite bind_run. destruct (m w) as [[a|e] w']; simpl; auto.
Qed.

Lemma wp_try {A : Type} (m : M A) (h : exn -> M A) (Q : result A -> world -> Prop) w :
  wp m (fun r w' => match r with
                    | Ok a => Q (Ok a) w'
                    | Raise e => wp (h e) Q w'
                    end) w ->
  wp (try_except m h) Q w.
Proof.
  unfold wp, try_except. destruct (m w) as [[a|e] w']; simpl; auto.
Qed.

Lemma wp_mono {A : Type} (m : M A) (Q Q' : result A -> world -> Prop) w :
  wp m Q w -> (forall r w', Q r w' -> Q' r w') -> wp m Q' w.
Proof. unfold wp. auto. Qed.

Section Rules.

Variable net : list request -> request -> exn + response.
Variable clock : nat -> str.

Lemma wp_send r (Q : result response -> world -> Prop) w :
  (forall e, net (sent w) r = inl e -> Q (Raise e) (add_request r w)) ->
  (forall resp, net (sent w) r = inr resp -> Q (Ok resp) (add_request r w)) ->
  wp (send net r) Q w.
Proof.
  intros He Hr. unfold wp, send. destruct (net (sent w) r) eqn:E; simpl; auto.
Qed.

Lemma wp_get_user id (Q : result pyval -> world -> Prop) w :
  Q (Ok (get_user id (store w))) w -> wp (do_get_user id) Q w.
Proof. intros H. exact H. Qed.

Lemma wp_on_store write (Q : result bool -> world -> Prop) w :
  (forall b f, write (clock (ticks w)) (store w) = (b, f) ->
     Q (Ok b) {| store := f; sent := sent w;
                 ticks := if b then S (ticks w) else ticks w;
                 user_data := user_data w |}) ->
  wp (on_store clock write) Q w.
Proof.
  intros H. unfold wp, on_store.
  destruct (write (clock (ticks w)) (store w)) as [b f] eqn:E. simpl. auto.
Qed.

End Rules.

Ltac wp_step :=
  cbv beta iota;
  lazymatch goal with
  | |- wp (mbind _ _) _ _ => apply wp_bind
  | |- wp (try_except _ _) _ _ => apply wp_try
  | |- wp (ret _) _ _ => apply wp_ret
  | |- wp (mret _) _ _ => apply wp_mret
  | |- wp (raise _) _ _ => apply wp_raise
  | |- wp (lift ?r) _ _ => apply wp_lift; destruct r eqn:?
  | |- wp (send _ _) _ _ => apply wp_send; intros
  | |- wp (do_get_user _) _ _ => apply wp_get_user
  | |- wp (on_store _ _) _ _ => apply wp_on_store; intros
  | |- wp (if ?b then _ else _) _ _ => destruct b eqn:?
  | |- wp (match ?x with _ => _ end) _ _ => destruct x eqn:?
  end.

Lemma wp_run {A : Type} (m : M A) (Q : result A -> world -> Prop) w r w' :
  wp m Q w -> m w = (r, w') -> Q r w'.
Proof. unfold wp. intros H E. rewrite E in H. exact H. Qed.

Lemma wp_eq {A : Type} (m : M A) w r w' :
  wp m (fun r0 w0 => r0 = r /\ w0 = w') w -> m w = (r, w').
Proof. unfold wp. destruct (m w). simpl. intros [-> ->]. reflexivity. Qed.

Lemma wp_of_run {A : Type} (m : M A) (Q : result A -> world -> Prop) w r w' :
  m w = (r, w') -> Q r w' -> wp m Q w.
Proof. unfold wp. intros ->. exact id. Qed.

Lemma wp_fst {A : Type} (m : M A) w r :
  wp m (fun r0 _ => r0 = r) w -> fst (m w) = r.
Proof. intros H. exact H. Qed.

Lemma wp_and {A : Type} (m : M A) (Q Q' : result A -> world -> Prop) w :
  wp m Q w -> wp m Q' w -> wp m (fun r w' => Q r w' /\ Q' r w') w.
Proof. unfold wp. auto. Qed.

(** *** The requests added *)

Lemma sends_only_refl P w : sends_only P w w.
Proof. split; [exists []; split; [reflexivity | constructor] | reflexivity]. Qed.

Lemma sends_only_trans P w1 w2 w3 :
  sends_only P w1 w2 -> sends_only P w2 w3 -> sends_only P w1 w3.
Proof.
  intros [(n1 & E1 & F1) U1] [(n2 & E2 & F2) U2]. split.
  - exists (n2 ++ n1). split.
    + rewrite E2, E1. apply app_assoc.
    + apply Forall_app. split; assumption.
  - congruence.
Qed.

Lemma sends_only_step P w s l t :
  (exists new, l = new ++ sent w /\ Forall P new) ->
  sends_only P w {| store := s; sent := l; ticks := t; user_data := user_data w |}.
Proof. intros H. split; [exact H | reflexivity]. Qed.

Lemma added_nil (P : request -> Prop) (l : list request) :
  exists new, l = new ++ l /\ Forall P new.
Proof. exists []. split; [reflexivity | constructor]. Qed.

Lemma added_cons (P : request -> Prop) (l0 l : list request) r :
  P r -> (exists new, l = new ++ l0 /\ Forall P new) ->
  exists new, r :: l = new ++ l0 /\ Forall P new.
Proof.
  intros Hr (new & -> & F). exists (r :: new). split; [reflexivity | constructor; assumption].
Qed.

Lemma sends_only_impl (P P' : request -> Prop) w w' :
  (forall r, P r -> P' r) -> sends_only P w w' -> sends_only P' w w'.
Proof.
  intros H [(new & E & F) U]. split; [|exact U].
  exists new. split; [exact E|]. eapply Forall_impl; eauto.
Qed.

Ltac sends :=
  lazymatch goal with
  | |- sends_only _ ?w ?w' =>
      split; [cbn [sent add_request]; repeat (apply added_cons; [|]); [..|apply added_nil]
             | reflexivity]
  end.

(** *** The store under the updates *)

Lemma known_users t f u :
  get_user t f = PDict u ->
  exists users, f = Json (PDict users) /\ users !! str_of_int t = Some (PDict u).
Proof.
  destruct f as [| | |v]; simpl; try discriminate.
  destruct v; try discriminate.
  intros H. eexists. split; [reflexivity|].
  destruct (_ !! _); simpl in H; [congruence | discriminate].
Qed.

Lemma truthy_insert (k : str) (v : pyval) (m : gmap str pyval) :
  truthy (PDict (<[k := v]> m)) = true.
Proof.
  simpl. apply negb_true_iff, Nat.eqb_neq. intros H.
  apply map_size_empty_iff in H.
  apply (f_equal (fun m => m !! k)) in H.
  rewrite lookup_insert_eq, lookup_empty in H. discriminate.
Qed.

Lemma get_user_insert t users v :
  get_user t (Json (PDict (<[str_of_int t := v]> users))) = v.
Proof. simpl. rewrite lookup_insert_eq. reflexivity. Qed.

Lemma tokens_keep_known t z a r now f b f' :
  known t f -> update_user_tokens z a r now f = (b, f') -> known t f'.
Proof.
  intros (u & Hu & Ht) H.
  destruct (known_users _ _ _ Hu) as (users & -> & Hl).
  unfold update_user_tokens in H. cbn [read_users] in H.
  destruct (users !! str_of_int z) as [[]|] eqn:E;
    try (injection H as <- <-; exists u; split; assumption).
  injection H as <- <-.
  destruct (Z.eq_dec t z) as [->|Hne].
  - eexists. split; [apply get_user_insert | apply truthy_insert].
  - exists u. split; [|assumption].
    rewrite (get_user_other _ _ z _ eq_refl t Hne).
    simpl. rewrite Hl. reflexivity.
Qed.

Lemma field_records t field v now f b f' :
  known t f -> update_user_field t field v now f = (b, f') ->
  field <> py "updated_at" ->
  exists u', get_user t f' = PDict u' /\ u' !! field = Some v.
Proof.
  intros (u & Hu & Ht) H Hf.
  destruct (known_users _ _ _ Hu) as (users & -> & Hl).
  rewrite (update_user_field_known t field v now (Json (PDict users)) users u eq_refl Hl) in H.
  injection H as <- <-.
  eexists. split; [apply get_user_insert|].
  rewrite lookup_insert_ne by (intros E; apply Hf; symmetry; exact E).
  apply lookup_insert_eq.
Qed.

Lemma known_truthy t f : known t f -> truthy (get_user t f) = true.
Proof. intros (u & -> & H). exact H. Qed.

Section Calls.

Variable net : list request -> request -> exn + response.
Variable clock : nat -> str.

Lemma create_spec access_token refresh_token telegram_id w :
  wp (create_contact_sheet net clock access_token refresh_token telegram_id)
     (fun r w' => (exists v, r = Ok v /\ (v = PNone \/ truthy v = true))
                  /\ sends_only is_post w w') w.
Proof.
  unfold create_contact_sheet, refreshed_token, refresh_and_get_access,
    refresh_access_token, do_update_user_tokens, do_update_user_field.
  repeat wp_step.
  all: cbv beta iota; split; [|sends; reflexivity].
  all: cbv beta iota; eexists; (split; [reflexivity|]).
  all: try (left; reflexivity).
  all: right.
  all: try match goal with H : negb (truthy _) = false |- _ =>
         apply negb_false_iff in H; exact H end.
Qed.

Lemma create_records access_token refresh_token t w :
  t <> 0%Z -> known t (store w) ->
  wp (create_contact_sheet net clock access_token refresh_token (Some t))
     (fun r w' => forall v, r = Ok v -> v <> PNone ->
                  exists u', get_user t (store w') = PDict u'
                             /\ u' !! py "sheet_id" = Some v) w.
Proof.
  intros Ht Hk.
  assert (Hg : given (Some t) = Some t) by (destruct t; [congruence | reflexivity..]).
  unfold create_contact_sheet, refreshed_token, refresh_and_get_access,
    refresh_access_token, do_update_user_tokens, do_update_user_field.
  rewrite Hg.
  repeat wp_step.
  all: cbv beta iota; intros v [= <-] Hv; try congruence.
  all: cbn [store add_request] in *.
  all: repeat match goal with
         | H : update_user_tokens _ _ _ _ ?f = (_, ?f') |- _ =>
             lazymatch goal with
             | K : known ?t0 f |- _ =>
                 let K' := fresh "K" in
                 assert (K' : known t0 f') by exact (tokens_keep_known _ _ _ _ _ _ _ _ K H);
                 clear H
             end
         end.
  all: try match goal with
         | H : update_user_field _ _ _ _ ?f = (_, _) |- _ =>
             lazymatch goal with
             | K : known _ f |- _ =>
                 exact (field_records _ _ _ _ _ _ _ K H ltac:(discriminate))
             end
         end.
  all: try match goal with
         | H : truthy (get_user _ ?f) = false |- _ =>
             lazymatch goal with
             | K : known _ f |- _ =>
                 rewrite (known_truthy _ _ K) in H; discriminate
             end
         end.
Qed.

Lemma post_no_put r : is_post r -> no_put r.
Proof. unfold is_post, no_put. congruence. Qed.

Lemma validate_spec sheet_id access_token refresh_token telegram_id w :
  wp (validate_and_get_sheet_id net clock sheet_id access_token refresh_token telegram_id)
     (fun r w' => (exists v, r = Ok v /\ (v = PNone \/ truthy v = true)
                             /\ (truthy sheet_id = true -> truthy v = true))
                  /\ sends_only no_put w w') w.
Proof.
  unfold validate_and_get_sheet_id. destruct (truthy sheet_id) eqn:Ht; cbn [negb].
  - repeat wp_step; cbv beta iota.
    2: { split; [eexists; split; [reflexivity|]; split; [right; exact Ht | auto]
               | sends; discriminate]. }
    all: (eapply wp_mono; [apply create_spec|]); intros r w' [(v & -> & Hv) Hs];
      unfold do_update_user_field; repeat wp_step; cbv beta iota.
    all: split;
      [ eexists; split; [reflexivity|]; unfold py_or;
        destruct (truthy v) eqn:E; auto
      | (eapply sends_only_trans;
          [|eapply sends_only_trans;
              [apply (sends_only_impl _ _ _ _ post_no_put Hs)|sends]]);
        sends; discriminate ].
  - eapply wp_mono; [apply create_spec|].
    intros r w' [(v & -> & Hv) Hs]. split.
    + exists v. split; [reflexivity|]. split; [exact Hv | discriminate].
    + exact (sends_only_impl _ _ _ _ post_no_put Hs).
Qed.

Lemma validate_valid sheet_id access_token refresh_token telegram_id w resp :
  truthy sheet_id = true ->
  net (sent w) (check_request sheet_id access_token) = inr resp ->
  status_code resp = 200%Z ->
  validate_and_get_sheet_id net clock sheet_id access_token refresh_token telegram_id w
  = (Ok sheet_id, add_request (check_request sheet_id access_token) w).
Proof.
  intros Ht Hn Hs. apply wp_eq.
  unfold validate_and_get_sheet_id. rewrite Ht. cbn [negb].
  unfold check_request in Hn.
  repeat wp_step; cbv beta iota; try congruence.
  - split; reflexivity.
  - rewrite Hn in H. injection H as <-. rewrite Hs in Heqb. discriminate.
Qed.

(** The request with its retry, inside [try]: a boolean, whatever the
    network does. *)
Lemma retry_spec (r : pyval -> request) access_token refresh_token telegram_id w :
  wp (try_except
        (send_with_retry net clock r access_token refresh_token telegram_id (ret false))
        (fun _ => ret false))
     (fun res w' => (exists b : bool, res = Ok b) /\ user_data w' = user_data w) w.
Proof.
  unfold send_with_retry, refreshed_token, refresh_and_get_access,
    refresh_access_token, do_update_user_tokens.
  repeat wp_step; cbv beta iota; split; eauto.
Qed.

Lemma append_row_empty sheet_id access_token row refresh_token telegram_id w :
  truthy sheet_id && truthy access_token && truthy row = false ->
  append_row net clock sheet_id access_token row refresh_token telegram_id w
  = (Raise ValueError, w).
Proof. intros H. unfold append_row. rewrite H. reflexivity. Qed.

Lemma append_row_spec sheet_id access_token row refresh_token telegram_id w :
  truthy sheet_id && truthy access_token && truthy row = true ->
  wp (append_row net clock sheet_id access_token row refresh_token telegram_id)
     (fun res w' => exists b : bool, res = Ok b) w.
Proof.
  intros H. unfold append_row. rewrite H. cbn [negb].
  apply andb_prop in H as [H _]. apply andb_prop in H as [Ht _].
  wp_step. eapply wp_mono; [apply validate_spec|].
  intros res w' [(v & -> & _ & Hv) _]. cbv beta iota.
  rewrite (Hv Ht). cbn [negb].
  eapply wp_mono; [apply retry_spec|].
  intros res w2 [Hb _]. exact Hb.
Qed.

Lemma update_row_spec sheet_id access_token row_index field value refresh_token
    telegram_id w :
  wp (update_row net clock sheet_id access_token row_index field value refresh_token
        telegram_id)
     (fun res w' => (exists b : bool, res = Ok b) /\ user_data w' = user_data w) w.
Proof.
  unfold update_row.
  wp_step. eapply wp_mono; [apply validate_spec|].
  intros res w' [(v & -> & _ & _) [_ Hu]]. cbv beta iota.
  destruct (negb (truthy v)); [apply wp_ret; split; eauto|].
  destruct (col_map field); [|apply wp_ret; split; eauto].
  eapply wp_mono; [apply retry_spec|].
  intros res w2 [Hb Hu2]. split; [exact Hb | congruence].
Qed.

Lemma update_row_unknown sheet_id access_token row_index field value refresh_token
    telegram_id w :
  col_map field = None ->
  wp (update_row net clock sheet_id access_token row_index field value refresh_token
        telegram_id)
     (fun res w' => res = Ok false /\ sends_only no_put w w') w.
Proof.
  intros Hc. unfold update_row. rewrite Hc.
  wp_step. eapply wp_mono; [apply validate_spec|].
  intros res w' [(v & -> & _ & _) Hs]. cbv beta iota.
  repeat wp_step; cbv beta iota; split; auto.
Qed.

Lemma get_rows_spec sheet_id access_token num_rows refresh_token telegram_id w :
  wp (get_rows net clock sheet_id access_token num_rows refresh_token telegram_id)
     (fun res w' => (exists v, res = Ok v) /\ sends_only no_put w w') w.
Proof.
  unfold get_rows.
  wp_step. eapply wp_mono; [apply validate_spec|].
  intros res w' [(v & -> & _ & _) Hs]. cbv beta iota.
  repeat wp_step; cbv beta iota; (split; [eauto|]).
  all: try exact Hs.
  all: (eapply sends_only_trans; [exact Hs|]); sends; discriminate.
Qed.

(** *** Reading the rows *)

Lemma window_all (rows : list pyval) : slice_from rows 0 = rows.
Proof. reflexivity. Qed.

Lemma slice_from_last {A : Type} (l : list A) (n : Z) :
  (0 < n)%Z -> (n < Z.of_nat (length l))%Z ->
  slice_from l (- n) = drop (length l - Z.to_nat n) l.
Proof.
  intros H0 H1. unfold slice_from, position.
  destruct (Z.ltb_spec (- n) 0); [|lia].
  f_equal. lia.
Qed.

Lemma rows_of_response_served resp (rows : list pyval) num_rows :
  json resp = Ok (PDict {[ py "values" := PList (header_row :: rows) ]}) ->
  rows_of_response resp num_rows
  = Ok (PList (if (num_rows <? Z.of_nat (length rows))%Z
               then slice_from rows (- num_rows) else rows)).
Proof.
  intros Hj. unfold rows_of_response. rewrite Hj. cbn [mbind result_bind get_or].
  rewrite lookup_singleton_eq. cbn [from_option]. unfold id.
  cbn [truthy length Nat.eqb negb py_len mbind result_bind].
  change (0 <? Z.of_nat (S (length rows)))%Z with true. cbv iota.
  change (py_item (PList (header_row :: rows)) 0) with (Ok header_row).
  cbn [mbind result_bind].
  change (py_item header_row 0) with (Ok (PStr (py "Timestamp"))).
  cbn [mbind result_bind].
  change (is_str (PStr (py "Timestamp")) "Timestamp") with true. cbv iota.
  change (py_slice_from (PList (header_row :: rows)) 1) with (Ok (PList rows)).
  cbn [mbind result_bind py_len].
  destruct (num_rows <? Z.of_nat (length rows))%Z; reflexivity.
Qed.

Lemma get_rows_served sheet_id access_token num_rows refresh_token telegram_id w rows :
  serves net sheet_id rows -> truthy sheet_id = true ->
  get_rows net clock sheet_id access_token num_rows refresh_token telegram_id w
  = (Ok (PList (if (num_rows <? Z.of_nat (length rows))%Z
                then slice_from rows (- num_rows) else rows)),
     add_request (values_request sheet_id access_token)
       (add_request (check_request sheet_id access_token) w)).
Proof.
  intros Hs Ht. apply wp_eq. unfold get_rows.
  destruct (Hs (sent w) (check_request sheet_id access_token)) as (r1 & E1 & S1 & _).
  wp_step. eapply wp_of_run; [exact (validate_valid _ _ _ _ _ _ Ht E1 S1)|].
  cbv beta iota. rewrite Ht. cbn [negb].
  wp_step. wp_step. wp_step.
  - destruct (Hs (sent (add_request (check_request sheet_id access_token) w))
                {| req_verb := GET; req_url := Values_A_F sheet_id;
                   req_bearer := Some access_token; req_body := No_body |})
      as (r2 & E2 & _). congruence.
  - destruct (Hs (sent (add_request (check_request sheet_id access_token) w))
                {| req_verb := GET; req_url := Values_A_F sheet_id;
                   req_bearer := Some access_token; req_body := No_body |})
      as (r2 & E2 & S2 & J2).
    rewrite E2 in H. injection H as <-.
    cbv beta iota. rewrite S2. change (200 =? 200)%Z with true. cbv iota.
    rewrite (rows_of_response_served r2 rows num_rows (J2 eq_refl)).
    split; reflexivity.
Qed.

Lemma window_last (rows : list pyval) (n : Z) :
  (0 < n)%Z ->
  (if (n <? Z.of_nat (length rows))%Z then slice_from rows (- n) else rows)
  = last_rows (Z.to_nat n) rows.
Proof.
  intros Hn. unfold last_rows. destruct (Z.ltb_spec n (Z.of_nat (length rows))).
  - apply slice_from_last; assumption.
  - replace (length rows - Z.to_nat n) with 0 by lia. reflexivity.
Qed.

(** A first row that is empty: [values[0][0]] raises, and the rows are lost. *)
Lemma rows_of_response_empty_first (resp : response) (d : gmap str pyval)
    (rest : list pyval) (num_rows : Z) :
  json resp = Ok (PDict d) -> d !! py "values" = Some (PList (PList [] :: rest)) ->
  rows_of_response resp num_rows = Raise IndexError.
Proof.
  intros Hj Hd. unfold rows_of_response. rewrite Hj. cbn [mbind result_bind get_or].
  rewrite Hd. reflexivity.
Qed.

(** *** Deleting rows *)

Lemma insert_desc_in x l y : In y (insert_desc x l) <-> y = x \/ In y l.
Proof.
  induction l as [|z l IH]; simpl.
  - intuition.
  - destruct (Z.ltb_spec z x); [simpl; intuition|].
    destruct (Z.eqb_spec z x) as [->|Hne]; [simpl; intuition|].
    simpl. rewrite IH. intuition.
Qed.

Lemma sorted_desc_in l y : In y (sorted_desc l) <-> In y l.
Proof.
  induction l as [|x l IH]; simpl; [reflexivity|].
  rewrite insert_desc_in, IH. intuition.
Qed.

Lemma insert_desc_sorted x l :
  StronglySorted Z.gt l -> StronglySorted Z.gt (insert_desc x l).
Proof.
  induction l as [|z l IH]; simpl; intros Hs.
  - repeat constructor.
  - apply StronglySorted_inv in Hs as [Hs Hz].
    destruct (Z.ltb_spec z x).
    + constructor; [constructor; assumption|].
      constructor; [lia|].
      eapply List.Forall_impl; [|exact Hz]. simpl. intros; lia.
    + destruct (Z.eqb_spec z x) as [->|Hne]; [constructor; assumption|].
      constructor; [apply IH; exact Hs|].
      apply List.Forall_forall. intros y Hy. apply insert_desc_in in Hy as [->|Hy].
      * lia.
      * rewrite List.Forall_forall in Hz. apply Hz, Hy.
Qed.

Lemma sorted_desc_sorted l : StronglySorted Z.gt (sorted_desc l).
Proof.
  induction l as [|x l IH]; simpl; [constructor|]. apply insert_desc_sorted, IH.
Qed.

Lemma delete_row_rec_list depth sheet_id access_token l refresh_token telegram_id :
  truthy sheet_id = true -> l <> [] ->
  delete_row_rec net clock (S depth) sheet_id access_token (Index_list l) refresh_token
    telegram_id
  = (sheet_id ← validate_and_get_sheet_id net clock sheet_id access_token refresh_token
                  telegram_id;
     if negb (truthy sheet_id) then ret 0%Z
     else
       deleted ← try_except
                   (send_with_retry net clock
                      (fun token => batch_request sheet_id token
                                      (delete_ranges (sorted_desc l)))
                      access_token refresh_token telegram_id (ret false))
                   (fun _ => ret false);
       if (deleted : bool) then ret (Z.of_nat (length (sorted_desc l)))
       else
         foldl (fun (acc : M Z) idx =>
                  success ← acc;
                  one ← delete_row_rec net clock depth sheet_id access_token
                          (Index_int (idx + 1)) refresh_token telegram_id;
                  ret (if (one =? 0)%Z then success else (success + 1)%Z))
               (ret 0%Z) (sorted_desc l)).
Proof.
  intros Ht Hl. cbn [delete_row_rec]. rewrite Ht.
  destruct l; [congruence|]. reflexivity.
Qed.

Lemma delete_row_rec_int depth sheet_id access_token i refresh_token telegram_id w :
  truthy sheet_id = true -> i <> 0%Z ->
  fst (delete_row_rec net clock (S depth) sheet_id access_token (Index_int i)
         refresh_token telegram_id w) = Raise TypeError.
Proof.
  intros Ht Hi. cbn [delete_row_rec]. rewrite Ht. cbn [negb orb no_indices].
  destruct (Z.eqb_spec i 0); [congruence|].
  apply wp_fst.
  wp_step. eapply wp_mono; [apply validate_spec|].
  intros res w' [(v & -> & _ & Hv) _]. cbv beta iota.
  rewrite (Hv Ht). reflexivity.
Qed.

Lemma delete_row_rec_zero depth sheet_id access_token refresh_token telegram_id w :
  delete_row_rec net clock (S depth) sheet_id access_token (Index_int 0)
    refresh_token telegram_id w = (Ok 0%Z, w).
Proof.
  cbn [delete_row_rec no_indices]. change (0 =? 0)%Z with true.
  rewrite orb_true_r. reflexivity.
Qed.

Section Fallback.

Variables (depth : nat) (sheet_id access_token refresh_token : pyval)
  (telegram_id : option Z).
Hypothesis Ht : truthy sheet_id = true.

Lemma one_by_one_raised acc e l :
  (forall w, fst (acc w) = Raise e) ->
  forall w, fst (foldl (one_by_one net clock (S depth) sheet_id access_token refresh_token
                  telegram_id) acc l w) = Raise e.
Proof.
  revert acc. induction l as [|x l IH]; intros acc Ha; [exact Ha|].
  cbn [foldl]. apply IH. intros w. unfold one_by_one. rewrite bind_run.
  specialize (Ha w). destruct (acc w) as [[a|e'] w']; simpl in *; congruence.
Qed.

Lemma one_by_one_raises acc x :
  x <> (-1)%Z ->
  (forall w, exists a w', acc w = (Ok a, w')) ->
  forall w, fst (one_by_one net clock (S depth) sheet_id access_token refresh_token
                    telegram_id acc x w) = Raise TypeError.
Proof.
  intros Hx Ha w. unfold one_by_one. rewrite bind_run.
  destruct (Ha w) as (a & w' & ->). rewrite bind_run.
  pose proof (delete_row_rec_int depth sheet_id access_token (x + 1) refresh_token
                telegram_id w' Ht ltac:(lia)) as H.
  destruct (delete_row_rec _ _ _ _ _ _ _ _ w') as [[one|e] w2]; simpl in *; congruence.
Qed.

Lemma one_by_one_skips acc :
  (forall w, exists a w', acc w = (Ok a, w')) ->
  forall w, exists a w', one_by_one net clock (S depth) sheet_id access_token refresh_token
                    telegram_id acc (-1)%Z w = (Ok a, w').
Proof.
  intros Ha w. unfold one_by_one. rewrite bind_run.
  destruct (Ha w) as (a & w' & ->). rewrite bind_run.
  change (-1 + 1)%Z with 0%Z. rewrite delete_row_rec_zero. eauto.
Qed.

Lemma fallback_raises l :
  List.NoDup l -> (exists x, In x l /\ x <> (-1)%Z) ->
  forall w, fst (foldl (one_by_one net clock (S depth) sheet_id access_token refresh_token
                  telegram_id) (ret 0%Z) l w) = Raise TypeError.
Proof.
  intros Hn (x & Hx & Hne).
  assert (Hr : forall w : world, exists a w', ret (A := Z) 0%Z w = (Ok a, w'))
    by (intros w; eexists _, _; reflexivity).
  destruct l as [|d1 l]; [destruct Hx|].
  cbn [foldl]. destruct (Z.eq_dec d1 (-1)%Z) as [->|Hd].
  - destruct Hx as [Hx|Hx]; [congruence|].
    destruct l as [|d2 l]; [destruct Hx|].
    cbn [foldl]. apply one_by_one_raised.
    apply one_by_one_raises.
    + apply List.NoDup_cons_iff in Hn as [Hn _]. simpl in Hn. intuition congruence.
    + apply one_by_one_skips, Hr.
  - apply one_by_one_raised. apply one_by_one_raises; [exact Hd | exact Hr].
Qed.

End Fallback.

Lemma sorted_desc_nodup l : List.NoDup (sorted_desc l).
Proof.
  pose proof (sorted_desc_sorted l) as H.
  induction H as [|a l' Hs IH Hf]; constructor; [|exact IH].
  intros Hin. rewrite List.Forall_forall in Hf. specialize (Hf a Hin). lia.
Qed.

Lemma delete_row_served sheet_id access_token l refresh_token telegram_id w rows :
  serves net sheet_id rows -> truthy sheet_id = true -> l <> [] ->
  delete_row net clock sheet_id access_token (Index_list l) refresh_token telegram_id w
  = (Ok (Z.of_nat (length (sorted_desc l))),
     add_request (batch_request sheet_id access_token (delete_ranges (sorted_desc l)))
       (add_request (check_request sheet_id access_token) w)).
Proof.
  intros Hs Ht Hl. unfold delete_row, recursion_limit. change 1000 with (S 999).
  rewrite delete_row_rec_list by assumption.
  apply wp_eq.
  destruct (Hs (sent w) (check_request sheet_id access_token)) as (r1 & E1 & S1 & _).
  wp_step. eapply wp_of_run; [exact (validate_valid _ _ _ _ _ _ Ht E1 S1)|].
  cbv beta iota. rewrite Ht. cbn [negb]. unfold send_with_retry.
  wp_step. wp_step. wp_step. wp_step.
  - destruct (Hs (sent (add_request (check_request sheet_id access_token) w))
                (batch_request sheet_id access_token (delete_ranges (sorted_desc l))))
      as (r2 & E2 & _). congruence.
  - destruct (Hs (sent (add_request (check_request sheet_id access_token) w))
                (batch_request sheet_id access_token (delete_ranges (sorted_desc l))))
      as (r2 & E2 & S2 & _).
    rewrite E2 in H. injection H as <-.
    cbv beta iota. rewrite S2. change (200 =? 200)%Z with true. cbv iota.
    split; reflexivity.
Qed.

Lemma delete_row_refused sheet_id access_token l refresh_token telegram_id w :
  refuses_batches net -> truthy sheet_id = true ->
  (exists x, In x l /\ x <> (-1)%Z) ->
  fst (delete_row net clock sheet_id access_token (Index_list l) refresh_token
         telegram_id w) = Raise TypeError.
Proof.
  intros Hr Ht Hx. unfold delete_row, recursion_limit. change 1000 with (S (S 998)).
  rewrite delete_row_rec_list; [|assumption|destruct Hx as (x & Hx & _); destruct l;
                                              [destruct Hx | discriminate]].
  apply wp_fst.
  wp_step. eapply wp_mono; [apply validate_spec|].
  intros res w' [(v & -> & _ & Hv) _]. cbv beta iota.
  specialize (Hv Ht). rewrite Hv. cbn [negb].
  unfold send_with_retry.
  wp_step. wp_step. wp_step. wp_step.
  all: cbv beta iota.
  all: pose proof (Hr (sent w') (batch_request v access_token
                                   (delete_ranges (sorted_desc l))) v eq_refl) as Hb;
    rewrite H in Hb.
  2: { destruct Hb as [H200 H401].
       destruct (Z.eqb_spec (status_code resp) 200); [contradiction|].
       destruct (Z.eqb_spec (status_code resp) 401); [contradiction|].
       cbn [andb]. apply wp_ret. cbv beta iota.
       apply (fallback_raises 998 v access_token refresh_token telegram_id Hv).
       - apply sorted_desc_nodup.
       - destruct Hx as (x & Hx & Hne). exists x. split; [|exact Hne].
         apply sorted_desc_in, Hx. }
  apply wp_ret. cbv beta iota.
  apply (fallback_raises 998 v access_token refresh_token telegram_id Hv).
  - apply sorted_desc_nodup.
  - destruct Hx as (x & Hx & Hne). exists x. split; [|exact Hne].
    apply sorted_desc_in, Hx.
Qed.

End Calls.

End SheetsFacts.

Module PyIntFacts.

Import PyInt.

Lemma uint_digits u :
  Forall (fun c => Char.is_digit c = true)
         (list_ascii_of_string (DecimalString.NilEmpty.string_of_uint u)).
Proof.
  induction u; simpl; constructor; try assumption; reflexivity.
Qed.

Lemma nilzero_uint u :
  u <> Decimal.Nil ->
  DecimalString.NilZero.string_of_uint u = DecimalString.NilEmpty.string_of_uint u.
Proof. destruct u; [congruence | reflexivity..]. Qed.

Lemma str_of_pos p :
  str_of_int (Zpos p)
  = list_ascii_of_string (DecimalString.NilEmpty.string_of_uint (Pos.to_uint p)).
Proof.
  unfold str_of_int. cbn [Z.to_int DecimalString.NilZero.string_of_int].
  rewrite nilzero_uint; [reflexivity|].
  intros H. exact (DecimalPos.Unsigned.to_uint_nonnil p H).
Qed.

Lemma str_of_int_digits d :
  (0 <= d)%Z ->
  Forall (fun c => Char.is_digit c = true) (str_of_int d) /\ str_of_int d <> [].
Proof.
  intros Hd. destruct d as [|p|p]; [| |lia].
  - split; [repeat constructor | discriminate].
  - rewrite str_of_pos. split; [apply uint_digits|].
    pose proof (DecimalPos.Unsigned.to_uint_nonnil p) as Hn.
    destruct (Pos.to_uint p); [congruence | discriminate..].
Qed.

Lemma digits_not_blank s :
  Forall (fun c => Char.is_digit c = true) s -> skip_blank s = s.
Proof.
  intros H. destruct H as [|c s Hc _]; [reflexivity|]. simpl.
  assert (is_blank c = false) as ->; [|reflexivity].
  unfold Char.is_digit, Char.between, Char.code in Hc. unfold is_blank, Char.code.
  change (nat_of_ascii "0") with 48 in Hc. change (nat_of_ascii "9") with 57 in Hc.
  apply andb_prop in Hc as [H1 H2]. apply Nat.leb_le in H1.
  apply orb_false_iff. split.
  - apply andb_false_iff. right. apply Nat.leb_gt. lia.
  - apply Nat.eqb_neq. lia.
Qed.

Lemma digits_grouped s :
  Forall (fun c => Char.is_digit c = true) s -> s <> [] -> grouped false s = true.
Proof.
  intros H Hne. destruct H as [|c s Hc Hs]; [congruence|]. simpl. rewrite Hc.
  clear Hne Hc. induction Hs as [|c' s' Hc' _ IH]; simpl; [reflexivity|].
  rewrite Hc'. exact IH.
Qed.

Lemma digit_not c (x : ascii) :
  Char.is_digit c = true -> Char.is_digit x = false -> Ascii.eqb c x = false.
Proof.
  intros Hc Hx. destruct (Ascii.eqb_spec c x) as [->|]; [congruence | reflexivity].
Qed.

Lemma digits_filter (x : ascii) s :
  Char.is_digit x = false ->
  Forall (fun c => Char.is_digit c = true) s ->
  List.filter (fun c => negb (Ascii.eqb c x)) s = s.
Proof.
  intros Hx H. induction H as [|c s Hc _ IH]; simpl; [reflexivity|].
  rewrite (digit_not c x Hc Hx). simpl. rewrite IH. reflexivity.
Qed.

(** [int(str(n))] is [n]. *)
Lemma py_int_str_of_int d : (0 <= d)%Z -> py_int (str_of_int d) = Ok d.
Proof.
  intros Hd. destruct (str_of_int_digits d Hd) as [Hdig Hne].
  unfold py_int. rewrite (digits_not_blank _ Hdig).
  assert (Hrev : Forall (fun c => Char.is_digit c = true) (rev (str_of_int d)))
    by (apply Forall_rev; exact Hdig).
  rewrite (digits_not_blank _ Hrev), rev_involutive.
  destruct (str_of_int d) as [|c s] eqn:E; [congruence|].
  assert (Hc : Char.is_digit c = true) by (inversion Hdig; assumption).
  rewrite (digit_not c "-"%char Hc eq_refl), (digit_not c "+"%char Hc eq_refl).
  rewrite (digits_grouped _ Hdig) by discriminate.
  unfold value_of. rewrite (digits_filter "_"%char _ eq_refl Hdig).
  rewrite <- E. unfold str_of_int. rewrite string_of_list_ascii_of_string.
  destruct d as [|p|p]; [reflexivity| |lia].
  cbn [Z.to_int DecimalString.NilZero.string_of_int].
  rewrite nilzero_uint
    by (intros H; exact (DecimalPos.Unsigned.to_uint_nonnil p H)).
  rewrite DecimalString.NilEmpty.usu.
  f_equal. exact (DecimalZ.of_to (Zpos p)).
Qed.

Lemma isdigit_str_of_int d : (0 <= d)%Z -> isdigit (str_of_int d) = true.
Proof.
  intros Hd. destruct (str_of_int_digits d Hd) as [Hdig Hne].
  unfold isdigit. apply andb_true_intro. split.
  - destruct (str_of_int d); [congruence | reflexivity].
  - apply forallb_forall. rewrite List.Forall_forall in Hdig.
    intros c Hc. rewrite (Hdig c Hc). reflexivity.
Qed.

Lemma ascii_not_superscript c : Char.code c < 128 -> is_superscript c = false.
Proof.
  intros H. unfold is_superscript.
  repeat (apply orb_false_iff; split); apply Nat.eqb_neq; lia.
Qed.

(** [int] on an ASCII text that [isdigit] takes. *)
Lemma py_int_digits s :
  Forall (fun c => Char.code c < 128) s ->
  isdigit s = true -> exists v, py_int s = Ok v.
Proof.
  unfold isdigit. intros Hascii H. apply andb_prop in H as [Hne Hall].
  assert (Hdig : Forall (fun c => Char.is_digit c = true) s).
  { apply List.Forall_forall. intros c Hc.
    rewrite forallb_forall in Hall. specialize (Hall c Hc).
    rewrite List.Forall_forall in Hascii.
    rewrite (ascii_not_superscript c (Hascii c Hc)), orb_false_r in Hall. exact Hall. }
  unfold py_int. rewrite (digits_not_blank _ Hdig).
  assert (Hrev : Forall (fun c => Char.is_digit c = true) (rev s))
    by (apply Forall_rev; exact Hdig).
  rewrite (digits_not_blank _ Hrev), rev_involutive.
  destruct s as [|c s]; [discriminate|].
  assert (Hc : Char.is_digit c = true) by (inversion Hdig; assumption).
  rewrite (digit_not c "-"%char Hc eq_refl), (digit_not c "+"%char Hc eq_refl).
  rewrite (digits_grouped _ Hdig) by discriminate.
  unfold value_of. rewrite (digits_filter "_"%char _ eq_refl Hdig).
  assert (Hu : forall t, Forall (fun c => Char.is_digit c = true) t ->
               exists u, DecimalString.NilEmpty.uint_of_string (string_of_list_ascii t)
                         = Some u).
  { clear. intros t Ht. induction Ht as [|c t Hc _ [u IH]]; simpl; [eauto|].
    rewrite IH.
    unfold Char.is_digit, Char.between, Char.code in Hc.
    destruct c as [[] [] [] [] [] [] [] []]; try discriminate Hc; simpl; eauto. }
  destruct (Hu _ Hdig) as [u ->]. eauto.
Qed.

End PyIntFacts.

Module BotFacts.

Import PyInt Store Sheets Bot Outcome StoreFacts SheetsFacts PyIntFacts.

(** *** Splitting *)

Lemma split_acc_none (sep : ascii) s : forall cur,
  Forall (fun c => Ascii.eqb c sep = false) s ->
  Str.split_acc sep cur s = [rev cur ++ s].
Proof.
  induction s as [|c s IH]; intros cur H; simpl.
  - rewrite app_nil_r. reflexivity.
  - inversion H as [|? ? Hc Hs]; subst. rewrite Hc, (IH _ Hs). simpl.
    rewrite <- app_assoc. reflexivity.
Qed.

Lemma split_none (sep : ascii) s :
  Forall (fun c => Ascii.eqb c sep = false) s -> Str.split sep s = [s].
Proof. intros H. unfold Str.split. rewrite (split_acc_none sep s [] H). reflexivity. Qed.

Lemma digits_without (x : ascii) s :
  Char.is_digit x = false ->
  Forall (fun c => Char.is_digit c = true) s ->
  Forall (fun c => Ascii.eqb c x = false) s.
Proof.
  intros Hx H. eapply List.Forall_impl; [|exact H].
  intros c Hc. exact (digit_not c x Hc Hx).
Qed.

Lemma digit_not_space c : Char.is_digit c = true -> Char.is_space c = false.
Proof.
  unfold Char.is_digit, Char.between, Char.is_space, Char.code.
  change (nat_of_ascii "0") with 48. change (nat_of_ascii "9") with 57.
  intros H. apply andb_prop in H as [H1 H2].
  apply Nat.leb_le in H1. apply Nat.leb_le in H2.
  repeat (apply orb_false_iff; split).
  - apply andb_false_iff. right. apply Nat.leb_gt. lia.
  - apply andb_false_iff. right. apply Nat.leb_gt. lia.
  - apply Nat.eqb_neq. lia.
Qed.

Lemma lstrip_digits s :
  Forall (fun c => Char.is_digit c = true) s -> Str.lstrip s = s.
Proof.
  intros H. destruct H as [|c s Hc _]; [reflexivity|]. simpl.
  rewrite (digit_not_space c Hc). reflexivity.
Qed.

Lemma strip_digits s :
  Forall (fun c => Char.is_digit c = true) s -> Str.strip s = s.
Proof.
  intros H. unfold Str.strip. rewrite (lstrip_digits s H).
  rewrite (lstrip_digits (rev s)) by (apply Forall_rev; exact H).
  apply rev_involutive.
Qed.

Lemma count_digits (x : ascii) s :
  Char.is_digit x = false ->
  Forall (fun c => Char.is_digit c = true) s -> count x s = 0.
Proof.
  intros Hx H. unfold count. induction H as [|c s Hc _ IH]; simpl; [reflexivity|].
  destruct (Ascii.eqb_spec x c) as [->|]; [congruence | exact IH].
Qed.

(** *** The numbers that are taken *)

Lemma range_set_in start stop i :
  i ∈ range_set start stop <-> (start <= i < stop)%Z.
Proof.
  unfold range_set. rewrite elem_of_list_to_set, elem_of_seqZ. lia.
Qed.

Lemma lstrip_ascii s :
  Forall (fun c => Char.code c < 128) s ->
  Forall (fun c => Char.code c < 128) (Str.lstrip s).
Proof.
  induction 1 as [|c s Hc Hs IH]; [constructor|]. cbn [Str.lstrip].
  destruct (Char.is_space c); [exact IH|constructor; assumption].
Qed.

Lemma strip_ascii s : ascii_text s -> ascii_text (Str.strip s).
Proof.
  unfold ascii_text, Str.strip. intros H.
  apply Forall_rev, lstrip_ascii, Forall_rev, lstrip_ascii, H.
Qed.

Lemma split_acc_ascii sep s : forall cur,
  ascii_text cur -> ascii_text s -> Forall ascii_text (Str.split_acc sep cur s).
Proof.
  unfold ascii_text.
  induction s as [|c s IH]; intros cur Hcur Hs; cbn [Str.split_acc].
  - constructor; [apply Forall_rev; exact Hcur|constructor].
  - inversion Hs as [|? ? Hc Hs']; subst.
    destruct (Ascii.eqb c sep).
    + constructor; [apply Forall_rev; exact Hcur|]. apply IH; [constructor|exact Hs'].
    + apply IH; [constructor; assumption|exact Hs'].
Qed.

Lemma split_ascii sep s : ascii_text s -> Forall ascii_text (Str.split sep s).
Proof. intros H. apply split_acc_ascii; [constructor|exact H]. Qed.

Lemma parse_part_spec total valid indices part :
  ascii_text part ->
  in_range total indices ->
  exists valid' indices',
    parse_part total (valid, indices) part = Ok (valid', indices')
    /\ in_range total indices'.
Proof.
  intros Hascii Hin. unfold parse_part.
  destruct (negb (nonempty (Str.strip part))); [eauto|].
  destruct ((0 <? count "-" (Str.strip part)) && (count "-" (Str.strip part) =? 1)).
  - destruct (_ ≫= _) as [[start stop]|e]; [|eauto].
    destruct ((1 <=? start) && (start <=? stop) && (stop <=? total))%Z eqn:E; [|eauto].
    eexists _, _. split; [reflexivity|].
    apply andb_prop in E as [E E3]. apply andb_prop in E as [E1 E2].
    intros i Hi. apply elem_of_union in Hi as [Hi|Hi]; [apply Hin, Hi|].
    apply range_set_in in Hi. lia.
  - destruct (isdigit (Str.strip part)) eqn:Ed; [|eauto].
    destruct (py_int_digits _ (strip_ascii _ Hascii) Ed) as [v ->].
    cbn [mbind result_bind].
    destruct ((1 <=? v) && (v <=? total))%Z eqn:E; [|eauto].
    eexists _, _. split; [reflexivity|].
    apply andb_prop in E as [E1 E2].
    intros i Hi. apply elem_of_union in Hi as [Hi|Hi]; [apply Hin, Hi|].
    apply elem_of_singleton in Hi. lia.
Qed.

Lemma parse_parts_spec total parts : forall valid indices,
  Forall ascii_text parts ->
  in_range total indices ->
  exists valid' indices',
    foldl (fun state part => state ← state; parse_part total state part)
          (Ok (valid, indices)) parts = Ok (valid', indices')
    /\ in_range total indices'.
Proof.
  induction parts as [|p parts IH]; intros valid indices Hascii Hin; cbn [foldl];
    [eauto|].
  inversion Hascii as [|? ? Hp Hparts]; subst.
  cbn [mbind result_bind].
  destruct (parse_part_spec total valid indices p Hp Hin) as (v' & ix' & -> & Hin').
  apply IH; assumption.
Qed.

(** *** Stepping through a handler *)

Lemma wp_set_data key v (Q : result unit -> world -> Prop) w :
  Q (Ok tt) {| store := store w; sent := sent w; ticks := ticks w;
               user_data := <[py key := v]> (user_data w) |} ->
  wp (set_data key v) Q w.
Proof. intros H. exact H. Qed.

Lemma wp_pop_data key (Q : result unit -> world -> Prop) w :
  Q (Ok tt) {| store := store w; sent := sent w; ticks := ticks w;
               user_data := base.delete (py key) (user_data w) |} ->
  wp (pop_data key) Q w.
Proof. intros H. exact H. Qed.

Ltac wp_go :=
  repeat (cbv beta iota;
    lazymatch goal with
    | |- wp (mbind _ _) _ _ => apply wp_bind
    | |- wp (ret _) _ _ => apply wp_ret
    | |- wp (mret _) _ _ => apply wp_mret
    | |- wp (lift (Ok _)) _ _ => apply wp_lift
    | |- wp (lift (Raise _)) _ _ => apply wp_lift
    | |- wp (do_get_user _) _ _ => apply wp_get_user
    | |- wp (set_data _ _) _ _ => apply wp_set_data
    | |- wp (pop_data _) _ _ => apply wp_pop_data
    | |- wp (try_except _ _) _ _ => apply wp_try
    end); cbv beta iota.

Lemma parse_single d total :
  (1 <= d <= total)%Z -> parse_delete_input (str_of_int d) total = Ok (true, {[ d ]}).
Proof.
  intros Hd. destruct (str_of_int_digits d ltac:(lia)) as [Hdig Hne].
  unfold parse_delete_input.
  rewrite (split_none "," _ (digits_without ","%char _ eq_refl Hdig)).
  cbn [foldl mbind result_bind]. unfold parse_part.
  rewrite (strip_digits _ Hdig).
  assert (nonempty (str_of_int d) = true) as ->
    by (destruct (str_of_int d); [congruence | reflexivity]).
  cbn [negb]. rewrite (count_digits "-"%char _ eq_refl Hdig). cbn [Z.ltb Nat.ltb Nat.leb andb].
  rewrite (isdigit_str_of_int d ltac:(lia)), (py_int_str_of_int d ltac:(lia)).
  cbn [mbind result_bind].
  destruct (Z.leb_spec 1 d); [|lia]. destruct (Z.leb_spec d total); [|lia].
  cbn [andb]. rewrite (left_id_L ∅ (∪)). reflexivity.
Qed.

Lemma split_button (field : string) s :
  Forall (fun c => Ascii.eqb c "_"%char = false) (py field) ->
  Forall (fun c => Ascii.eqb c "_"%char = false) s ->
  Str.split "_" (py "edit_" ++ py field ++ "_"%char :: s) = [py "edit"; py field; s].
Proof.
  intros Hf Hs. unfold Str.split. cbn -[py Str.split_acc]. simpl (py "edit_" ++ _).
  cbn [Str.split_acc Ascii.eqb Bool.eqb rev app].
  assert (E : forall a cur, Forall (fun c => Ascii.eqb c "_"%char = false) a ->
            Str.split_acc "_" cur (a ++ "_"%char :: s) = (rev cur ++ a) :: [s]).
  { induction a as [|c a IH]; intros cur Ha; simpl.
    - rewrite app_nil_r. f_equal. apply (split_acc_none "_"%char s [] Hs).
    - inversion Ha as [|? ? Hc Ha']; subst. rewrite Hc, (IH _ Ha'). simpl.
      rewrite <- app_assoc. reflexivity. }
  rewrite (E (py field) [] Hf). reflexivity.
Qed.

(** *** Rows and cells *)

Lemma item_lookup {A : Type} (l : list A) (i : nat) x :
  l !! i = Some x -> item l (Z.of_nat i) = Ok x.
Proof.
  intros H. unfold item, position.
  destruct (Z.ltb_spec (Z.of_nat i) 0); [lia|].
  destruct (Z.ltb_spec (Z.of_nat i) 0); [lia|].
  unfold index. rewrite Nat2Z.id.
  assert (E : nth_error l i = l !! i)
    by (clear; revert i; induction l; destruct i; simpl; auto).
  rewrite E, H. reflexivity.
Qed.

Lemma cell_or_list cells (i : nat) fallback :
  cell_or (PList cells) (Z.of_nat i) fallback
  = Ok (default (PStr (py fallback)) (cells !! i)).
Proof.
  unfold cell_or. cbn [py_len mbind result_bind].
  destruct (Z.ltb_spec (Z.of_nat i) (Z.of_nat (length cells))).
  - destruct (lookup_lt_is_Some_2 cells i ltac:(lia)) as [x Hx].
    cbn [py_item]. rewrite (item_lookup _ _ _ Hx), Hx. reflexivity.
  - rewrite lookup_ge_None_2 by lia. reflexivity.
Qed.

Lemma all_rows_lookup rows i :
  all_rows rows -> i < length rows -> exists cells, rows !! i = Some (PList cells).
Proof.
  intros Ha Hi. destruct (lookup_lt_is_Some_2 rows i Hi) as [row Hr].
  unfold all_rows in Ha. rewrite Forall_forall in Ha.
  destruct (Ha row) as [cells ->]; [eapply list_elem_of_lookup_2; exact Hr|].
  eauto.
Qed.

Section Served.

Variable net : list request -> request -> exn + response.
Variable clock : nat -> str.
Variables (sheet_id access_token : pyval) (rows : list pyval) (user_id : Z).
Hypothesis Hserves : serves net sheet_id rows.

Lemma rows_of_user_served u num_rows w :
  u !! py "sheet_id" = Some sheet_id ->
  u !! py "access_token" = Some access_token ->
  truthy sheet_id = true ->
  rows_of_user net clock (PDict u) num_rows user_id w
  = (Ok (PList (if (num_rows <? Z.of_nat (length rows))%Z
                then slice_from rows (- num_rows) else rows)),
     after_rows sheet_id access_token w).
Proof.
  intros Hs Ha Ht. unfold rows_of_user.
  rewrite !bind_run. unfold lift, subscript, get_or. rewrite Hs.
  rewrite !bind_run. rewrite Ha. rewrite !bind_run.
  apply (get_rows_served net clock _ _ _ _ _ _ rows Hserves Ht).
Qed.

Lemma wp_ex {A : Type} (m : M A) (a : A) (P : world -> Prop) w :
  wp m (fun r w' => r = Ok a /\ P w') w -> exists w', m w = (Ok a, w') /\ P w'.
Proof.
  unfold wp. destruct (m w) as [r w']. simpl. intros [-> H]. eauto.
Qed.

Lemma lookup_rev_displayed (d : Z) :
  (1 <= d <= Z.of_nat (length rows))%Z ->
  rev rows !! Z.to_nat (d - 1) = rows !! (length rows - Z.to_nat d).
Proof.
  intros Hd. rewrite List.rev_alt. change (rev_append rows []) with (reverse rows).
  rewrite reverse_lookup by lia. f_equal. lia.
Qed.

Lemma handle_edit_row_input_served d w :
  signed_in user_id sheet_id access_token (store w) -> all_rows rows ->
  (1 <= d <= Z.of_nat (length rows))%Z -> length rows <= 50 ->
  exists cells,
    rows !! (length rows - Z.to_nat d) = Some (PList cells)
    /\ exists w',
      handle_edit_row_input net clock (str_of_int d) user_id w
      = (Ok (Choose_a_field d (cell cells 1) (cell cells 2) (cell cells 3)
               (cell cells 4) (cell cells 5)
               (map (fun field => py field ++ str_of_int (Z.of_nat (length rows) - d))
                    ["edit_name_"; "edit_company_"; "edit_desc_"; "edit_phone_";
                     "edit_email_"]%string)), w')
      /\ user_data w'
         = base.delete (py "mode")
             (<[py "editing" := PBool true]>
                (<[py "editing_row" := PInt (Z.of_nat (length rows) - d)]>
                   (user_data w))).
Proof.
  intros (u & Hu & Hsid & Htok & Ht) Hall Hd Hn.
  destruct (all_rows_lookup rows (length rows - Z.to_nat d) Hall ltac:(lia))
    as [cells Hcells].
  exists cells. split; [exact Hcells|].
  destruct (str_of_int_digits d ltac:(lia)) as [Hdig Hne].
  apply wp_ex. unfold handle_edit_row_input.
  rewrite (strip_digits _ Hdig), (isdigit_str_of_int d ltac:(lia)). cbn [negb].
  rewrite (py_int_str_of_int d ltac:(lia)).
  wp_go. rewrite Hu.
  eapply wp_of_run; [apply rows_of_user_served; assumption|].
  destruct (Z.ltb_spec 50 (Z.of_nat (length rows))); [lia|].
  wp_go. cbn [py_len]. wp_go.
  assert (Htr : truthy (PList rows) = true).
  { simpl. destruct rows; [simpl in Hd; lia | reflexivity]. }
  rewrite Htr. cbn [negb orb].
  destruct (Z.ltb_spec d 1); [lia|]. destruct (Z.ltb_spec (Z.of_nat (length rows)) d); [lia|].
  cbn [orb]. wp_go. cbn [py_reversed]. wp_go.
  assert (Hrow : py_item (PList (rev rows)) (d - 1) = Ok (PList cells)).
  { cbn [py_item]. rewrite <- (Z2Nat.id (d - 1)) by lia.
    apply item_lookup. rewrite lookup_rev_displayed by lia. exact Hcells. }
  rewrite Hrow. wp_go.
  rewrite (cell_or_list cells 1), (cell_or_list cells 2), (cell_or_list cells 3),
    (cell_or_list cells 4), (cell_or_list cells 5).
  wp_go.
  replace (Z.of_nat (length rows) - 1 - (d - 1))%Z with (Z.of_nat (length rows) - d)%Z
    by lia.
  split; reflexivity.
Qed.

Lemma handle_delete_rows_input_served d w :
  signed_in user_id sheet_id access_token (store w) ->
  (1 <= d <= Z.of_nat (length rows))%Z -> length rows <= 100 ->
  exists w',
    handle_delete_rows_input net clock (str_of_int d) user_id w = (Ok (Deleted 1), w')
    /\ sent w'
       = batch_request sheet_id access_token
           [(Z.of_nat (length rows) - d + 2, Z.of_nat (length rows) - d + 3)%Z]
         :: check_request sheet_id access_token
         :: values_request sheet_id access_token
         :: check_request sheet_id access_token :: sent w
    /\ user_data w' = base.delete (py "editing") (base.delete (py "mode") (user_data w)).
Proof.
  intros (u & Hu & Hsid & Htok & Ht) Hd Hn.
  destruct (str_of_int_digits d ltac:(lia)) as [Hdig Hne].
  apply wp_ex. unfold handle_delete_rows_input.
  rewrite (strip_digits _ Hdig).
  wp_go. rewrite Hu.
  eapply wp_of_run; [apply rows_of_user_served; assumption|].
  destruct (Z.ltb_spec 100 (Z.of_nat (length rows))); [lia|].
  wp_go. cbn [py_len]. wp_go.
  assert (Htr : truthy (PList rows) = true).
  { simpl. destruct rows; [simpl in Hd; lia | reflexivity]. }
  rewrite Htr. cbn [negb].
  rewrite (parse_single d _ Hd). wp_go.
  rewrite size_singleton. cbn [negb orb Nat.eqb]. wp_go.
  rewrite elements_singleton. cbn [map_result mbind result_bind].
  unfold displayed_to_actual.
  destruct (Z.leb_spec 1 d); [|lia].
  destruct (Z.leb_spec d (Z.of_nat (length rows))); [|lia].
  cbn [andb mbind result_bind]. wp_go.
  unfold subscript, get_or. rewrite Hsid, Htok. wp_go.
  eapply wp_of_run;
    [apply (delete_row_served net clock _ _ _ _ _ _ rows Hserves Ht); discriminate|].
  wp_go. cbn [sorted_reverse foldr insert_reverse sorted_desc insert_desc delete_ranges
                 map sent add_request user_data]; unfold after_rows;
    cbn [sent add_request user_data].
  split; [reflexivity|]. split; [|reflexivity].
  replace (Z.of_nat (length rows) - (d - 1) + 1)%Z
    with (Z.of_nat (length rows) - d + 2)%Z by lia.
  replace (Z.of_nat (length rows) - (d - 1) + 2)%Z
    with (Z.of_nat (length rows) - d + 3)%Z by lia.
  reflexivity.
Qed.

Lemma name_button_run k w :
  signed_in user_id sheet_id access_token (store w) -> (0 <= k)%Z ->
  wp (handle_edit_field net clock (py "edit_name_" ++ str_of_int k) user_id)
     (fun r w' =>
        ((Z.of_nat (length (last_rows 10 rows)) <= k)%Z ->
           r = Ok Invalid_entry /\ user_data w' = user_data w)
        /\ (forall cells, last_rows 10 rows !! Z.to_nat k = Some (PList cells) ->
              r = Ok (Enter_new_value "Name" (k + 1) (cell cells 1))
              /\ user_data w' = <[py "editing" := editing_name k]> (user_data w))) w.
Proof.
  intros (u & Hu & Hsid & Htok & Ht) Hk.
  destruct (str_of_int_digits k Hk) as [Hdig Hne].
  unfold handle_edit_field.
  change (py "edit_name_" ++ str_of_int k)
    with (py "edit_" ++ py "name" ++ "_"%char :: str_of_int k).
  rewrite (split_button "name" (str_of_int k)
             ltac:(repeat constructor) (digits_without "_"%char _ eq_refl Hdig)).
  cbn [index nth_error]. wp_go. rewrite (py_int_str_of_int k Hk).
  wp_go. rewrite Hu.
  eapply wp_of_run; [apply rows_of_user_served; assumption|].
  rewrite (window_last rows 10 eq_refl). change (Z.to_nat 10) with 10.
  wp_go. cbn [py_len]. wp_go.
  destruct (Z.leb_spec (Z.of_nat (length (last_rows 10 rows))) k) as [Hle|Hlt].
  - wp_go. split; [auto|].
    intros cells Hc. apply lookup_lt_Some in Hc. lia.
  - destruct (lookup_lt_is_Some_2 (last_rows 10 rows) (Z.to_nat k) ltac:(lia)) as [row Hrow].
    assert (Hitem : py_item (PList (last_rows 10 rows)) k = Ok row).
    { cbn [py_item]. rewrite <- (Z2Nat.id k) at 1 by lia. apply item_lookup, Hrow. }
    rewrite Hitem. wp_go.
    change (field_map (py "name")) with (Some (1%Z, "Name"%string)). cbv beta iota.
    wp_step. wp_step.
    + wp_go. split; [lia|].
      intros cells Hc. rewrite Hrow in Hc. injection Hc as ->.
      rewrite (cell_or_list cells 1) in Heqr. injection Heqr as <-.
      split; reflexivity.
    + cbv beta iota. split; [lia|].
      intros cells Hc. rewrite Hrow in Hc. injection Hc as ->.
      rewrite (cell_or_list cells 1) in Heqr. discriminate.
Qed.

End Served.

Section Buttons.

Variable net : list request -> request -> exn + response.
Variable clock : nat -> str.

Lemma desc_button_route i :
  (0 <= i)%Z -> handle_callback_route (py "edit_desc_" ++ str_of_int i) = Edit_field.
Proof.
  intros Hi. destruct (str_of_int_digits i Hi) as [Hdig Hne].
  unfold handle_callback_route.
  change (py "edit_desc_" ++ str_of_int i)
    with (py "edit_" ++ py "desc" ++ "_"%char :: str_of_int i).
  rewrite (split_button "desc" (str_of_int i)
             ltac:(repeat constructor) (digits_without "_"%char _ eq_refl Hdig)).
  reflexivity.
Qed.

Lemma desc_button_reply i from_user w :
  (0 <= i)%Z ->
  wp (handle_edit_field net clock (py "edit_desc_" ++ str_of_int i) from_user)
     (fun r w' => (r = Ok Invalid_entry \/ r = Ok Invalid_field
                   \/ r = Ok Error_starting_edit)
                  /\ user_data w' = user_data w) w.
Proof.
  intros Hi. destruct (str_of_int_digits i Hi) as [Hdig Hne].
  unfold handle_edit_field.
  change (py "edit_desc_" ++ str_of_int i)
    with (py "edit_" ++ py "desc" ++ "_"%char :: str_of_int i).
  rewrite (split_button "desc" (str_of_int i)
             ltac:(repeat constructor) (digits_without "_"%char _ eq_refl Hdig)).
  cbn [index nth_error]. wp_go. rewrite (py_int_str_of_int i Hi).
  wp_go. unfold rows_of_user.
  repeat wp_step; cbv beta iota; auto.
  eapply wp_mono; [apply get_rows_spec|].
  intros r w' [(v & ->) [_ Hu]]. cbv beta iota.
  change (field_map (py "desc")) with (@None (Z * string)).
  repeat wp_step; cbv beta iota; auto.
Qed.

End Buttons.

End BotFacts.

(** ** The sheet and the user of the examples *)

Module DemoFacts.

Import PyInt Store Sheets Outcome.

Lemma net_serves : serves Demo.net Demo.sheet Demo.rows.
Proof.
  intros history r. eexists. split; [reflexivity|]. split; [reflexivity|].
  intros E. cbn [json]. rewrite E. reflexivity.
Qed.

Lemma net_refuses : refuses_batches Demo.net_refusing.
Proof.
  intros history r sheet_id E. unfold Demo.net_refusing. rewrite E.
  cbn [status_code]. split; discriminate.
Qed.

Lemma user_signed_in : signed_in 7 Demo.sheet Demo.token (store Demo.world0).
Proof.
  exists Demo.user. split.
  - unfold Demo.world0. cbn [store get_user]. rewrite lookup_singleton_eq. reflexivity.
  - repeat split.
Qed.

Lemma user_known : known 7 (store Demo.world0).
Proof.
  exists Demo.user. split.
  - unfold Demo.world0. cbn [store get_user]. rewrite lookup_singleton_eq. reflexivity.
  - reflexivity.
Qed.

Lemma rows_are_rows : all_rows Demo.rows.
Proof. repeat constructor; eexists; reflexivity. Qed.

End DemoFacts.

(** * Further properties of gsheet_manager.py *)

Import PyInt Store Sheets Bot Outcome.

(** X16.  [create_contact_sheet] never raises.  Whatever the network
    answers, it returns [None] or a sheet id that is truthy; every request
    it sends is a POST. *)
Theorem create_contact_sheet_none_or_id
    (net : list request -> request -> exn + response) (clock : nat -> str)
    (access_token refresh_token : pyval) (telegram_id : option Z) (w : world) :
  exists v w',
    create_contact_sheet net clock access_token refresh_token telegram_id w = (Ok v, w')
    /\ (v = PNone \/ truthy v = true)
    /\ sends_only is_post w w'.
Proof.
  pose proof (SheetsFacts.create_spec net clock access_token refresh_token
                telegram_id w) as H.
  unfold wp in H.
  destruct (create_contact_sheet net clock access_token refresh_token telegram_id w)
    as [r w'].
  cbn [fst snd] in H.
  destruct H as [(v & -> & Hv) Hs]. exists v, w'. auto.
Qed.

(** X17.  When [create_contact_sheet] returns an id for a user whose record
    is in the store, the record has the id under [sheet_id] afterwards. *)
Theorem create_contact_sheet_records_id
    (net : list request -> request -> exn + response) (clock : nat -> str)
    (access_token refresh_token : pyval) (telegram_id : Z) (w w' : world) (v : pyval) :
  telegram_id <> 0%Z ->
  known telegram_id (store w) ->
  create_contact_sheet net clock access_token refresh_token (Some telegram_id) w
  = (Ok v, w') ->
  v <> PNone ->
  exists user, get_user telegram_id (store w') = PDict user
               /\ user !! py "sheet_id" = Some v.
Proof.
  intros Ht Hk Hrun Hv.
  exact (SheetsFacts.wp_run _ _ _ _ _
           (SheetsFacts.create_records net clock access_token refresh_token
              telegram_id w Ht Hk) Hrun v eq_refl Hv).
Qed.

Lemma create_contact_sheet_records_id_witness :
  exists w' user,
    create_contact_sheet Demo.net Demo.clock Demo.token PNone (Some 7%Z) Demo.world0
    = (Ok Demo.sheet, w')
    /\ get_user 7 (store w') = PDict user
    /\ user !! py "sheet_id" = Some Demo.sheet.
Proof.
  assert (Hr : fst (create_contact_sheet Demo.net Demo.clock Demo.token PNone
                      (Some 7%Z) Demo.world0) = Ok Demo.sheet)
    by (vm_compute; reflexivity).
  destruct (create_contact_sheet Demo.net Demo.clock Demo.token PNone (Some 7%Z)
              Demo.world0) as [r w'] eqn:E.
  cbn [fst] in Hr. subst r.
  destruct (create_contact_sheet_records_id Demo.net Demo.clock Demo.token PNone 7
              Demo.world0 w' Demo.sheet ltac:(discriminate) DemoFacts.user_known E
              ltac:(discriminate)) as (user & H1 & H2).
  exists w', user. repeat split; assumption.
Defined.

(** X18.  [validate_and_get_sheet_id] never raises, and for a sheet id that
    is truthy its result is truthy.  When the check of the sheet is answered
    with 200, the result is that id, after this one request. *)
Theorem validate_keeps_or_replaces
    (net : list request -> request -> exn + response) (clock : nat -> str)
    (sheet_id access_token refresh_token : pyval) (telegram_id : option Z) (w : world) :
  truthy sheet_id = true ->
  exists v w',
    validate_and_get_sheet_id net clock sheet_id access_token refresh_token telegram_id w
    = (Ok v, w')
    /\ truthy v = true
    /\ (forall resp,
          net (sent w) (check_request sheet_id access_token) = inr resp ->
          status_code resp = 200%Z ->
          v = sheet_id /\ w' = add_request (check_request sheet_id access_token) w).
Proof.
  intros Ht.
  pose proof (SheetsFacts.validate_spec net clock sheet_id access_token refresh_token
                telegram_id w) as H.
  unfold wp in H.
  destruct (validate_and_get_sheet_id net clock sheet_id access_token refresh_token
              telegram_id w) as [r w'] eqn:E.
  cbn [fst snd] in H.
  destruct H as [(v & -> & _ & Hv) _]. exists v, w'.
  split; [reflexivity|]. split; [exact (Hv Ht)|].
  intros resp Hn Hs.
  rewrite (SheetsFacts.validate_valid net clock _ _ refresh_token telegram_id _ _
             Ht Hn Hs) in E.
  injection E as <- <-. split; reflexivity.
Qed.

Lemma validate_keeps_or_replaces_witness :
  exists v w',
    validate_and_get_sheet_id Demo.net Demo.clock Demo.sheet Demo.token PNone None
      Demo.world0 = (Ok v, w')
    /\ truthy v = true
    /\ v = Demo.sheet.
Proof.
  destruct (validate_keeps_or_replaces Demo.net Demo.clock Demo.sheet Demo.token PNone
              None Demo.world0 eq_refl) as (v & w' & H1 & H2 & H3).
  exists v, w'. split; [exact H1|]. split; [exact H2|].
  exact (proj1 (H3 _ eq_refl eq_refl)).
Defined.

(** X19.  [append_row] raises only when the sheet id, the token or the row
    is empty, and then it is ValueError, before any request.  With the three
    given it returns a boolean, whatever the network does. *)
Theorem append_row_raises_only_on_empty
    (net : list request -> request -> exn + response) (clock : nat -> str)
    (sheet_id access_token row refresh_token : pyval) (telegram_id : option Z)
    (w : world) :
  if truthy sheet_id && truthy access_token && truthy row
  then exists (b : bool) w',
         append_row net clock sheet_id access_token row refresh_token telegram_id w
         = (Ok b, w')
  else append_row net clock sheet_id access_token row refresh_token telegram_id w
       = (Raise ValueError, w).
Proof.
  destruct (truthy sheet_id && truthy access_token && truthy row) eqn:E.
  - pose proof (SheetsFacts.append_row_spec net clock sheet_id access_token row
                  refresh_token telegram_id w E) as H.
    unfold wp in H.
    destruct (append_row net clock sheet_id access_token row refresh_token
                telegram_id w) as [r w'].
  cbn [fst snd] in H.
    destruct H as [b ->]. eauto.
  - apply SheetsFacts.append_row_empty. exact E.
Qed.

(** X20.  On a network that serves the sheet, [get_rows] returns the last
    [num_rows] of the data rows, without the header row, after two requests;
    with [num_rows] 0 it returns all of them. *)
Theorem get_rows_returns_last_rows
    (net : list request -> request -> exn + response) (clock : nat -> str)
    (sheet_id access_token refresh_token : pyval) (num_rows : Z)
    (telegram_id : option Z) (w : world) (rows : list pyval) :
  serves net sheet_id rows ->
  truthy sheet_id = true ->
  (0 <= num_rows)%Z ->
  get_rows net clock sheet_id access_token num_rows refresh_token telegram_id w
  = (Ok (PList (if (num_rows =? 0)%Z then rows
                else last_rows (Z.to_nat num_rows) rows)),
     after_rows sheet_id access_token w).
Proof.
  intros Hs Ht Hn.
  rewrite (SheetsFacts.get_rows_served net clock _ _ _ _ _ _ rows Hs Ht).
  destruct (Z.eqb_spec num_rows 0) as [->|Hne].
  - destruct (0 <? Z.of_nat (length rows))%Z; reflexivity.
  - rewrite SheetsFacts.window_last by lia. reflexivity.
Qed.

Lemma get_rows_returns_last_rows_witness :
  get_rows Demo.net Demo.clock Demo.sheet Demo.token 2 PNone None Demo.world0
  = (Ok (PList (last_rows 2 Demo.rows)),
     after_rows Demo.sheet Demo.token Demo.world0).
Proof.
  exact (get_rows_returns_last_rows Demo.net Demo.clock Demo.sheet Demo.token PNone 2
           None Demo.world0 Demo.rows DemoFacts.net_serves eq_refl ltac:(lia)).
Defined.

(** X21.  A sheet whose first row is empty reads as a sheet without rows:
    [values[0][0]] raises IndexError, and [get_rows] returns the empty
    list. *)
Theorem get_rows_empty_first_row
    (net : list request -> request -> exn + response) (clock : nat -> str)
    (sheet_id access_token refresh_token : pyval) (num_rows : Z)
    (telegram_id : option Z) (w : world) (checked answer : response)
    (data : gmap str pyval) (rest : list pyval) :
  truthy sheet_id = true ->
  net (sent w) (check_request sheet_id access_token) = inr checked ->
  status_code checked = 200%Z ->
  net (check_request sheet_id access_token :: sent w)
      (values_request sheet_id access_token) = inr answer ->
  status_code answer = 200%Z ->
  json answer = Ok (PDict data) ->
  data !! py "values" = Some (PList (PList [] :: rest)) ->
  get_rows net clock sheet_id access_token num_rows refresh_token telegram_id w
  = (Ok (PList []), after_rows sheet_id access_token w).
Proof.
  intros Ht Hc Hcs Ha Has Hj Hd.
  apply SheetsFacts.wp_eq. unfold get_rows.
  apply SheetsFacts.wp_bind.
  eapply SheetsFacts.wp_of_run;
    [exact (SheetsFacts.validate_valid net clock _ _ _ _ _ _ Ht Hc Hcs)|].
  cbv beta iota. rewrite Ht. cbn [negb].
  apply SheetsFacts.wp_try. apply SheetsFacts.wp_bind. apply SheetsFacts.wp_send.
  - intros e He. cbn [sent add_request] in He.
    unfold values_request in Ha. congruence.
  - intros resp Hr. cbn [sent add_request] in Hr.
    unfold values_request in Ha. rewrite Ha in Hr. injection Hr as <-.
    cbv beta iota. rewrite Has. change (200 =? 200)%Z with true. cbv iota.
    rewrite (SheetsFacts.rows_of_response_empty_first _ _ _ _ Hj Hd).
    split; reflexivity.
Qed.

Lemma get_rows_empty_first_row_witness :
  get_rows Demo.net_blank_first Demo.clock Demo.sheet Demo.token 10 PNone None
    Demo.world0
  = (Ok (PList []), after_rows Demo.sheet Demo.token Demo.world0).
Proof.
  exact (get_rows_empty_first_row Demo.net_blank_first Demo.clock Demo.sheet Demo.token
           PNone 10 None Demo.world0 _ _ _ Demo.rows eq_refl eq_refl eq_refl eq_refl
           eq_refl eq_refl (lookup_singleton_eq _ _)).
Defined.

(** X22.  Neither [get_rows] nor [update_row] raises: whatever the network
    answers, and whatever users.json holds, each returns a value. *)
Theorem get_rows_and_update_row_never_raise
    (net : list request -> request -> exn + response) (clock : nat -> str)
    (sheet_id access_token refresh_token value : pyval) (num_rows row_index : Z)
    (field : str) (telegram_id : option Z) (w : world) :
  (exists v w',
     get_rows net clock sheet_id access_token num_rows refresh_token telegram_id w
     = (Ok v, w'))
  /\ (exists (b : bool) w',
        update_row net clock sheet_id access_token row_index field value refresh_token
          telegram_id w = (Ok b, w')).
Proof.
  split.
  - pose proof (SheetsFacts.get_rows_spec net clock sheet_id access_token num_rows
                  refresh_token telegram_id w) as H.
    unfold wp in H.
    destruct (get_rows net clock sheet_id access_token num_rows refresh_token
                telegram_id w) as [r w'].
  cbn [fst snd] in H.
    destruct H as [(v & ->) _]. eauto.
  - pose proof (SheetsFacts.update_row_spec net clock sheet_id access_token row_index
                  field value refresh_token telegram_id w) as H.
    unfold wp in H.
    destruct (update_row net clock sheet_id access_token row_index field value
                refresh_token telegram_id w) as [r w'].
  cbn [fst snd] in H.
    destruct H as [(b & ->) _]. eauto.
Qed.

(** X23.  [update_row] with a field that is not one of name, company,
    description, phone, email returns [False] and writes no cell: none of
    the requests it sends (the check of the sheet, the creation of a new
    one) is a PUT. *)
Theorem update_row_unknown_field
    (net : list request -> request -> exn + response) (clock : nat -> str)
    (sheet_id access_token refresh_token value : pyval) (row_index : Z)
    (field : str) (telegram_id : option Z) (w : world) :
  col_map field = None ->
  exists w',
    update_row net clock sheet_id access_token row_index field value refresh_token
      telegram_id w = (Ok false, w')
    /\ sends_only no_put w w'.
Proof.
  intros Hc.
  pose proof (SheetsFacts.update_row_unknown net clock sheet_id access_token row_index
                field value refresh_token telegram_id w Hc) as H.
  unfold wp in H.
  destruct (update_row net clock sheet_id access_token row_index field value
              refresh_token telegram_id w) as [r w'].
  cbn [fst snd] in H.
  destruct H as [-> Hs]. eauto.
Qed.

Lemma update_row_unknown_field_witness :
  exists w',
    update_row Demo.net Demo.clock Demo.sheet Demo.token 0 (py "desc")
      (PStr (py "Director")) PNone None Demo.world0 = (Ok false, w')
    /\ sends_only no_put Demo.world0 w'.
Proof.
  exact (update_row_unknown_field Demo.net Demo.clock Demo.sheet Demo.token PNone
           (PStr (py "Director")) 0 (py "desc") None Demo.world0 eq_refl).
Defined.

(** X24.  On a network that serves the sheet, [delete_row] with a list of
    indices sends one batch update after the check of the sheet: it has one
    range [idx + 1, idx + 2) for each distinct index, the largest index
    first, and the number of distinct indices is returned. *)
Theorem delete_row_sends_one_batch
    (net : list request -> request -> exn + response) (clock : nat -> str)
    (sheet_id access_token refresh_token : pyval) (row_indices : list Z)
    (telegram_id : option Z) (w : world) (rows : list pyval) :
  serves net sheet_id rows ->
  truthy sheet_id = true ->
  row_indices <> [] ->
  exists distinct,
    StronglySorted Z.gt distinct
    /\ (forall idx, In idx distinct <-> In idx row_indices)
    /\ delete_row net clock sheet_id access_token (Index_list row_indices)
         refresh_token telegram_id w
       = (Ok (Z.of_nat (length distinct)),
          add_request
            (batch_request sheet_id access_token
               (map (fun idx => (idx + 1, idx + 2)%Z) distinct))
            (add_request (check_request sheet_id access_token) w)).
Proof.
  intros Hs Ht Hl. exists (sorted_desc row_indices).
  split; [apply SheetsFacts.sorted_desc_sorted|].
  split; [intros idx; apply SheetsFacts.sorted_desc_in|].
  exact (SheetsFacts.delete_row_served net clock _ _ _ refresh_token telegram_id w
           rows Hs Ht Hl).
Qed.

Lemma delete_row_sends_one_batch_witness :
  exists distinct,
    StronglySorted Z.gt distinct
    /\ (forall idx, In idx distinct <-> In idx [0; 2; 0]%Z)
    /\ delete_row Demo.net Demo.clock Demo.sheet Demo.token (Index_list [0; 2; 0]%Z)
         PNone None Demo.world0
       = (Ok (Z.of_nat (length distinct)),
          add_request
            (batch_request Demo.sheet Demo.token
               (map (fun idx => (idx + 1, idx + 2)%Z) distinct))
            (add_request (check_request Demo.sheet Demo.token) Demo.world0)).
Proof.
  exact (delete_row_sends_one_batch Demo.net Demo.clock Demo.sheet Demo.token PNone
           [0; 2; 0]%Z None Demo.world0 Demo.rows DemoFacts.net_serves eq_refl
           ltac:(discriminate)).
Defined.

(** X25.  When the batch update is refused, [delete_row] does not delete
    the rows one by one: the call it makes for the first index passes an
    integer where a list is expected, and TypeError is raised.  (An index
    -1 is skipped, since -1 + 1 is falsy.) *)
Theorem delete_row_fallback_raises
    (net : list request -> request -> exn + response) (clock : nat -> str)
    (sheet_id access_token refresh_token : pyval) (row_indices : list Z)
    (telegram_id : option Z) (w : world) :
  refuses_batches net ->
  truthy sheet_id = true ->
  (exists idx, In idx row_indices /\ idx <> (-1)%Z) ->
  fst (delete_row net clock sheet_id access_token (Index_list row_indices)
         refresh_token telegram_id w) = Raise TypeError.
Proof.
  intros Hr Ht Hx.
  exact (SheetsFacts.delete_row_refused net clock _ _ _ _ _ _ Hr Ht Hx).
Qed.

Lemma delete_row_fallback_raises_witness :
  fst (delete_row Demo.net_refusing Demo.clock Demo.sheet Demo.token
         (Index_list [1]%Z) PNone None Demo.world0) = Raise TypeError.
Proof.
  apply (delete_row_fallback_raises Demo.net_refusing Demo.clock Demo.sheet Demo.token
           PNone [1]%Z None Demo.world0 DemoFacts.net_refuses eq_refl).
  exists 1%Z. split; [left; reflexivity | discriminate].
Defined.

(** * Further properties of bot.py *)

(** X26.  On a text of ASCII characters the loop of
    [handle_delete_rows_input] over the parts of the text never raises, and
    every number it takes lies between 1 and the number of rows.  On other
    text it can raise: [isdigit] holds of the superscript two, and [int],
    which is called outside the [try], raises ValueError on it. *)
Theorem parse_delete_input_in_range (text : str) (total : Z) :
  (ascii_text text ->
   exists valid indices,
     parse_delete_input text total = Ok (valid, indices)
     /\ in_range total indices)
  /\ parse_delete_input [ascii_of_nat 178] total = Raise ValueError.
Proof.
  split; [|reflexivity].
  intros Hascii. unfold parse_delete_input.
  apply BotFacts.parse_parts_spec.
  - apply BotFacts.split_ascii. exact Hascii.
  - intros i Hi. set_solver.
Qed.

Lemma parse_delete_input_in_range_witness :
  exists valid indices,
    parse_delete_input (py "1-3, 5,x") 12 = Ok (valid, indices)
    /\ in_range 12 indices.
Proof.
  apply (proj1 (parse_delete_input_in_range (py "1-3, 5,x") 12)).
  unfold ascii_text. repeat constructor.
Defined.

(** X27.  The button Role of [handle_edit_row_input] carries the data
    [edit_desc_{i}].  [handle_callback] passes it to [handle_edit_field],
    which never asks for a new value on it: [desc] is not a key of
    [field_map], so the answer is "Invalid entry", "Invalid field" or
    "Error starting edit", and [user_data] stays as it is. *)
Theorem role_button_never_prompts
    (net : list request -> request -> exn + response) (clock : nat -> str)
    (i from_user : Z) (w : world) :
  (0 <= i)%Z ->
  handle_callback_route (py "edit_desc_" ++ str_of_int i) = Edit_field
  /\ exists reply w',
       handle_edit_field net clock (py "edit_desc_" ++ str_of_int i) from_user w
       = (Ok reply, w')
       /\ (reply = Invalid_entry \/ reply = Invalid_field
           \/ reply = Error_starting_edit)
       /\ user_data w' = user_data w.
Proof.
  intros Hi. split; [apply BotFacts.desc_button_route, Hi|].
  pose proof (BotFacts.desc_button_reply net clock i from_user w Hi) as H.
  unfold wp in H.
  destruct (handle_edit_field net clock (py "edit_desc_" ++ str_of_int i) from_user w)
    as [r w'].
  cbn [fst snd] in H.
  destruct H as [[-> | [-> | ->]] Hu]; eexists _, w'; (split; [reflexivity|]); auto.
Qed.

Lemma role_button_never_prompts_witness :
  handle_callback_route (py "edit_desc_" ++ str_of_int 0) = Edit_field
  /\ exists reply w',
       handle_edit_field Demo.net Demo.clock (py "edit_desc_" ++ str_of_int 0) 7
         Demo.world0 = (Ok reply, w')
       /\ (reply = Invalid_entry \/ reply = Invalid_field
           \/ reply = Error_starting_edit)
       /\ user_data w' = user_data Demo.world0.
Proof.
  exact (role_button_never_prompts Demo.net Demo.clock 0 7 Demo.world0 ltac:(lia)).
Defined.

(** X28.  On a network that serves a sheet of at most 50 rows, the number
    [d] of the list (newest first) makes [handle_edit_row_input] show the
    row [len(rows) - d] of the data rows, keep that index under
    [editing_row], set [editing] and drop [mode]; the five buttons carry
    that index. *)
Theorem edit_number_chooses_row
    (net : list request -> request -> exn + response) (clock : nat -> str)
    (sheet_id access_token : pyval) (rows : list pyval) (user_id d : Z) (w : world) :
  serves net sheet_id rows ->
  signed_in user_id sheet_id access_token (store w) ->
  all_rows rows ->
  (1 <= d <= Z.of_nat (length rows))%Z ->
  length rows <= 50 ->
  exists cells,
    rows !! (length rows - Z.to_nat d) = Some (PList cells)
    /\ exists w',
      handle_edit_row_input net clock (str_of_int d) user_id w
      = (Ok (Choose_a_field d (cell cells 1) (cell cells 2) (cell cells 3)
               (cell cells 4) (cell cells 5)
               (map (fun field => py field ++ str_of_int (Z.of_nat (length rows) - d))
                    ["edit_name_"; "edit_company_"; "edit_desc_"; "edit_phone_";
                     "edit_email_"]%string)), w')
      /\ user_data w'
         = base.delete (py "mode")
             (<[py "editing" := PBool true]>
                (<[py "editing_row" := PInt (Z.of_nat (length rows) - d)]>
                   (user_data w))).
Proof.
  intros Hs Hu Ha Hd Hn.
  exact (BotFacts.handle_edit_row_input_served net clock sheet_id access_token rows
           user_id Hs d w Hu Ha Hd Hn).
Qed.

Lemma edit_number_chooses_row_witness :
  exists cells,
    Demo.rows !! 2 = Some (PList cells)
    /\ exists w',
      handle_edit_row_input Demo.net Demo.clock (str_of_int 1) 7 Demo.world0
      = (Ok (Choose_a_field 1 (cell cells 1) (cell cells 2) (cell cells 3)
               (cell cells 4) (cell cells 5)
               (map (fun field => py field ++ str_of_int 2)
                    ["edit_name_"; "edit_company_"; "edit_desc_"; "edit_phone_";
                     "edit_email_"]%string)), w')
      /\ user_data w'
         = base.delete (py "mode")
             (<[py "editing" := PBool true]>
                (<[py "editing_row" := PInt 2]> (user_data Demo.world0))).
Proof.
  exact (edit_number_chooses_row Demo.net Demo.clock Demo.sheet Demo.token Demo.rows 7 1
           Demo.world0 DemoFacts.net_serves DemoFacts.user_signed_in
           DemoFacts.rows_are_rows ltac:(simpl; lia) ltac:(simpl; lia)).
Defined.

(** X29.  On a network that serves a sheet of at most 100 rows, the number
    [d] of the list makes [handle_delete_rows_input] pass the index
    [len(rows) - d + 1] to [delete_row]: the batch update it sends deletes
    the rows [len(rows) - d + 2, len(rows) - d + 3) of the sheet, and the
    answer is that 1 contact was deleted.  (The row [handle_edit_row_input]
    shows for [d] has the index [len(rows) - d], one less.) *)
Theorem delete_number_request
    (net : list request -> request -> exn + response) (clock : nat -> str)
    (sheet_id access_token : pyval) (rows : list pyval) (user_id d : Z) (w : world) :
  serves net sheet_id rows ->
  signed_in user_id sheet_id access_token (store w) ->
  (1 <= d <= Z.of_nat (length rows))%Z ->
  length rows <= 100 ->
  exists w',
    handle_delete_rows_input net clock (str_of_int d) user_id w = (Ok (Deleted 1), w')
    /\ sent w'
       = batch_request sheet_id access_token
           [(Z.of_nat (length rows) - d + 2, Z.of_nat (length rows) - d + 3)%Z]
         :: check_request sheet_id access_token
         :: values_request sheet_id access_token
         :: check_request sheet_id access_token :: sent w
    /\ user_data w' = base.delete (py "editing") (base.delete (py "mode") (user_data w)).
Proof.
  intros Hs Hu Hd Hn.
  exact (BotFacts.handle_delete_rows_input_served net clock sheet_id access_token rows
           user_id Hs d w Hu Hd Hn).
Qed.

Lemma delete_number_request_witness :
  exists w',
    handle_delete_rows_input Demo.net Demo.clock (str_of_int 1) 7 Demo.world0
    = (Ok (Deleted 1), w')
    /\ sent w'
       = [ batch_request Demo.sheet Demo.token [(4, 5)%Z];
           check_request Demo.sheet Demo.token;
           values_request Demo.sheet Demo.token;
           check_request Demo.sheet Demo.token ]
    /\ user_data w'
       = base.delete (py "editing") (base.delete (py "mode") (user_data Demo.world0)).
Proof.
  exact (delete_number_request Demo.net Demo.clock Demo.sheet Demo.token Demo.rows 7 1
           Demo.world0 DemoFacts.net_serves DemoFacts.user_signed_in
           ltac:(simpl; lia) ltac:(simpl; lia)).
Defined.

(** X30.  [handle_edit_field] reads the last ten rows, where
    [handle_edit_row_input] counted in the last fifty.  On a network that
    serves the sheet, the button [edit_name_{k}] gets "Invalid entry" when
    [k] is 10 or more; it asks for a new value and shows the name of the
    row [k] when the sheet has at most ten rows; and when it has more, it
    shows the name of the row [len(rows) - 10 + k]. *)
Theorem name_button_reads_last_ten
    (net : list request -> request -> exn + response) (clock : nat -> str)
    (sheet_id access_token : pyval) (rows : list pyval) (user_id k : Z) (w : world) :
  serves net sheet_id rows ->
  signed_in user_id sheet_id access_token (store w) ->
  all_rows rows ->
  (0 <= k < Z.of_nat (length rows))%Z ->
  exists reply w',
    handle_edit_field net clock (py "edit_name_" ++ str_of_int k) user_id w
    = (Ok reply, w')
    /\ ((10 <= k)%Z -> reply = Invalid_entry /\ user_data w' = user_data w)
    /\ ((k < 10)%Z ->
        exists cells,
          rows !! (length rows - Nat.min 10 (length rows) + Z.to_nat k)
          = Some (PList cells)
          /\ reply = Enter_new_value "Name" (k + 1) (cell cells 1)
          /\ user_data w' = <[py "editing" := editing_name k]> (user_data w)).
Proof.
  intros Hs Hu Ha Hk.
  pose proof (BotFacts.name_button_run net clock sheet_id access_token rows user_id Hs
                k w Hu ltac:(lia)) as H.
  unfold wp in H.
  destruct (handle_edit_field net clock (py "edit_name_" ++ str_of_int k) user_id w)
    as [r w'].
  cbn [fst snd] in H. destruct H as [Hfar Hnear].
  assert (Hlen : length (last_rows 10 rows) = Nat.min 10 (length rows)).
  { unfold last_rows. rewrite length_drop. lia. }
  destruct (Z.le_gt_cases 10 k) as [Hge|Hlt].
  - destruct (Hfar ltac:(lia)) as [-> Hud].
    exists Invalid_entry, w'. split; [reflexivity|]. split; [auto | lia].
  - assert (Hi : length rows - Nat.min 10 (length rows) + Z.to_nat k < length rows)
      by lia.
    destruct (BotFacts.all_rows_lookup rows _ Ha Hi) as [cells Hc].
    assert (Hl : last_rows 10 rows !! Z.to_nat k = Some (PList cells)).
    { unfold last_rows. rewrite lookup_drop.
      replace (length rows - 10 + Z.to_nat k)
        with (length rows - Nat.min 10 (length rows) + Z.to_nat k) by lia.
      exact Hc. }
    destruct (Hnear cells Hl) as [-> Hud].
    eexists _, w'. split; [reflexivity|]. split; [lia|].
    intros _. exists cells. auto.
Qed.

Lemma name_button_reads_last_ten_witness :
  exists reply w',
    handle_edit_field Demo.net Demo.clock (py "edit_name_" ++ str_of_int 2) 7
      Demo.world0 = (Ok reply, w')
    /\ exists cells,
         Demo.rows !! 2 = Some (PList cells)
         /\ reply = Enter_new_value "Name" 3 (cell cells 1)
         /\ user_data w' = <[py "editing" := editing_name 2]> (user_data Demo.world0).
Proof.
  destruct (name_button_reads_last_ten Demo.net Demo.clock Demo.sheet Demo.token
              Demo.rows 7 2 Demo.world0 DemoFacts.net_serves DemoFacts.user_signed_in
              DemoFacts.rows_are_rows ltac:(simpl; lia))
    as (reply & w' & H1 & _ & H3).
  exists reply, w'. split; [exact H1|]. exact (H3 ltac:(lia)).
Defined.
